(** * The workflow editor of [workflow-editor.js], embedded in Rocq

    The editor is one controller object ([WorkflowEditor]) that couples an
    in-memory graph (nodes, connections) to the page and to a REST backend.
    The embedding keeps the three things the methods read and write:

    - the fields of [this] (record [Editor]),
    - the part of the document the methods read back (record [Dom]),
    - what leaves the page: requests, notifications, console output and
      history rewrites (the list of [Effect]s, oldest first).

    Methods are computations in a state-and-exception monad over these; an
    [async] method is cut at each [await] into the part that runs before it
    and the part that runs when the awaited promise settles.

    Embedded are the methods that edit the graph and the workflow object
    ([addNode], [onDrop], [updateNodeProperty], [updateWorkflowProperty],
    node dragging, connection drawing, selection of a connection,
    [clearSelection], [deleteConnection], [deleteNode]), the rendering they
    call, and the three methods that talk to the backend ([saveWorkflow],
    [testWorkflow], [deployWorkflow]), and further the zoom controls,
    [loadWorkflow], the grouping of the palette ([groupNodesByCategory]) and
    the one-line label of a node ([getNodeDescription]).  Construction, the
    rest of the palette, the properties form and the tabs are not. *)

From Stdlib Require Import List Sorted String Ascii Bool NArith ZArith Lia
  Floats.
Import ListNotations.
Set Warnings "-register-all".
Local Open Scope list_scope.
Local Open Scope string_scope.

(** ** JavaScript numbers

    Numbers are IEEE 754 doubles, which is what [PrimFloat.float] is. *)

Abbreviation num := float (only parsing).

(** [Math.abs] *)
Definition Math_abs (a : num) : num := PrimFloat.abs a.

(** [Math.max] of two arguments: NaN if either is NaN, otherwise the larger,
    where [+0] counts as larger than [-0]. *)
Definition Math_max (a b : num) : num :=
  if (is_nan a || is_nan b)%bool then nan
  else if (b <? a)%float then a
  else if (a <? b)%float then b
  else if (is_zero a && get_sign a)%bool then b else a.

(** ** JavaScript strings

    A JavaScript string is a sequence of UTF-16 code units, a Rocq string a
    sequence of bytes.  A Rocq string stands for the JavaScript string of
    which it is the UTF-8 encoding (which is how the string literals of
    this file are read), a surrogate without its partner being written in
    three bytes like the other code points of its size.  Equality and
    concatenation of the encodings are those of the strings; [length] and
    [substring] count code units, not bytes. *)

(** A byte [10xxxxxx] continues the code point that began before it. *)
Definition continuation_byte (c : ascii) : bool :=
  ((128 <=? N_of_ascii c) && (N_of_ascii c <? 192))%N.

(** The code units of the code point that begins with the byte [c]: two, a
    surrogate pair, when [c] begins a sequence of four bytes, else one.  A
    continuation byte begins nothing. *)
Definition code_units (c : ascii) : nat :=
  if continuation_byte c then 0
  else if (240 <=? N_of_ascii c)%N then 2 else 1.

(** [s.length] *)
Fixpoint js_length (s : string) : nat :=
  match s with
  | EmptyString => 0
  | String c rest => code_units c + js_length rest
  end.

(** The continuation byte with the six bits of [x]. *)
Definition continuation (x : N) : ascii := ascii_of_N (128 + x mod 64).

(** The first code unit, a high surrogate, of the code point that the byte
    [c] and the three bytes after it encode. *)
Definition high_surrogate (c : ascii) (rest : string) : string :=
  let bits (i : nat) : N :=
    match get i rest with
    | Some b => (N_of_ascii b mod 64)%N
    | None => 0%N
    end in
  let code_point :=
    (N_of_ascii c mod 8 * 262144 + bits 0%nat * 4096 + bits 1%nat * 64
     + bits 2%nat)%N in
  let unit := (55296 + (code_point - 65536) / 1024)%N in
  String (ascii_of_N 237)
    (String (continuation (unit / 64))
       (String (continuation unit) EmptyString)).

(** [s.substring(0, n)]: the first [n] code units, all of [s] if it has no
    more.  The cut may fall inside a surrogate pair. *)
Fixpoint js_prefix (n : nat) (s : string) : string :=
  match s with
  | EmptyString => EmptyString
  | String c rest =>
      if continuation_byte c then String c (js_prefix n rest)
      else
        match n with
        | 0 => EmptyString
        | S m =>
            if (240 <=? N_of_ascii c)%N then
              match m with
              | 0 => high_surrogate c rest
              | S m' => String c (js_prefix m' rest)
              end
            else String c (js_prefix m rest)
        end
  end.

(** ** JavaScript values, as far as JSON and the editor's fields need them *)

Inductive jsval : Type :=
| JUndefined
| JNull
| JBool (b : bool)
| JNum (n : num)
| JStr (s : string)
| JArr (items : list jsval)
| JObj (props : list (string * jsval)).

(** Truthiness, the test behind [if (v)], [!v], [v ? a : b] and [v || w]. *)
Definition truthy (v : jsval) : bool :=
  match v with
  | JUndefined | JNull => false
  | JBool b => b
  | JNum n => negb (is_zero n || is_nan n)
  | JStr s => negb (s =? "")
  | JArr _ | JObj _ => true
  end.

(** [a || b] *)
Definition js_or (a b : jsval) : jsval := if truthy a then a else b.

(** Own data properties of a plain object, in the order of their creation. *)
Fixpoint props_get (k : string) (ps : list (string * jsval)) : jsval :=
  match ps with
  | [] => JUndefined
  | (k', v) :: rest => if k' =? k then v else props_get k rest
  end.

(** Whether [k] is an own property. *)
Definition props_has (k : string) (ps : list (string * jsval)) : bool :=
  existsb (fun e => fst e =? k) ps.

(** The own data property [k] gets the value [v]: replaced where it stands,
    or created after the others. *)
Fixpoint props_put (k : string) (v : jsval) (ps : list (string * jsval))
  : list (string * jsval) :=
  match ps with
  | [] => [(k, v)]
  | (k', v') :: rest =>
      if k' =? k then (k, v) :: rest else (k', v') :: props_put k v rest
  end.

(** The assignment [o[k] = v] on a plain object, one whose prototype is
    [Object.prototype].  It gives the own data property [k] the value [v],
    but for one key: ['__proto__'], on an object that has no own property
    of that name, reaches the accessor that [Object.prototype] provides,
    and that accessor creates no property: it replaces the prototype of
    [o] when [v] is an object or [null], and does nothing for any other
    [v].  (An object read from JSON may have an own ['__proto__'];
    assigning to it then is an assignment like any other.)  The own
    properties are all that is represented of an object: the editor reads
    no inherited property of an object it assigns to. *)
Definition props_set (k : string) (v : jsval) (ps : list (string * jsval))
  : list (string * jsval) :=
  if (k =? "__proto__") && negb (props_has k ps) then ps
  else props_put k v ps.

(** ** [Map]: insertion-ordered, one entry per key *)

Section JsMap.
Context {V : Type}.

Definition JsMap := list (string * V).

Fixpoint map_get (k : string) (m : JsMap) : option V :=
  match m with
  | [] => None
  | (k', v) :: rest => if k' =? k then Some v else map_get k rest
  end.

(** [m.set(k, v)]: an existing key keeps its place, a new one goes last. *)
Fixpoint map_set (k : string) (v : V) (m : JsMap) : JsMap :=
  match m with
  | [] => [(k, v)]
  | (k', v') :: rest =>
      if k' =? k then (k, v) :: rest else (k', v') :: map_set k v rest
  end.

(** [m.delete(k)] *)
Definition map_delete (k : string) (m : JsMap) : JsMap :=
  filter (fun e => negb (fst e =? k)) m.

Definition map_keys (m : JsMap) : list string := map fst m.
Definition map_values (m : JsMap) : list V := map snd m.

(** The invariant of the type: no key occurs twice. *)
Definition map_wf (m : JsMap) : Prop := NoDup (map_keys m).
End JsMap.
Arguments JsMap V : clear implicits.

(** ** Geometry *)

Module Point.
Record t : Type := mk { x : num; y : num }.
End Point.

(** A [DOMRect], as [getBoundingClientRect] returns it. *)
Module Rect.
Record t : Type := mk { left : num; top : num; width : num; height : num }.
End Rect.

(** ** The graph *)

Definition Config := list (string * jsval).

(** A node object.  [node_config] and [node_status] are absent on nodes that
    were loaded from a saved definition without them.  Ids are strings, as
    [generateId] makes them and as the [data-node-id] attribute holds them;
    a definition handed to the editor could carry ids of another type, and
    such nodes are outside this model. *)
Record Node : Type := mkNode {
  node_id : string;
  node_type : string;
  node_name : string;
  node_position : Point.t;
  node_config : option Config;
  node_status : option string
}.

(** A connection object.  A handle name is the [data-handle] attribute of the
    handle element, [None] when the element has none. *)
Record Connection : Type := mkConnection {
  conn_id : string;
  source : string;
  sourceHandle : option string;
  target : string;
  targetHandle : option string
}.

(** Of a node type, the two fields [addNode] copies into the node. *)
Record NodeType : Type := mkNodeType {
  nt_name : string;
  nt_display_name : string
}.

(** ** The fields of [this] *)

Record ConnectionStart : Type := mkConnectionStart {
  cs_nodeId : string;
  cs_handle : option string
}.

Record DragStart : Type := mkDragStart {
  ds_x : num;
  ds_y : num;
  ds_nodeId : string
}.

(** [this.canvas].  [element] tells whether [this.canvas.element] is an
    element ([true]) or [null]. *)
Record Canvas : Type := mkCanvas {
  scale : num;
  offsetX : num;
  offsetY : num;
  isDragging : bool;
  isConnecting : bool;
  connectionStart : option ConnectionStart;
  dragStart : option DragStart;
  element : bool
}.

(** [connectionsLayer] and [nodesLayer] tell whether [setupDOM] found the
    layer ([true]) or stored [null]. *)
Record Editor : Type := mkEditor {
  options_workflowId : jsval;
  workflow : jsval;
  nodes : JsMap Node;
  connections : JsMap Connection;
  selectedNode : option string;
  selectedConnection : option string;
  isDirty : bool;
  isLoading : bool;
  nodeTypes : JsMap NodeType;
  canvas : Canvas;
  connectionsLayer : bool;
  nodesLayer : bool
}.

(** ** The document *)

(** What [document.querySelector] finds for a string: nothing the browser
    can parse, no element, or an element.  Of an element it matters here
    whether it is an HTML element, whose [className] is a string, or an SVG
    element such as a connection line, whose [className] is an object. *)
Inductive ElementKind : Type := HTMLElement | SVGElement.

Inductive Queried : Type :=
| NotASelector
| NoMatch
| Match (kind : ElementKind).

(** Of the page, what the methods read: which elements exist, the values of
    the two workflow inputs, the CSRF meta tag, and the layout of handles.
    Of what they write, the model keeps which node and connection elements
    exist, the path of each connection line and whether the loading overlay
    is shown; classes, styles and labels are written and never consulted.
    Selectors that the methods build from the ids of the editor's own nodes
    and connections are taken to be well formed; the selector that
    [showTestResults] builds from a response body is checked. *)
Record Dom : Type := mkDom {
  (* meta[name="csrf-token"]: the element if any, and its content attribute *)
  csrf_meta : option (option string);
  (* the value of #workflow-name and of #workflow-description *)
  workflow_name_input : option string;
  workflow_description_input : option string;
  (* #no-selection, #node-properties, #connection-properties *)
  no_selection : bool;
  node_properties : bool;
  connection_properties : bool;
  (* #loading-overlay, with whether it is displayed *)
  loading_overlay : option bool;
  (* #execution-logs *)
  execution_logs : bool;
  (* data-node-id of the node elements in the document *)
  node_elements : list string;
  (* data-connection-id of the connection lines, each with its d attribute *)
  connection_elements : JsMap string;
  (* layout: the canvas rectangle, and the rectangle of the handle of a
     given class inside the element of a given node, if it has one *)
  canvas_rect : Rect.t;
  handle_rect : string -> string -> option Rect.t;
  (* [document.querySelector], for the selectors that are built from a
     response body: parsing and matching are the browser's *)
  query_selector : string -> Queried
}.

(** ** What leaves the page *)

Inductive Exn : Type :=
| TypeError
| NetworkError            (* the promise of [fetch] rejected *)
| SyntaxError             (* [response.json()] rejected: the body is not JSON *)
| DOMSyntaxError          (* [querySelector] on a string that is no selector:
                             a [DOMException] of the name 'SyntaxError' *)
| Error (message : string).

(** The node entries [getWorkflowData] builds. *)
Record NodeData : Type := mkNodeData {
  nd_id : string;
  nd_type : string;
  nd_name : string;
  nd_position : Point.t;
  nd_config : Config
}.

Record WorkflowData : Type := mkWorkflowData {
  wd_name : string;
  wd_description : string;
  wd_nodes : list NodeData;
  wd_connections : list Connection
}.

(** A request body, before [JSON.stringify]. *)
Inductive Body : Type :=
| WorkflowBody (d : WorkflowData)
| TestBody.               (* {input_data: {}} *)

Record Request : Type := mkRequest {
  req_url : string;
  req_method : string;
  req_headers : list (string * string);
  req_credentials : string;
  req_body : option Body
}.

Inductive Effect : Type :=
| Fetch (r : Request)
| ShowNotification (message type : string)
| ConsoleError (label : string) (e : Exn)
| ReplaceState (url : string).

Record World : Type := mkWorld {
  this : Editor;
  document : Dom;
  effects : list Effect
}.

(** ** The monad of methods: state, and completion by return or by throw *)

Inductive Completion (A : Type) : Type :=
| Normal (a : A)
| Throw (e : Exn).
Arguments Normal {A} a.
Arguments Throw {A} e.

Definition M (A : Type) : Type := World -> Completion A * World.

Definition ret {A} (a : A) : M A := fun w => (Normal a, w).
Definition throw {A} (e : Exn) : M A := fun w => (Throw e, w).

Definition bind {A B} (m : M A) (k : A -> M B) : M B :=
  fun w =>
    match m w with
    | (Normal a, w1) => k a w1
    | (Throw e, w1) => (Throw e, w1)
    end.

Declare Scope js_scope.
Delimit Scope js_scope with js.
Notation "x <- m ;; k" := (bind m (fun x => k))
  (at level 100, m at next level, right associativity) : js_scope.
Notation "m ;; k" := (bind m (fun _ => k))
  (at level 100, right associativity) : js_scope.
Local Open Scope js_scope.

(** [try { body } catch (e) { handler e } finally { fin }], for a [body]
    without a value. *)
Definition try_catch_finally (body : M unit) (handler : Exn -> M unit)
  (fin : M unit) : M unit :=
  fun w =>
    match body w with
    | (Normal _, w1) => fin w1
    | (Throw e, w1) =>
        match handler e w1 with
        | (Normal _, w2) => fin w2
        | (Throw e', w2) =>
            match fin w2 with
            | (Normal _, w3) => (Throw e', w3)
            | (Throw e'', w3) => (Throw e'', w3)
            end
        end
    end.

Definition get_this : M Editor := fun w => (Normal (this w), w).
Definition get_document : M Dom := fun w => (Normal (document w), w).

Definition modify_this (f : Editor -> Editor) : M unit :=
  fun w => (Normal tt, mkWorld (f (this w)) (document w) (effects w)).

Definition modify_document (f : Dom -> Dom) : M unit :=
  fun w => (Normal tt, mkWorld (this w) (f (document w)) (effects w)).

Definition emit (e : Effect) : M unit :=
  fun w => (Normal tt, mkWorld (this w) (document w) (effects w ++ [e])%list).

(** [when c m]: [if (c) { m }] *)
Definition when (c : bool) (m : M unit) : M unit := if c then m else ret tt.

(** [forEach] over an array *)
Fixpoint forEach {A} (l : list A) (f : A -> M unit) : M unit :=
  match l with
  | [] => ret tt
  | a :: rest => f a ;; forEach rest f
  end.

(** ** Field assignment *)

Definition with_workflowId (v : jsval) (e : Editor) : Editor :=
  mkEditor v (workflow e) (nodes e) (connections e) (selectedNode e)
    (selectedConnection e) (isDirty e) (isLoading e) (nodeTypes e) (canvas e)
    (connectionsLayer e) (nodesLayer e).

Definition with_workflow (v : jsval) (e : Editor) : Editor :=
  mkEditor (options_workflowId e) v (nodes e) (connections e) (selectedNode e)
    (selectedConnection e) (isDirty e) (isLoading e) (nodeTypes e) (canvas e)
    (connectionsLayer e) (nodesLayer e).

Definition with_nodes (m : JsMap Node) (e : Editor) : Editor :=
  mkEditor (options_workflowId e) (workflow e) m (connections e)
    (selectedNode e) (selectedConnection e) (isDirty e) (isLoading e)
    (nodeTypes e) (canvas e) (connectionsLayer e) (nodesLayer e).

Definition with_connections (m : JsMap Connection) (e : Editor) : Editor :=
  mkEditor (options_workflowId e) (workflow e) (nodes e) m (selectedNode e)
    (selectedConnection e) (isDirty e) (isLoading e) (nodeTypes e) (canvas e)
    (connectionsLayer e) (nodesLayer e).

Definition with_selectedNode (s : option string) (e : Editor) : Editor :=
  mkEditor (options_workflowId e) (workflow e) (nodes e) (connections e) s
    (selectedConnection e) (isDirty e) (isLoading e) (nodeTypes e) (canvas e)
    (connectionsLayer e) (nodesLayer e).

Definition with_selectedConnection (s : option string) (e : Editor) : Editor :=
  mkEditor (options_workflowId e) (workflow e) (nodes e) (connections e)
    (selectedNode e) s (isDirty e) (isLoading e) (nodeTypes e) (canvas e)
    (connectionsLayer e) (nodesLayer e).

Definition with_isDirty (b : bool) (e : Editor) : Editor :=
  mkEditor (options_workflowId e) (workflow e) (nodes e) (connections e)
    (selectedNode e) (selectedConnection e) b (isLoading e) (nodeTypes e)
    (canvas e) (connectionsLayer e) (nodesLayer e).

Definition with_isLoading (b : bool) (e : Editor) : Editor :=
  mkEditor (options_workflowId e) (workflow e) (nodes e) (connections e)
    (selectedNode e) (selectedConnection e) (isDirty e) b (nodeTypes e)
    (canvas e) (connectionsLayer e) (nodesLayer e).

Definition with_canvas (c : Canvas) (e : Editor) : Editor :=
  mkEditor (options_workflowId e) (workflow e) (nodes e) (connections e)
    (selectedNode e) (selectedConnection e) (isDirty e) (isLoading e)
    (nodeTypes e) c (connectionsLayer e) (nodesLayer e).

Definition with_drag (dragging : bool) (start : option DragStart) (c : Canvas)
  : Canvas :=
  mkCanvas (scale c) (offsetX c) (offsetY c) dragging (isConnecting c)
    (connectionStart c) start (element c).

Definition with_connecting (connecting : bool) (start : option ConnectionStart)
  (c : Canvas) : Canvas :=
  mkCanvas (scale c) (offsetX c) (offsetY c) (isDragging c) connecting start
    (dragStart c) (element c).

Definition with_loading_overlay (o : option bool) (d : Dom) : Dom :=
  mkDom (csrf_meta d) (workflow_name_input d) (workflow_description_input d)
    (no_selection d) (node_properties d) (connection_properties d) o
    (execution_logs d) (node_elements d) (connection_elements d)
    (canvas_rect d) (handle_rect d) (query_selector d).

Definition with_node_elements (l : list string) (d : Dom) : Dom :=
  mkDom (csrf_meta d) (workflow_name_input d) (workflow_description_input d)
    (no_selection d) (node_properties d) (connection_properties d)
    (loading_overlay d) (execution_logs d) l (connection_elements d)
    (canvas_rect d) (handle_rect d) (query_selector d).

Definition with_connection_elements (m : JsMap string) (d : Dom) : Dom :=
  mkDom (csrf_meta d) (workflow_name_input d) (workflow_description_input d)
    (no_selection d) (node_properties d) (connection_properties d)
    (loading_overlay d) (execution_logs d) (node_elements d) m
    (canvas_rect d) (handle_rect d) (query_selector d).

(** [this.f = v] and the like, as steps of a method *)
Definition assign (f : Editor -> Editor) : M unit := modify_this f.

Definition assign_canvas (f : Canvas -> Canvas) : M unit :=
  modify_this (fun e => with_canvas (f (canvas e)) e).

(** Membership of an id among the elements of the document. *)
Definition has_element (i : string) (l : list string) : bool :=
  existsb (String.eqb i) l.

(** ** Events, as far as the handlers look at them *)

(** An element that can be the target of a mouse event: its classes, its
    [data-handle] attribute, and the [data-node-id] of the nearest enclosing
    [.workflow-node] element, [None] when it has no such ancestor.  Elements
    of class [workflow-node] are created by [renderNode] alone, which gives
    each one its [data-node-id]. *)
Record Element : Type := mkElement {
  classList : list string;
  dataset_handle : option string;
  closest_workflow_node : option string
}.

Record MouseEvent : Type := mkMouseEvent {
  clientX : num;
  clientY : num;
  ev_target : option Element
}.

(** A drop on the canvas: where, and the [text/plain] payload. *)
Record DropEvent : Type := mkDropEvent {
  drop_clientX : num;
  drop_clientY : num;
  drop_text : string
}.

Definition contains (c : string) (e : Element) : bool :=
  has_element c (classList e).

(** [querySelector] finds the first match, [remove] takes that one out. *)
Fixpoint remove_first (i : string) (l : list string) : list string :=
  match l with
  | [] => []
  | j :: rest => if j =? i then rest else j :: remove_first i rest
  end.

Section Methods.

(** [Number::toString], the conversion a template literal applies to a
    number.  It belongs to the JavaScript runtime. *)
Variable Number_toString : num -> string.

(** The string a template literal puts in place of [${v}]. *)
Fixpoint js_toString (v : jsval) : string :=
  match v with
  | JUndefined => "undefined"
  | JNull => "null"
  | JBool true => "true"
  | JBool false => "false"
  | JNum n => Number_toString n
  | JStr s => s
  | JArr items =>
      let element_string (a : jsval) : string :=
        match a with
        | JUndefined | JNull => ""
        | _ => js_toString a
        end in
      (fix join (l : list jsval) : string :=
         match l with
         | [] => ""
         | [a] => element_string a
         | a :: rest => element_string a ++ "," ++ join rest
         end) items
  | JObj _ => "[object Object]"
  end.

(** [null] and [undefined], on which reading a property throws. *)
Definition nullish (v : jsval) : bool :=
  match v with
  | JUndefined | JNull => true
  | _ => false
  end.

(** [v.k] on a value that is not nullish, for the data properties the editor
    reads ([id], [error], [status], ...): the property of an object,
    [undefined] where it is missing or where [v] is a primitive or an
    array. *)
Definition own_prop (v : jsval) (k : string) : jsval :=
  match v with
  | JObj ps => props_get k ps
  | _ => JUndefined
  end.

(** [v.k]: a [TypeError] on [null] and [undefined]. *)
Definition get_prop (v : jsval) (k : string) : M jsval :=
  if nullish v then throw TypeError else ret (own_prop v k).

(** [v[k] = x] in strict code (a class body is strict): a [TypeError] on
    [null], [undefined] and on primitives.  An array keeps its elements: a
    named property added to an array is not represented. *)
Definition set_prop (v : jsval) (k : string) (x : jsval) : M jsval :=
  match v with
  | JObj ps => ret (JObj (props_set k x ps))
  | JArr items => ret (JArr items)
  | JUndefined | JNull | JBool _ | JNum _ | JStr _ => throw TypeError
  end.

(** *** Small helpers of the class *)

(* markDirty: the flag; the save button's look is written, never read *)
Definition markDirty : M unit := assign (with_isDirty true).

(* generateId, given the characters [r] that
   Math.random().toString(36).substr(2, 9) yields *)
Definition generateId (r : string) : string := "node_" ++ r.

Definition getCsrfToken : M string :=
  d <- get_document ;;
  ret match csrf_meta d with
      | Some (Some content) => content
      | Some None | None => ""
      end.

Definition showLoading (message : string) : M unit :=
  d <- get_document ;;
  match loading_overlay d with
  | Some _ => modify_document (with_loading_overlay (Some true))
  | None => ret tt
  end.

Definition hideLoading : M unit :=
  d <- get_document ;;
  match loading_overlay d with
  | Some _ => modify_document (with_loading_overlay (Some false))
  | None => ret tt
  end.

Definition showNotification (message type : string) : M unit :=
  emit (ShowNotification message type).

Definition hideProperties : M unit :=
  d <- get_document ;;
  if negb (no_selection d) then throw TypeError
  else if negb (node_properties d) then throw TypeError
  else if negb (connection_properties d) then throw TypeError
  else ret tt.

(** *** Rendering *)

Definition renderNode (node : Node) : M unit :=
  d <- get_document ;;
  when (negb (has_element (node_id node) (node_elements d)))
    (e <- get_this ;;
     if nodesLayer e
     then modify_document
            (with_node_elements (node_elements d ++ [node_id node])%list)
     else throw TypeError).

Definition getNodeHandlePosition (node : Node) (handleType : string)
  : M Point.t :=
  d <- get_document ;;
  if negb (has_element (node_id node) (node_elements d))
  then ret (Point.mk 0%float 0%float)
  else
    e <- get_this ;;
    if negb (element (canvas e)) then throw TypeError
    else
      let canvasRect := canvas_rect d in
      match handle_rect d (node_id node) handleType with
      | None => ret (Point.mk 0%float 0%float)
      | Some handleRect =>
          ret (Point.mk
                 (Rect.left handleRect + Rect.width handleRect / 2
                  - Rect.left canvasRect)%float
                 (Rect.top handleRect + Rect.height handleRect / 2
                  - Rect.top canvasRect)%float)
      end.

Definition createConnectionPath (start end_ : Point.t) : string :=
  let dx := (Point.x end_ - Point.x start)%float in
  let controlOffset := (Math_max 50 (Math_abs dx * 0.5))%float in
  "M " ++ Number_toString (Point.x start) ++ " "
       ++ Number_toString (Point.y start)
  ++ " C " ++ Number_toString (Point.x start + controlOffset)%float ++ " "
           ++ Number_toString (Point.y start)
  ++ ", " ++ Number_toString (Point.x end_ - controlOffset)%float ++ " "
          ++ Number_toString (Point.y end_)
  ++ ", " ++ Number_toString (Point.x end_) ++ " "
          ++ Number_toString (Point.y end_).

Definition renderConnection (connection : Connection) : M unit :=
  e <- get_this ;;
  match map_get (source connection) (nodes e),
        map_get (target connection) (nodes e) with
  | Some sourceNode, Some targetNode =>
      sourcePos <- getNodeHandlePosition sourceNode "output" ;;
      targetPos <- getNodeHandlePosition targetNode "input" ;;
      if negb (connectionsLayer e) then throw TypeError
      else
        let path := createConnectionPath sourcePos targetPos in
        modify_document
          (fun d => with_connection_elements
                      (map_set (conn_id connection) path
                         (connection_elements d)) d)
  | _, _ => ret tt
  end.

(** *** Editing the graph *)

Definition addNode (r : string) (nodeType : NodeType) (position : Point.t)
  : M string :=
  let nodeId := generateId r in
  let node := mkNode nodeId (nt_name nodeType) (nt_display_name nodeType)
                position (Some []) (Some "pending") in
  assign (fun e => with_nodes (map_set nodeId node (nodes e)) e) ;;
  renderNode node ;;
  markDirty ;;
  ret nodeId.

Definition onDrop (r : string) (ev : DropEvent) : M unit :=
  e <- get_this ;;
  match map_get (drop_text ev) (nodeTypes e) with
  | None => ret tt
  | Some nodeType =>
      if negb (element (canvas e)) then throw TypeError
      else
        d <- get_document ;;
        let rect := canvas_rect d in
        let px := (drop_clientX ev - Rect.left rect)%float in
        let py := (drop_clientY ev - Rect.top rect)%float in
        _ <- addNode r nodeType (Point.mk px py) ;;
        ret tt
  end.

Definition updateNodeProperty (nodeId property value : string) : M unit :=
  e <- get_this ;;
  match map_get nodeId (nodes e) with
  | None => ret tt
  | Some node =>
      let node' :=
        if property =? "name"
        then mkNode (node_id node) (node_type node) value
               (node_position node) (node_config node) (node_status node)
        else
          let config := match node_config node with
                        | Some c => c
                        | None => []
                        end in
          mkNode (node_id node) (node_type node) (node_name node)
            (node_position node)
            (Some (props_set property (JStr value) config))
            (node_status node) in
      assign (fun e => with_nodes (map_set nodeId node' (nodes e)) e) ;;
      renderNode node' ;;
      markDirty
  end.

(** The workflow object a first property edit creates. *)
Definition untitled_workflow : jsval :=
  JObj [ ("name", JStr "Untitled Workflow");
         ("description", JStr "");
         ("definition", JObj [("nodes", JArr []); ("connections", JArr [])]) ].

Definition updateWorkflowProperty (property : string) (value : jsval)
  : M unit :=
  e <- get_this ;;
  when (negb (truthy (workflow e))) (assign (with_workflow untitled_workflow)) ;;
  e <- get_this ;;
  workflow' <- set_prop (workflow e) property value ;;
  assign (with_workflow workflow') ;;
  markDirty.

(** *** Dragging a node *)

Definition startNodeDrag (ev : MouseEvent) (nodeId : string) : M unit :=
  assign_canvas
    (with_drag true (Some (mkDragStart (clientX ev) (clientY ev) nodeId))).

Definition onNodeDrag (ev : MouseEvent) : M unit :=
  e <- get_this ;;
  match isDragging (canvas e), dragStart (canvas e) with
  | true, Some start =>
      let dx := (clientX ev - ds_x start)%float in
      let dy := (clientY ev - ds_y start)%float in
      match map_get (ds_nodeId start) (nodes e) with
      | Some node =>
          let node' :=
            mkNode (node_id node) (node_type node) (node_name node)
              (Point.mk (Point.x (node_position node) + dx)%float
                        (Point.y (node_position node) + dy)%float)
              (node_config node) (node_status node) in
          assign (fun e => with_nodes
                             (map_set (ds_nodeId start) node' (nodes e)) e) ;;
          renderNode node'
      | None => ret tt
      end ;;
      assign_canvas
        (fun c => with_drag (isDragging c)
                    (Some (mkDragStart (clientX ev) (clientY ev)
                             (ds_nodeId start))) c)
  | _, _ => ret tt
  end.

Definition onNodeDragEnd (ev : MouseEvent) : M unit :=
  assign_canvas (with_drag false None) ;;
  markDirty.

(** *** Drawing a connection *)

Definition addConnection (r : string) (sourceNodeId : string)
  (sourceHandle : option string) (targetNodeId : string)
  (targetHandle : option string) : M unit :=
  let connectionId := generateId r in
  let connection := mkConnection connectionId sourceNodeId sourceHandle
                      targetNodeId targetHandle in
  assign (fun e => with_connections
                     (map_set connectionId connection (connections e)) e) ;;
  renderConnection connection ;;
  markDirty.

Definition startConnection (ev : MouseEvent) (nodeId : string)
  (handle : option string) (isOutput : bool) : M unit :=
  if negb isOutput then ret tt
  else
    assign_canvas
      (with_connecting true (Some (mkConnectionStart nodeId handle))).

(** The listener [renderNode] puts on each handle of the element of
    [node]: mouse-down on the handle element [handle]. *)
Definition handle_mousedown (ev : MouseEvent) (node : Node)
  (handle : Element) : M unit :=
  startConnection ev (node_id node) (dataset_handle handle)
    (contains "output" handle).

(** [r] is the random draw for the id of the connection, should one be
    added. *)
Definition onConnectionEnd (r : string) (ev : MouseEvent) : M unit :=
  e <- get_this ;;
  if negb (isConnecting (canvas e)) then ret tt
  else
    match ev_target ev with
    | Some target_ =>
        when (contains "node-handle" target_ && contains "input" target_)
          match closest_workflow_node target_ with
          | None => throw TypeError
          | Some targetNodeId =>
              let targetHandle := dataset_handle target_ in
              match connectionStart (canvas e) with
              | None => throw TypeError
              | Some start =>
                  when (negb (targetNodeId =? cs_nodeId start))
                    (addConnection r (cs_nodeId start) (cs_handle start)
                       targetNodeId targetHandle)
              end
          end
    | None => ret tt
    end ;;
    assign_canvas (with_connecting false None).

(** *** Selection and deletion *)

Definition selectConnection (connectionId : string) : M unit :=
  assign (with_selectedConnection (Some connectionId)) ;;
  assign (with_selectedNode None).

Definition clearSelection : M unit :=
  assign (with_selectedNode None) ;;
  assign (with_selectedConnection None) ;;
  hideProperties.

Definition deleteConnection (connectionId : string) : M unit :=
  assign (fun e => with_connections
                     (map_delete connectionId (connections e)) e) ;;
  modify_document
    (fun d => with_connection_elements
                (map_delete connectionId (connection_elements d)) d) ;;
  markDirty.

(** Whether [connection.source === nodeId || connection.target === nodeId]. *)
Definition incident (nodeId : string) (connection : Connection) : bool :=
  (source connection =? nodeId) || (target connection =? nodeId).

Definition deleteNode (nodeId : string) : M unit :=
  e <- get_this ;;
  let connectionsToRemove :=
    map fst (filter (fun entry => incident nodeId (snd entry))
               (connections e)) in
  forEach connectionsToRemove deleteConnection ;;
  assign (fun e => with_nodes (map_delete nodeId (nodes e)) e) ;;
  modify_document
    (fun d => with_node_elements (remove_first nodeId (node_elements d)) d) ;;
  assign (with_selectedNode None) ;;
  hideProperties ;;
  markDirty.

(** *** Talking to the backend *)

Definition getWorkflowData : M WorkflowData :=
  e <- get_this ;;
  d <- get_document ;;
  let nodes_ :=
    map (fun node =>
           mkNodeData (node_id node) (node_type node) (node_name node)
             (node_position node)
             match node_config node with Some c => c | None => [] end)
        (map_values (nodes e)) in
  let connections_ :=
    map (fun connection =>
           mkConnection (conn_id connection) (source connection)
             (sourceHandle connection) (target connection)
             (targetHandle connection))
        (map_values (connections e)) in
  ret (mkWorkflowData
         match workflow_name_input d with
         | Some v => if v =? "" then "Untitled Workflow" else v
         | None => "Untitled Workflow"
         end
         match workflow_description_input d with
         | Some v => v
         | None => ""
         end
         nodes_ connections_).

(** The stretch of a [try] block that ends at an [await]: if it completes,
    the method is suspended there ([Some]); if it throws, [catch] and
    [finally] run and the method is over ([None]). *)
Definition try_until_await {A} (segment : M A) (handler : Exn -> M unit)
  (fin : M unit) : M (option A) :=
  fun w =>
    match segment w with
    | (Normal a, w1) => (Normal (Some a), w1)
    | (Throw e, w1) =>
        match try_catch_finally (throw e) handler fin w1 with
        | (Normal _, w2) => (Normal None, w2)
        | (Throw e', w2) => (Throw e', w2)
        end
    end.

(** How the promise of [fetch] settles: rejected, or fulfilled with a
    response whose [ok] flag is given. *)
Inductive FetchSettled : Type :=
| Rejected
| Fulfilled (ok : bool).

(** How the promise of [response.json()] settles: fulfilled with the parsed
    body, or rejected ([None]) because the body is not JSON. *)
Definition JsonSettled := option jsval.

(** Where a suspended call of one of the three [async] methods waits. *)
Inductive Await : Type :=
| AwaitFetch
| AwaitJson (ok : bool).

Definition after_fetch (settled : FetchSettled) : M Await :=
  match settled with
  | Rejected => throw NetworkError
  | Fulfilled ok => ret (AwaitJson ok)
  end.

Definition after_json (settled : JsonSettled) : M jsval :=
  match settled with
  | None => throw SyntaxError
  | Some result => ret result
  end.

(** **** saveWorkflow *)

Definition saveWorkflow_catch (error : Exn) : M unit :=
  emit (ConsoleError "Save error:" error) ;;
  showNotification "Failed to save workflow" "error".

Definition saveWorkflow_finally : M unit :=
  assign (with_isLoading false) ;;
  hideLoading.

(* from the call to the first await *)
Definition saveWorkflow : M (option Await) :=
  e <- get_this ;;
  if isLoading e then ret None
  else
    assign (with_isLoading true) ;;
    showLoading "Saving workflow..." ;;
    try_until_await
      (workflowData <- getWorkflowData ;;
       e <- get_this ;;
       let url := if truthy (options_workflowId e)
                  then "/api/workflows/"
                       ++ js_toString (options_workflowId e) ++ "/"
                  else "/api/workflows/" in
       let method := if truthy (options_workflowId e)
                     then "PUT" else "POST" in
       token <- getCsrfToken ;;
       emit (Fetch (mkRequest url method
                      [("Content-Type", "application/json");
                       ("X-CSRFToken", token)]
                      "same-origin"
                      (Some (WorkflowBody workflowData)))) ;;
       ret AwaitFetch)
      saveWorkflow_catch saveWorkflow_finally.

(* from the first await to the second *)
Definition saveWorkflow_fetched (settled : FetchSettled) : M (option Await) :=
  try_until_await (after_fetch settled)
    saveWorkflow_catch saveWorkflow_finally.

(* from the second await to the end *)
Definition saveWorkflow_parsed (ok : bool) (settled : JsonSettled) : M unit :=
  try_catch_finally
    (result <- after_json settled ;;
     if ok then
       assign (with_workflow result) ;;
       id_ <- get_prop result "id" ;;
       assign (with_workflowId id_) ;;
       assign (with_isDirty false) ;;
       showNotification "Workflow saved successfully" "success" ;;
       e <- get_this ;;
       when (negb (truthy (options_workflowId e)))
         (id_ <- get_prop result "id" ;;
          emit (ReplaceState ("/workflows/" ++ js_toString id_ ++ "/edit/")))
     else
       error <- get_prop result "error" ;;
       throw (Error (js_toString
                       (js_or error (JStr "Failed to save workflow")))))
    saveWorkflow_catch saveWorkflow_finally.

(** **** testWorkflow *)

(** The selector [[data-node-id="i"]]. *)
Definition double_quote : string := String "034"%char EmptyString.

Definition node_selector (i : string) : string :=
  "[data-node-id=" ++ double_quote ++ i ++ double_quote ++ "]".

(** [document.querySelector(selector)]: the kind of the element found, if
    any, and a [DOMException] on a string that is no selector. *)
Definition querySelector (selector : string) : M (option ElementKind) :=
  d <- get_document ;;
  match query_selector d selector with
  | NotASelector => throw DOMSyntaxError
  | NoMatch => ret None
  | Match kind => ret (Some kind)
  end.

(** The markup goes to [innerHTML], which is written and not read back; the
    reads that build it are kept in their order, and so is the lookup of
    the element of each executed node.  The element found has its
    [className] rewritten with [className.replace], which is there when the
    [className] is a string and not on an SVG element. *)
Definition showTestResults (result : jsval) : M unit :=
  d <- get_document ;;
  if negb (execution_logs d) then ret tt
  else
    _ <- get_prop result "status" ;;
    _ <- get_prop result "duration_seconds" ;;
    node_executions <- get_prop result "node_executions" ;;
    when (truthy node_executions)
      match node_executions with
      | JArr items =>
          forEach items
            (fun nodeExec =>
               _ <- get_prop nodeExec "status" ;;
               _ <- get_prop nodeExec "node_name" ;;
               _ <- get_prop nodeExec "duration_ms" ;;
               node_id <- get_prop nodeExec "node_id" ;;
               nodeElement <-
                 querySelector (node_selector (js_toString node_id)) ;;
               match nodeElement with
               | Some SVGElement => throw TypeError
               | Some HTMLElement | None => ret tt
               end)
      | _ => throw TypeError
      end.

Definition testWorkflow_catch (error : Exn) : M unit :=
  emit (ConsoleError "Test error:" error) ;;
  showNotification "Workflow test failed" "error".

Definition testWorkflow : M (option Await) :=
  e <- get_this ;;
  if negb (truthy (options_workflowId e)) then
    showNotification "Please save the workflow first" "warning" ;;
    ret None
  else
    showLoading "Testing workflow..." ;;
    try_until_await
      (e <- get_this ;;
       token <- getCsrfToken ;;
       emit (Fetch (mkRequest
                      ("/api/workflows/"
                       ++ js_toString (options_workflowId e) ++ "/test/")
                      "POST"
                      [("Content-Type", "application/json");
                       ("X-CSRFToken", token)]
                      "same-origin"
                      (Some TestBody))) ;;
       ret AwaitFetch)
      testWorkflow_catch hideLoading.

Definition testWorkflow_fetched (settled : FetchSettled) : M (option Await) :=
  try_until_await (after_fetch settled) testWorkflow_catch hideLoading.

Definition testWorkflow_parsed (ok : bool) (settled : JsonSettled) : M unit :=
  try_catch_finally
    (result <- after_json settled ;;
     if ok then
       showTestResults result ;;
       showNotification "Workflow test completed" "success"
     else
       error <- get_prop result "error" ;;
       throw (Error (js_toString (js_or error (JStr "Test failed")))))
    testWorkflow_catch hideLoading.

(** **** deployWorkflow; [confirmed] is the answer to the [confirm] dialog,
    which is asked only when a workflow id is set *)

Definition deployWorkflow_catch (error : Exn) : M unit :=
  emit (ConsoleError "Deploy error:" error) ;;
  showNotification "Failed to deploy workflow" "error".

Definition deployWorkflow (confirmed : bool) : M (option Await) :=
  e <- get_this ;;
  if negb (truthy (options_workflowId e)) then
    showNotification "Please save the workflow first" "warning" ;;
    ret None
  else if confirmed then
    try_until_await
      (e <- get_this ;;
       token <- getCsrfToken ;;
       emit (Fetch (mkRequest
                      ("/api/workflows/"
                       ++ js_toString (options_workflowId e) ++ "/activate/")
                      "POST"
                      [("X-CSRFToken", token)]
                      "same-origin"
                      None)) ;;
       ret AwaitFetch)
      deployWorkflow_catch (ret tt)
  else ret None.

Definition deployWorkflow_fetched (settled : FetchSettled)
  : M (option Await) :=
  try_until_await (after_fetch settled) deployWorkflow_catch (ret tt).

Definition deployWorkflow_parsed (ok : bool) (settled : JsonSettled)
  : M unit :=
  try_catch_finally
    (result <- after_json settled ;;
     if ok then
       e <- get_this ;;
       workflow' <- set_prop (workflow e) "status" (JStr "active") ;;
       assign (with_workflow workflow') ;;
       showNotification "Workflow deployed successfully" "success"
     else
       error <- get_prop result "error" ;;
       throw (Error (js_toString (js_or error (JStr "Deploy failed")))))
    deployWorkflow_catch (ret tt).

(** ** The page as a whole: handlers and suspended calls

    Between two awaits of an [async] method any other handler may run.  A
    state of the page is a world together with the calls that are
    suspended at an await; an event either invokes a handler, calls one
    of the three [async] methods, or settles the promise one suspended
    call waits for. *)

Inductive Op : Type :=
| OpAddNode (r : string) (nodeType : NodeType) (position : Point.t)
| OpOnDrop (r : string) (ev : DropEvent)
| OpUpdateNodeProperty (nodeId property value : string)
| OpUpdateWorkflowProperty (property : string) (value : jsval)
| OpStartNodeDrag (ev : MouseEvent) (nodeId : string)
| OpOnNodeDrag (ev : MouseEvent)
| OpOnNodeDragEnd (ev : MouseEvent)
| OpAddConnection (r : string) (sourceNodeId : string)
    (sourceHandle : option string) (targetNodeId : string)
    (targetHandle : option string)
| OpStartConnection (ev : MouseEvent) (nodeId : string)
    (handle : option string) (isOutput : bool)
| OpHandleMouseDown (ev : MouseEvent) (node : Node) (handle : Element)
| OpOnConnectionEnd (r : string) (ev : MouseEvent)
| OpSelectConnection (connectionId : string)
| OpClearSelection
| OpDeleteConnection (connectionId : string)
| OpDeleteNode (nodeId : string).

Definition run_op (op : Op) : M unit :=
  match op with
  | OpAddNode r nodeType position => _ <- addNode r nodeType position ;; ret tt
  | OpOnDrop r ev => onDrop r ev
  | OpUpdateNodeProperty nodeId property value =>
      updateNodeProperty nodeId property value
  | OpUpdateWorkflowProperty property value =>
      updateWorkflowProperty property value
  | OpStartNodeDrag ev nodeId => startNodeDrag ev nodeId
  | OpOnNodeDrag ev => onNodeDrag ev
  | OpOnNodeDragEnd ev => onNodeDragEnd ev
  | OpAddConnection r s sh t th => addConnection r s sh t th
  | OpStartConnection ev nodeId handle isOutput =>
      startConnection ev nodeId handle isOutput
  | OpHandleMouseDown ev node handle => handle_mousedown ev node handle
  | OpOnConnectionEnd r ev => onConnectionEnd r ev
  | OpSelectConnection connectionId => selectConnection connectionId
  | OpClearSelection => clearSelection
  | OpDeleteConnection connectionId => deleteConnection connectionId
  | OpDeleteNode nodeId => deleteNode nodeId
  end.

Inductive Method : Type := Save | Test | Deploy.

Record Task : Type := mkTask { task_method : Method; task_await : Await }.

Record Page : Type := mkPage { world : World; tasks : list Task }.

Definition called (m : Method) (confirmed : bool) : M (option Await) :=
  match m with
  | Save => saveWorkflow
  | Test => testWorkflow
  | Deploy => deployWorkflow confirmed
  end.

Definition fetched (m : Method) (settled : FetchSettled) : M (option Await) :=
  match m with
  | Save => saveWorkflow_fetched settled
  | Test => testWorkflow_fetched settled
  | Deploy => deployWorkflow_fetched settled
  end.

Definition parsed (m : Method) (ok : bool) (settled : JsonSettled) : M unit :=
  match m with
  | Save => saveWorkflow_parsed ok settled
  | Test => testWorkflow_parsed ok settled
  | Deploy => deployWorkflow_parsed ok settled
  end.

(** [confirmed] matters to [Deploy] alone.  [i] is the position of the
    suspended call among the tasks. *)
Inductive Event : Type :=
| Invoke (op : Op)
| Call (m : Method) (confirmed : bool)
| FetchSettles (i : nat) (settled : FetchSettled)
| JsonSettles (i : nat) (settled : JsonSettled).

Fixpoint remove_nth {A} (i : nat) (l : list A) : list A :=
  match l, i with
  | [], _ => []
  | _ :: rest, O => rest
  | a :: rest, S j => a :: remove_nth j rest
  end.

Fixpoint replace_nth {A} (i : nat) (b : A) (l : list A) : list A :=
  match l, i with
  | [], _ => []
  | _ :: rest, O => b :: rest
  | a :: rest, S j => a :: replace_nth j b rest
  end.

(** An event that settles nothing that is waited for changes nothing. *)
Definition page_step (ev : Event) (p : Page) : Page :=
  match ev with
  | Invoke op => mkPage (snd (run_op op (world p))) (tasks p)
  | Call m confirmed =>
      match called m confirmed (world p) with
      | (Normal (Some a), w') => mkPage w' (tasks p ++ [mkTask m a])%list
      | (_, w') => mkPage w' (tasks p)
      end
  | FetchSettles i settled =>
      match nth_error (tasks p) i with
      | Some (mkTask m AwaitFetch) =>
          match fetched m settled (world p) with
          | (Normal (Some a), w') =>
              mkPage w' (replace_nth i (mkTask m a) (tasks p))
          | (_, w') => mkPage w' (remove_nth i (tasks p))
          end
      | _ => p
      end
  | JsonSettles i settled =>
      match nth_error (tasks p) i with
      | Some (mkTask m (AwaitJson ok)) =>
          mkPage (snd (parsed m ok settled (world p)))
            (remove_nth i (tasks p))
      | _ => p
      end
  end.

Definition page_run (evs : list Event) (p : Page) : Page :=
  fold_left (fun q ev => page_step ev q) evs p.

Definition is_save (t : Task) : bool :=
  match task_method t with Save => true | _ => false end.

(** The save requests in flight: the suspended calls of [saveWorkflow]. *)
Definition saves_in_flight (p : Page) : nat :=
  List.length (filter is_save (tasks p)).

(** The requests among the effects. *)
Definition requests (l : list Effect) : list Request :=
  flat_map (fun e => match e with Fetch r => [r] | _ => [] end) l.


(** ** The specification's wording of the connection path

    The control-point offset [c = max(50, 0.5 * |end.x - start.x|)], and the
    path string written with it. *)

Definition control_offset (start end_ : Point.t) : num :=
  (Math_max 50 (0.5 * Math_abs (Point.x end_ - Point.x start)))%float.

Definition bezier_path (start end_ : Point.t) (c : num) : string :=
  "M " ++ Number_toString (Point.x start) ++ " "
       ++ Number_toString (Point.y start)
  ++ " C " ++ Number_toString (Point.x start + c)%float ++ " "
           ++ Number_toString (Point.y start)
  ++ ", " ++ Number_toString (Point.x end_ - c)%float ++ " "
          ++ Number_toString (Point.y end_)
  ++ ", " ++ Number_toString (Point.x end_) ++ " "
          ++ Number_toString (Point.y end_).

(** ** A small page to run the methods on

    Three nodes [a], [b], [c] with connections [a -> b] and [b -> c], on a
    page that has every element the editor looks up. *)

Definition sample_node (i : string) : Node :=
  mkNode i "log" "Log Message" (Point.mk 10 20) (Some []) (Some "pending").

Definition sample_canvas : Canvas :=
  mkCanvas 1 0 0 false false None None true.

Definition sample_editor : Editor :=
  mkEditor JNull JNull
    [("a", sample_node "a"); ("b", sample_node "b"); ("c", sample_node "c")]
    [("c1", mkConnection "c1" "a" (Some "output") "b" (Some "input"));
     ("c2", mkConnection "c2" "b" (Some "output") "c" (Some "input"))]
    None None false false
    [("log", mkNodeType "log" "Log Message")]
    sample_canvas true true.

(** A stand-in for [querySelector] on the sample pages: it refuses a
    string with more than two double quotes, as an attribute selector
    [[data-node-id="..."]] is when its value holds one, and finds an HTML
    element for any other string. *)
Definition sample_query_selector (selector : string) : Queried :=
  if (List.length
        (filter (Ascii.eqb "034"%char) (list_ascii_of_string selector))
      <=? 2)%nat
  then Match HTMLElement else NotASelector.

Definition sample_dom : Dom :=
  mkDom (Some (Some "token")) (Some "Orders") (Some "") true true true
    (Some false) true ["a"; "b"; "c"] [("c1", ""); ("c2", "")]
    (Rect.mk 0 0 800 600) (fun _ _ => None) sample_query_selector.

Definition sample_world : World := mkWorld sample_editor sample_dom [].

(** A page without the properties panel and without the layers. *)
Definition bare_dom : Dom :=
  mkDom None None None false false false None false [] []
    (Rect.mk 0 0 0 0) (fun _ _ => None) sample_query_selector.

(** ** Relations between the world before and after a method *)

Definition same_isLoading (w w' : World) : Prop :=
  isLoading (this w') = isLoading (this w).

Definition stays_dirty (w w' : World) : Prop :=
  isDirty (this w) = true -> isDirty (this w') = true.

Definition no_new_request (w w' : World) : Prop :=
  requests (effects w') = requests (effects w).

Definition same_connections (w w' : World) : Prop :=
  connections (this w') = connections (this w).

(** The state a save is to persist, and what it records about itself. *)
Definition same_saved_state (w w' : World) : Prop :=
  nodes (this w') = nodes (this w)
  /\ connections (this w') = connections (this w)
  /\ workflow (this w') = workflow (this w)
  /\ options_workflowId (this w') = options_workflowId (this w)
  /\ isDirty (this w') = isDirty (this w).

(** The busy flag tells whether a save is in flight. *)
Definition loading_matches_saves (p : Page) : Prop :=
  saves_in_flight p = if isLoading (this (world p)) then 1 else 0.

(** What a failed save leaves: the editor as it was but for [isLoading],
    which is false; and two more effects, the console line and the error
    notification, neither of them a request. *)
Definition failed_save_outcome (error : Exn) (w w' : World) : Prop :=
  this w' = with_isLoading false (this w)
  /\ same_saved_state w w'
  /\ isLoading (this w') = false
  /\ effects w'
     = (effects w ++ [ConsoleError "Save error:" error;
                      ShowNotification "Failed to save workflow" "error"])%list
  /\ requests (effects w') = requests (effects w).

(** Suspended calls weigh one if they are saves. *)
Definition save_weight (t : Task) : nat := if is_save t then 1 else 0.

(** [preserves R m]: the world after [m], however [m] completes, is related
    by [R] to the world before. *)
Definition preserves {A} (R : World -> World -> Prop) (m : M A) : Prop :=
  forall w, R w (snd (m w)).

(** ** The editor on its page

    The page template is not part of the script.  The methods dereference a
    few of its elements without a guard: the two layers and the canvas when
    they render, the three sections of the properties panel when they hide
    it.  [page_ready] says that [setupDOM] found the layers and the canvas
    and that the panel is there. *)
Definition page_ready (w : World) : Prop :=
  nodesLayer (this w) = true
  /\ connectionsLayer (this w) = true
  /\ element (canvas (this w)) = true
  /\ no_selection (document w) = true
  /\ node_properties (document w) = true
  /\ connection_properties (document w) = true.

(** [this.workflow] holds nothing (a falsy value) or an object: what the
    constructor, a first property edit and a saved workflow object give. *)
Definition workflow_unset_or_object (w : World) : Prop :=
  truthy (workflow (this w)) = false
  \/ exists props, workflow (this w) = JObj props.

(** The operations the specification calls mutating; [updateNodeProperty]
    counts when the node exists. *)
Definition mutation (op : Op) (w : World) : Prop :=
  match op with
  | OpAddNode _ _ _ | OpAddConnection _ _ _ _ _ | OpDeleteNode _
  | OpDeleteConnection _ | OpOnNodeDragEnd _
  | OpUpdateWorkflowProperty _ _ => True
  | OpUpdateNodeProperty nodeId _ _ => map_get nodeId (nodes (this w)) <> None
  | _ => False
  end.

(** ** The request of a save, and the world after a successful one *)

(** The content of the CSRF meta tag, or the empty string. *)
Definition csrf_token (d : Dom) : string :=
  match csrf_meta d with
  | Some (Some content) => content
  | Some None | None => ""
  end.

(** POST to the collection when no id is set, PUT to the workflow's own URL
    when one is. *)
Definition save_request (id_ : jsval) (token : string) (data : WorkflowData)
  : Request :=
  mkRequest
    (if truthy id_ then "/api/workflows/" ++ js_toString id_ ++ "/"
     else "/api/workflows/")
    (if truthy id_ then "PUT" else "POST")
    [("Content-Type", "application/json"); ("X-CSRFToken", token)]
    "same-origin"
    (Some (WorkflowBody data)).

(** The effects of the last stretch of a save whose response is OK and
    carries [result]: the success notification, and a rewrite of the
    location when the id of [result] is falsy. *)
Definition saved_effects (result : jsval) : list Effect :=
  ShowNotification "Workflow saved successfully" "success"
  :: (if truthy (own_prop result "id") then []
      else [ReplaceState
              ("/workflows/" ++ js_toString (own_prop result "id")
               ++ "/edit/")]).

Definition saved_editor (result : jsval) (e : Editor) : Editor :=
  with_isLoading false
    (with_isDirty false
       (with_workflowId (own_prop result "id") (with_workflow result e))).

(** ** Requests of a test and of a deployment *)

Definition test_request (id_ : jsval) (token : string) : Request :=
  mkRequest ("/api/workflows/" ++ js_toString id_ ++ "/test/") "POST"
    [("Content-Type", "application/json"); ("X-CSRFToken", token)]
    "same-origin" (Some TestBody).

Definition activate_request (id_ : jsval) (token : string) : Request :=
  mkRequest ("/api/workflows/" ++ js_toString id_ ++ "/activate/") "POST"
    [("X-CSRFToken", token)] "same-origin" None.

Definition save_first_warning : Effect :=
  ShowNotification "Please save the workflow first" "warning".

(** The sample page with a saved workflow: [options.workflowId] is ["42"]
    and [this.workflow] is the object the server returned. *)
Definition saved_workflow : jsval :=
  JObj [("id", JStr "42"); ("name", JStr "Orders"); ("status", JStr "draft")].

Definition saved_world : World :=
  mkWorld (with_workflowId (JStr "42") (with_workflow saved_workflow sample_editor))
    sample_dom [].

(** The sample editor, dirty, in the middle of a save. *)
Definition saving_world : World :=
  mkWorld (with_isLoading true (with_isDirty true sample_editor)) sample_dom [].

(** The samples print no number: any conversion will do for them. *)
Definition Number_toString_unused (n : num) : string := "".

(** * More of the class: zoom, loading, the palette and the node labels *)

Set Warnings "-inexact-float".

(** ** Zoom *)









(** ** Loading a saved definition *)

(** [options.workflowData]: its [nodes] and [connections] arrays, each of
    which may be missing. *)
Record WorkflowSource : Type := mkWorkflowSource {
  src_nodes : option (list Node);
  src_connections : option (list Connection)
}.

(** [loadWorkflow], given [this.options.workflowData] ([None] when it is
    [null] or [undefined]). *)
Definition loadWorkflow (workflowData : option WorkflowSource) : M unit :=
  match workflowData with
  | Some data =>
      match src_nodes data with
      | Some nodes_ =>
          forEach nodes_
            (fun nodeData =>
               assign (fun e => with_nodes
                                  (map_set (node_id nodeData) nodeData
                                     (nodes e)) e) ;;
               renderNode nodeData) ;;
          match src_connections data with
          | Some connections_ =>
              forEach connections_
                (fun connectionData =>
                   assign (fun e => with_connections
                                      (map_set (conn_id connectionData)
                                         connectionData (connections e)) e) ;;
                   renderConnection connectionData)
          | None => ret tt
          end
      | None => ret tt
      end
  | None => ret tt
  end.

(** The entry [getWorkflowData] makes of a node. *)
Definition node_data (node : Node) : NodeData :=
  mkNodeData (node_id node) (node_type node) (node_name node)
    (node_position node)
    match node_config node with Some c => c | None => [] end.

(** ** The one-line description of a node *)

(** An array index: the canonical decimal numeral of an integer below
    2^32 - 1.  [Object.keys] lists such keys first, in ascending order, and
    the other keys after them in the order of their creation. *)
Definition digit_of (c : ascii) : option N :=
  let n := N_of_ascii c in
  if ((48 <=? n) && (n <=? 57))%N then Some (n - 48)%N else None.

Fixpoint digits_value (s : string) (acc : N) : option N :=
  match s with
  | EmptyString => Some acc
  | String c rest =>
      match digit_of c with
      | Some d => digits_value rest (10 * acc + d)%N
      | None => None
      end
  end.

Definition array_index (s : string) : option N :=
  match s with
  | EmptyString => None
  | String c rest =>
      if (c =? "0")%char
      then match rest with EmptyString => Some 0%N | _ => None end
      else match digits_value s 0 with
           | Some n => if (n <? 4294967295)%N then Some n else None
           | None => None
           end
  end.

Fixpoint insert_index (e : N * string) (l : list (N * string))
  : list (N * string) :=
  match l with
  | [] => [e]
  | h :: t => if (fst e <? fst h)%N then e :: l else h :: insert_index e t
  end.

Fixpoint index_keys (ks : list string) : list (N * string) :=
  match ks with
  | [] => []
  | k :: rest =>
      match array_index k with
      | Some n => insert_index (n, k) (index_keys rest)
      | None => index_keys rest
      end
  end.

Definition named_keys (ks : list string) : list string :=
  filter (fun k => match array_index k with Some _ => false | None => true end)
    ks.

(** [Object.keys(o)] for an object with the properties [ps]. *)
Definition object_keys (ps : list (string * jsval)) : list string :=
  (map snd (index_keys (map fst ps)) ++ named_keys (map fst ps))%list.

Definition getNodeDescription (node : Node) : string :=
  let config := match node_config node with Some c => c | None => [] end in
  match object_keys config with
  | firstKey :: _ =>
      let value := props_get firstKey config in
      firstKey ++ ": " ++ js_prefix 30 (js_toString value)
      ++ (if (30 <? js_length (js_toString value))%nat then "..." else "")
  | [] => "Click to configure"
  end.

(** ** Grouping the palette *)

(** The properties every object inherits from [Object.prototype]. *)
Definition object_prototype_names : list string :=
  ["constructor"; "hasOwnProperty"; "isPrototypeOf"; "propertyIsEnumerable";
   "toLocaleString"; "toString"; "valueOf"; "__proto__";
   "__defineGetter__"; "__defineSetter__"; "__lookupGetter__";
   "__lookupSetter__"].

(** [categories[key].push(x)], after [categories[key] = []] where the object
    has no such property yet. *)
Fixpoint push_into {T : Type} (key : string) (x : T)
  (categories : list (string * list T)) : list (string * list T) :=
  match categories with
  | [] => [(key, [x])]
  | (k, group) :: rest =>
      if k =? key then (k, (group ++ [x])%list) :: rest
      else (k, group) :: push_into key x rest
  end.

(** The property key [nodeType.category || 'other'] selects. *)
Definition category_key {T : Type} (category : T -> jsval) (nodeType : T)
  : string :=
  js_toString (js_or (category nodeType) (JStr "other")).

(** [groupNodesByCategory] over the node types of [this.nodeTypes], given
    how to read the [category] of one.  A category that names a property of
    [Object.prototype] finds that property instead of a group: it is truthy,
    so no group is created, and it has no [push]. *)
Fixpoint group_from {T : Type} (category : T -> jsval) (nodeTypes : list T)
  (categories : list (string * list T))
  : Completion (list (string * list T)) :=
  match nodeTypes with
  | [] => Normal categories
  | nodeType :: rest =>
      let key := category_key category nodeType in
      if has_element key object_prototype_names then Throw TypeError
      else group_from category rest (push_into key nodeType categories)
  end.

Definition groupNodesByCategory {T : Type} (category : T -> jsval)
  (nodeTypes : JsMap T) : Completion (list (string * list T)) :=
  group_from category (map_values nodeTypes) [].

(** The group stored under [key], empty when there is none. *)
Fixpoint group_of {T : Type} (key : string)
  (categories : list (string * list T)) : list T :=
  match categories with
  | [] => []
  | (k, group) :: rest => if k =? key then group else group_of key rest
  end.

(** The node [updateNodeProperty] puts in place of [node]. *)
Definition edited_node (property value : string) (node : Node) : Node :=
  if property =? "name"
  then mkNode (node_id node) (node_type node) value (node_position node)
         (node_config node) (node_status node)
  else mkNode (node_id node) (node_type node) (node_name node)
         (node_position node)
         (Some (props_set property (JStr value)
                  match node_config node with
                  | Some c => c
                  | None => []
                  end))
         (node_status node).

(** The node [onNodeDrag] puts in place of [node] after a move by
    [(dx, dy)]. *)
Definition moved_node (dx dy : num) (node : Node) : Node :=
  mkNode (node_id node) (node_type node) (node_name node)
    (Point.mk (Point.x (node_position node) + dx)
       (Point.y (node_position node) + dy))
    (node_config node) (node_status node).






(** The calls of [saveWorkflow] and [testWorkflow] that are suspended: the
    two methods that put up the loading overlay. *)
Definition shows_overlay (t : Task) : bool :=
  match task_method t with Save | Test => true | Deploy => false end.

Definition overlay_down (w : World) : Prop :=
  loading_overlay (document w) <> Some true.

(** The overlay is down whenever no save and no test is under way. *)
Definition overlay_follows_tasks (p : Page) : Prop :=
  filter shows_overlay (tasks p) = [] -> overlay_down (world p).

(** What a stretch of an [async] method does to the overlay: the methods
    that show it take it down when they are over; [deployWorkflow] leaves
    it alone. *)
Definition overlay_after (m : Method) (w w' : World) : Prop :=
  match m with
  | Save | Test => overlay_down w'
  | Deploy => loading_overlay (document w') = loading_overlay (document w)
  end.

Definition same_overlay (w w' : World) : Prop :=
  loading_overlay (document w') = loading_overlay (document w).

Definition same_selectedConnection (w w' : World) : Prop :=
  selectedConnection (this w') = selectedConnection (this w).

(** ** States the editor keeps itself in *)

(** The canvas is in step with the graph: every node is stored under its
    own id; no two node elements have the same id, and each belongs to a
    node of the collection; each connection line belongs to a connection of
    the collection; and, when the nodes layer exists, every node has its
    element. *)
Definition canvas_in_step (w : World) : Prop :=
  (forall k node, In (k, node) (nodes (this w)) -> node_id node = k)
  /\ NoDup (node_elements (document w))
  /\ (forall k, In k (node_elements (document w)) ->
                In k (map_keys (nodes (this w))))
  /\ (forall i, In i (map_keys (connection_elements (document w))) ->
                In i (map_keys (connections (this w))))
  /\ (nodesLayer (this w) = true ->
      forall k, In k (map_keys (nodes (this w))) ->
                In k (node_elements (document w))).

(** Relations between the world before and after, for the new methods. *)
Definition keeps_in_step (w w' : World) : Prop :=
  canvas_in_step w -> canvas_in_step w'.

Definition same_canvas (w w' : World) : Prop :=
  nodes (this w') = nodes (this w)
  /\ connections (this w') = connections (this w)
  /\ node_elements (document w') = node_elements (document w)
  /\ connection_elements (document w') = connection_elements (document w)
  /\ nodesLayer (this w') = nodesLayer (this w).

(** What [getWorkflowData] reads is as it was. *)
Definition same_data_to_save (w w' : World) : Prop :=
  nodes (this w') = nodes (this w)
  /\ connections (this w') = connections (this w)
  /\ workflow_name_input (document w') = workflow_name_input (document w)
  /\ workflow_description_input (document w')
     = workflow_description_input (document w).


(** Nothing that is saved changes, nothing is marked, nothing leaves the
    page. *)
Definition silent (w w' : World) : Prop :=
  isDirty (this w') = isDirty (this w) /\ effects w' = effects w.

(** The graph and the workflow are as they were. *)
Definition same_graph (w w' : World) : Prop :=
  nodes (this w') = nodes (this w)
  /\ connections (this w') = connections (this w)
  /\ workflow (this w') = workflow (this w)
  /\ options_workflowId (this w') = options_workflowId (this w).

(** * Properties *)

(** ** Numbers *)

Lemma SFmul_comm prec emax a b : SFmul prec emax a b = SFmul prec emax b a.
Proof.
  destruct a as [sa|sa| |sa ma ea], b as [sb|sb| |sb mb eb]; cbn;
    try reflexivity; try (rewrite (xorb_comm sa sb); reflexivity).
  rewrite (xorb_comm sa sb), (Pos.mul_comm ma mb), (Z.add_comm ea eb).
  reflexivity.
Qed.

Lemma float_mul_comm (a b : num) : (a * b = b * a)%float.
Proof. apply Prim2SF_inj. rewrite !mul_spec. apply SFmul_comm. Qed.

Lemma float_ltb_leb (a b : num) :
  (a <? b)%float = true -> (a <=? b)%float = true.
Proof.
  rewrite ltb_spec, leb_spec. unfold SFltb, SFleb.
  destruct (SFcompare _ _) as [[]|]; congruence.
Qed.

(** [Math.max(50, v)] is 50, [v] above 50, or NaN. *)
Lemma Math_max_50 (v : num) :
  (Math_max 50 v <? 50)%float = false
  /\ (is_nan (Math_max 50 v) = true \/ (50 <=? Math_max 50 v)%float = true).
Proof.
  unfold Math_max. change (is_nan 50%float) with false. cbn [orb].
  destruct (is_nan v).
  - split; [reflexivity | left; reflexivity].
  - destruct (v <? 50)%float eqn:Hlow.
    + split; [reflexivity | right; reflexivity].
    + destruct (50 <? v)%float eqn:Hhigh.
      * split; [exact Hlow | right; apply float_ltb_leb; exact Hhigh].
      * change (is_zero 50%float && get_sign 50%float) with false. cbn iota.
        split; [reflexivity | right; reflexivity].
Qed.

(** C8. [createConnectionPath(start, end)] is the cubic-bezier path string
    of the specification, ['M sx sy C sx+c sy, ex-c ey, ex ey'] with
    [c = max(50, 0.5 * |end.x - start.x|)], for every pair of points; and
    the offset [c] is never less than 50: the comparison [c < 50] is false,
    and [c] is at least 50 unless it is NaN (which only NaN or opposite
    infinite coordinates produce). *)
Theorem createConnectionPath_bezier (start end_ : Point.t) :
  createConnectionPath start end_
  = bezier_path start end_ (control_offset start end_)
  /\ (control_offset start end_ <? 50)%float = false
  /\ (is_nan (control_offset start end_) = true
      \/ (50 <=? control_offset start end_)%float = true).
Proof.
  split.
  - unfold createConnectionPath, bezier_path, control_offset.
    rewrite (float_mul_comm (Math_abs _) 0.5%float). reflexivity.
  - apply Math_max_50.
Qed.

(** ** Maps *)

Section JsMapFacts.
Context {V : Type}.
Implicit Types (m : JsMap V) (k : string) (v : V).

Lemma map_keys_delete k k' m :
  In k' (map_keys (map_delete k m)) <-> In k' (map_keys m) /\ k' <> k.
Proof.
  unfold map_keys, map_delete. rewrite !in_map_iff. split.
  - intros [[k0 v0] [<- Hin]]. apply filter_In in Hin as [Hin Hne].
    cbn in *. apply negb_true_iff, String.eqb_neq in Hne.
    split; [exists (k0, v0); auto | exact Hne].
  - intros [[[k0 v0] [<- Hin]] Hne]. exists (k0, v0). split; [reflexivity|].
    apply filter_In. split; [exact Hin|].
    cbn in *. apply negb_true_iff, String.eqb_neq. exact Hne.
Qed.

Lemma map_get_delete_same k m : map_get k (map_delete k m) = None.
Proof.
  induction m as [|[k0 v0] m IH]; cbn; [reflexivity|].
  destruct (k0 =? k) eqn:E; cbn; [exact IH|]. rewrite E. exact IH.
Qed.

Lemma map_get_In k v m : map_get k m = Some v -> In (k, v) m.
Proof.
  induction m as [|[k0 v0] m IH]; cbn; [discriminate|].
  destruct (String.eqb_spec k0 k) as [->|Hne].
  - intros [= ->]. left. reflexivity.
  - intros H. right. apply IH, H.
Qed.

Lemma In_map_get k v m : map_wf m -> In (k, v) m -> map_get k m = Some v.
Proof.
  unfold map_wf, map_keys.
  induction m as [|[k0 v0] m IH]; cbn; [intros _ []|].
  intros Hnd [Heq|Hin].
  - injection Heq as -> ->. rewrite String.eqb_refl. reflexivity.
  - inversion Hnd as [|? ? Hnotin Hnd']; subst.
    destruct (String.eqb_spec k0 k) as [->|Hne].
    + exfalso. apply Hnotin. apply in_map_iff. exists (k, v). auto.
    + apply IH; assumption.
Qed.

Lemma map_wf_delete k m : map_wf m -> map_wf (map_delete k m).
Proof.
  unfold map_wf, map_keys, map_delete.
  induction m as [|[k0 v0] m IH]; cbn; [auto|].
  intros Hnd. inversion Hnd as [|? ? Hnotin Hnd']; subst.
  destruct (k0 =? k); cbn; [auto|].
  constructor; [|auto].
  intros Hin. apply Hnotin. apply in_map_iff in Hin as [e [He Hin]].
  apply filter_In in Hin as [Hin _]. apply in_map_iff. exists e. auto.
Qed.

Lemma map_keys_set k v m :
  forall k', In k' (map_keys (map_set k v m)) <-> In k' (map_keys m) \/ k' = k.
Proof.
  unfold map_keys.
  induction m as [|[k0 v0] m IH]; cbn; intros k'.
  - intuition congruence.
  - destruct (String.eqb_spec k0 k) as [->|Hne]; cbn.
    + intuition congruence.
    + rewrite IH. intuition congruence.
Qed.

Lemma map_wf_set k v m : map_wf m -> map_wf (map_set k v m).
Proof.
  unfold map_wf.
  induction m as [|[k0 v0] m IH]; cbn.
  - intros _. constructor; [intros []|constructor].
  - intros Hnd. inversion Hnd as [|? ? Hnotin Hnd']; subst.
    destruct (String.eqb_spec k0 k) as [->|Hne]; cbn.
    + constructor; assumption.
    + constructor; [|apply IH; assumption].
      intros Hin. apply (map_keys_set k v m) in Hin as [Hin|Heq];
        [exact (Hnotin Hin)|congruence].
Qed.

Lemma map_get_set_same k v m : map_get k (map_set k v m) = Some v.
Proof.
  induction m as [|[k0 v0] m IH]; cbn.
  - rewrite String.eqb_refl. reflexivity.
  - destruct (k0 =? k) eqn:E; cbn.
    + rewrite String.eqb_refl. reflexivity.
    + rewrite E. exact IH.
Qed.

Lemma map_get_set_other k k' v m :
  k' <> k -> map_get k' (map_set k v m) = map_get k' m.
Proof.
  intros Hne. induction m as [|[k0 v0] m IH]; cbn.
  - destruct (String.eqb_spec k k'); [congruence|reflexivity].
  - destruct (String.eqb_spec k0 k) as [->|Hne0]; cbn.
    + destruct (String.eqb_spec k k'); [congruence|reflexivity].
    + rewrite IH. reflexivity.
Qed.

(** Deleting a list of keys one after the other keeps, in order, the entries
    whose key is not in the list. *)
Lemma map_delete_all (ks : list string) m :
  fold_left (fun acc k => map_delete k acc) ks m
  = filter (fun e => negb (has_element (fst e) ks)) m.
Proof.
  revert m. induction ks as [|k ks IH]; intros m; cbn.
  - induction m as [|e m IHm]; cbn; [reflexivity|]. rewrite <- IHm.
    reflexivity.
  - rewrite IH. unfold map_delete.
    induction m as [|e m IHm]; cbn; [reflexivity|].
    destruct (fst e =? k); cbn.
    + exact IHm.
    + fold (has_element (fst e) ks).
      destruct (has_element (fst e) ks); cbn; [exact IHm|].
      rewrite IHm. reflexivity.
Qed.

(** With one entry per key, the keys of the entries that satisfy [p] single
    out exactly those entries. *)
Lemma keys_of_filter (p : string * V -> bool) m :
  map_wf m ->
  forall e, In e m ->
    has_element (fst e) (map fst (filter p m)) = p e.
Proof.
  intros Hwf e Hin. unfold has_element.
  destruct (p e) eqn:Hp.
  - apply existsb_exists. exists (fst e). split; [|apply String.eqb_refl].
    apply in_map. apply filter_In. auto.
  - destruct (existsb _ _) eqn:Hex; [|reflexivity].
    apply existsb_exists in Hex as [k [Hk Heq]].
    apply String.eqb_eq in Heq. subst k.
    apply in_map_iff in Hk as [e' [Hfst Hin']].
    apply filter_In in Hin' as [Hin' Hp'].
    assert (e' = e) as ->; [|congruence].
    destruct e as [k v], e' as [k' v']. cbn in Hfst. subst k'.
    apply (In_map_get _ _ _ Hwf) in Hin, Hin'. congruence.
Qed.

Lemma map_delete_filtered (p : string * V -> bool) m :
  map_wf m ->
  fold_left (fun acc k => map_delete k acc) (map fst (filter p m)) m
  = filter (fun e => negb (p e)) m.
Proof.
  intros Hwf. rewrite map_delete_all. apply filter_ext_in.
  intros e Hin. rewrite (keys_of_filter p m Hwf e Hin). reflexivity.
Qed.

End JsMapFacts.

(** ** Deleting *)

Lemma deleteConnection_run (connectionId : string) (w : World) :
  deleteConnection connectionId w
  = (Normal tt,
     mkWorld
       (with_isDirty true
          (with_connections (map_delete connectionId (connections (this w)))
             (this w)))
       (with_connection_elements
          (map_delete connectionId (connection_elements (document w)))
          (document w))
       (effects w)).
Proof. reflexivity. Qed.

(** Deleting a list of connections never throws; it leaves the nodes, the
    page's panel and the effects alone. *)
Lemma forEach_deleteConnection (ids : list string) (w : World) :
  exists w1,
    forEach ids deleteConnection w = (Normal tt, w1)
    /\ connections (this w1)
       = fold_left (fun acc k => map_delete k acc) ids (connections (this w))
    /\ nodes (this w1) = nodes (this w)
    /\ isDirty (this w1) = match ids with [] => isDirty (this w) | _ => true end
    /\ no_selection (document w1) = no_selection (document w)
    /\ node_properties (document w1) = node_properties (document w)
    /\ connection_properties (document w1) = connection_properties (document w).
Proof.
  revert w. induction ids as [|i ids IH]; intros w.
  - exists w. cbn. auto 10.
  - cbn [forEach]. unfold bind at 1. rewrite deleteConnection_run.
    destruct (IH (mkWorld
       (with_isDirty true
          (with_connections (map_delete i (connections (this w))) (this w)))
       (with_connection_elements
          (map_delete i (connection_elements (document w))) (document w))
       (effects w))) as [w1 (Hrun & Hc & Hn & Hd & H1 & H2 & H3)].
    exists w1. rewrite Hrun. cbn in *.
    repeat split; try assumption.
    destruct ids; assumption.
Qed.

(** What [deleteNode] leaves behind, whether or not [hideProperties] throws
    on the way. *)
Lemma deleteNode_graph (n : string) (w : World) :
  nodes (this (snd (deleteNode n w))) = map_delete n (nodes (this w))
  /\ connections (this (snd (deleteNode n w)))
     = fold_left (fun acc k => map_delete k acc)
         (map fst (filter (fun entry => incident n (snd entry))
                     (connections (this w))))
         (connections (this w)).
Proof.
  destruct (forEach_deleteConnection
              (map fst (filter (fun entry => incident n (snd entry))
                          (connections (this w)))) w)
    as [w1 (Hrun & Hc & Hn & _)].
  rewrite <- Hc, <- Hn.
  unfold deleteNode, hideProperties, bind, assign, modify_this,
    modify_document, get_document, get_this, markDirty.
  rewrite Hrun. cbn.
  destruct (no_selection (document w1)), (node_properties (document w1)),
    (connection_properties (document w1)); cbn; auto.
Qed.

(** C1. For a node id [n] present in the node collection, [deleteNode(n)]
    removes [n] from the node collection and deletes every connection whose
    source or target is [n]: afterwards no connection references [n], and
    the connections between other nodes are exactly the ones that were
    there, in their order.  (The connection collection is a [Map]: one
    entry per id.) *)
Theorem deleteNode_cascades (n : string) (w : World) :
  map_wf (connections (this w)) ->
  In n (map_keys (nodes (this w))) ->
  let w' := snd (deleteNode n w) in
  ~ In n (map_keys (nodes (this w')))
  /\ map_get n (nodes (this w')) = None
  /\ (forall i c, In (i, c) (connections (this w')) ->
        source c <> n /\ target c <> n)
  /\ connections (this w')
     = filter (fun entry => negb (incident n (snd entry)))
         (connections (this w))
  /\ (forall i c, map_get i (connections (this w)) = Some c ->
        source c <> n -> target c <> n ->
        map_get i (connections (this w')) = Some c).
Proof.
  intros Hwf Hin w'. subst w'.
  destruct (deleteNode_graph n w) as [Hn Hc].
  rewrite (map_delete_filtered _ _ Hwf) in Hc.
  rewrite Hn, Hc.
  assert (Hlive : forall i c,
             In (i, c) (filter (fun entry => negb (incident n (snd entry)))
                          (connections (this w))) ->
             source c <> n /\ target c <> n).
  { intros i c H. apply filter_In in H as [_ H]. cbn in H.
    apply negb_true_iff, orb_false_iff in H as [Hs Ht].
    split; apply String.eqb_neq; assumption. }
  repeat split.
  - intros H. apply map_keys_delete in H as [_ H]. apply H. reflexivity.
  - apply map_get_delete_same.
  - apply (Hlive i c H).
  - apply (Hlive i c H).
  - intros i c Hget Hs Ht.
    apply In_map_get.
    + change (map_wf (filter (fun entry => negb (incident n (snd entry)))
                        (connections (this w)))).
      unfold map_wf, map_keys in *.
      clear - Hwf. induction (connections (this w)) as [|e m IH]; cbn;
        [constructor|].
      inversion Hwf as [|? ? Hnotin Hnd]; subst.
      destruct (negb (incident n (snd e))); cbn; [|auto].
      constructor; [|auto]. intros H. apply Hnotin.
      apply in_map_iff in H as [e' [He' H]]. apply filter_In in H as [H _].
      apply in_map_iff. exists e'. auto.
    + apply filter_In. split; [apply map_get_In; exact Hget|]. cbn.
      unfold incident. apply negb_true_iff, orb_false_iff.
      split; apply String.eqb_neq; assumption.
Qed.

(** ** What a method leaves alone

    For a preorder [R], [preserves R] goes through sequencing, conditionals,
    loops and [try] blocks, so that it is enough to look at the assignments
    of a method. *)

Section Preserves.
Variable R : World -> World -> Prop.
Hypothesis R_refl : forall w, R w w.
Hypothesis R_trans : forall w1 w2 w3, R w1 w2 -> R w2 w3 -> R w1 w3.

Lemma preserves_ret {A} (a : A) : preserves R (ret a).
Proof. intros w. apply R_refl. Qed.

Lemma preserves_throw {A} (e : Exn) : preserves R (@throw A e).
Proof. intros w. apply R_refl. Qed.

Lemma preserves_get_this : preserves R get_this.
Proof. intros w. apply R_refl. Qed.

Lemma preserves_get_document : preserves R get_document.
Proof. intros w. apply R_refl. Qed.

Lemma preserves_bind {A B} (m : M A) (k : A -> M B) :
  preserves R m -> (forall a, preserves R (k a)) -> preserves R (bind m k).
Proof.
  intros Hm Hk w. unfold bind. specialize (Hm w).
  destruct (m w) as [[a|e] w1]; cbn in *.
  - apply (R_trans _ _ _ Hm). apply Hk.
  - exact Hm.
Qed.

Lemma preserves_when (c : bool) (m : M unit) :
  preserves R m -> preserves R (when c m).
Proof. intros Hm. destruct c; [exact Hm | apply preserves_ret]. Qed.

Lemma preserves_forEach {A} (l : list A) (f : A -> M unit) :
  (forall a, preserves R (f a)) -> preserves R (forEach l f).
Proof.
  intros Hf. induction l as [|a l IH]; cbn [forEach].
  - apply preserves_ret.
  - apply preserves_bind; [apply Hf | intros _; exact IH].
Qed.

Lemma preserves_try_catch_finally (body : M unit) (handler : Exn -> M unit)
  (fin : M unit) :
  preserves R body -> (forall e, preserves R (handler e)) -> preserves R fin ->
  preserves R (try_catch_finally body handler fin).
Proof.
  intros Hb Hh Hf w. unfold try_catch_finally. specialize (Hb w).
  destruct (body w) as [[[]|e] w1]; cbn in *.
  - apply (R_trans _ _ _ Hb). apply Hf.
  - specialize (Hh e w1). destruct (handler e w1) as [[[]|e'] w2]; cbn in *.
    + apply (R_trans _ _ _ Hb). apply (R_trans _ _ _ Hh). apply Hf.
    + specialize (Hf w2). destruct (fin w2) as [[[]|e''] w3]; cbn in *;
        apply (R_trans _ _ _ Hb); apply (R_trans _ _ _ Hh); exact Hf.
Qed.

Lemma preserves_try_until_await {A} (segment : M A)
  (handler : Exn -> M unit) (fin : M unit) :
  preserves R segment -> (forall e, preserves R (handler e)) ->
  preserves R fin ->
  preserves R (try_until_await segment handler fin).
Proof.
  intros Hs Hh Hf w. unfold try_until_await. specialize (Hs w).
  destruct (segment w) as [[a|e] w1]; cbn [snd] in *; [exact Hs|].
  apply (R_trans _ _ _ Hs).
  pose proof (preserves_try_catch_finally (throw e) handler fin
                (preserves_throw e) Hh Hf w1) as H.
  destruct (try_catch_finally (throw e) handler fin w1) as [[[]|e'] w2];
    cbn [snd] in *; exact H.
Qed.

End Preserves.

(** The methods, for unfolding down to assignments and effects. *)
Create HintDb methods.
#[local] Hint Unfold
  markDirty getCsrfToken showLoading hideLoading showNotification
  hideProperties renderNode getNodeHandlePosition renderConnection
  addNode onDrop updateNodeProperty updateWorkflowProperty startNodeDrag
  onNodeDrag onNodeDragEnd addConnection startConnection handle_mousedown
  onConnectionEnd selectConnection clearSelection deleteConnection
  deleteNode getWorkflowData after_fetch after_json get_prop set_prop
  saveWorkflow_catch saveWorkflow_finally saveWorkflow saveWorkflow_fetched
  saveWorkflow_parsed querySelector showTestResults testWorkflow_catch
  testWorkflow
  testWorkflow_fetched testWorkflow_parsed deployWorkflow_catch
  deployWorkflow deployWorkflow_fetched deployWorkflow_parsed
  run_op called fetched parsed : methods.

Ltac preserves_structure :=
  repeat (first
    [ apply preserves_ret
    | apply preserves_throw
    | apply preserves_get_this
    | apply preserves_get_document
    | apply preserves_bind
    | apply preserves_when
    | apply preserves_forEach
    | apply preserves_try_catch_finally
    | apply preserves_try_until_await
    | progress (cbv beta iota)
    | match goal with
      | |- forall _, _ => intro
      | |- preserves _ (if ?c then _ else _) => destruct c
      | |- preserves _ (match ?x with _ => _ end) => destruct x
      | |- preserves _ (let _ := _ in _) => cbv zeta
      end
    | progress (autounfold with methods) ];
    try assumption).

(** What is left after [preserves_structure] are assignments and effects:
    they are checked by running them. *)
Ltac preserves_leaves tac :=
  match goal with
  | |- preserves _ _ =>
      let w := fresh "w" in
      intros w; unfold assign, assign_canvas, modify_this, modify_document,
        emit; cbn; tac
  end.

Lemma requests_app (l1 l2 : list Effect) :
  requests (l1 ++ l2)%list = (requests l1 ++ requests l2)%list.
Proof. apply flat_map_app. Qed.

Lemma same_isLoading_refl w : same_isLoading w w.
Proof. reflexivity. Qed.

Lemma same_isLoading_trans w1 w2 w3 :
  same_isLoading w1 w2 -> same_isLoading w2 w3 -> same_isLoading w1 w3.
Proof. unfold same_isLoading. congruence. Qed.

Lemma stays_dirty_refl w : stays_dirty w w.
Proof. intros H. exact H. Qed.

Lemma stays_dirty_trans w1 w2 w3 :
  stays_dirty w1 w2 -> stays_dirty w2 w3 -> stays_dirty w1 w3.
Proof. unfold stays_dirty. auto. Qed.

Lemma no_new_request_refl w : no_new_request w w.
Proof. reflexivity. Qed.

Lemma no_new_request_trans w1 w2 w3 :
  no_new_request w1 w2 -> no_new_request w2 w3 -> no_new_request w1 w3.
Proof. unfold no_new_request. congruence. Qed.

Lemma same_saved_state_refl w : same_saved_state w w.
Proof. repeat split. Qed.

Lemma same_saved_state_trans w1 w2 w3 :
  same_saved_state w1 w2 -> same_saved_state w2 w3 -> same_saved_state w1 w3.
Proof.
  unfold same_saved_state. intros (?&?&?&?&?) (?&?&?&?&?).
  repeat split; congruence.
Qed.

Ltac preserves_by refl trans leaf :=
  pose proof refl as R_refl; pose proof trans as R_trans;
  preserves_structure; preserves_leaves leaf.

(** No handler touches [isLoading]. *)
Lemma run_op_same_isLoading (op : Op) : preserves same_isLoading (run_op op).
Proof.
  destruct op;
    preserves_by same_isLoading_refl same_isLoading_trans
      ltac:(reflexivity).
Qed.

Lemma called_same_isLoading (m : Method) (confirmed : bool) :
  m <> Save -> preserves same_isLoading (called m confirmed).
Proof.
  intros Hm. destruct m; [congruence| |];
    preserves_by same_isLoading_refl same_isLoading_trans
      ltac:(reflexivity).
Qed.

Lemma fetched_same_isLoading (m : Method) (settled : FetchSettled) :
  m <> Save -> preserves same_isLoading (fetched m settled).
Proof.
  intros Hm. destruct m; [congruence| |];
    preserves_by same_isLoading_refl same_isLoading_trans
      ltac:(reflexivity).
Qed.

Lemma parsed_same_isLoading (m : Method) (ok : bool) (settled : JsonSettled) :
  m <> Save -> preserves same_isLoading (parsed m ok settled).
Proof.
  intros Hm. destruct m; [congruence| |];
    preserves_by same_isLoading_refl same_isLoading_trans
      ltac:(reflexivity).
Qed.

(** ** The busy flag of [saveWorkflow] *)

Lemma saveWorkflow_busy (w : World) :
  isLoading (this w) = true -> saveWorkflow w = (Normal None, w).
Proof.
  intros H. unfold saveWorkflow, bind, get_this. rewrite H. reflexivity.
Qed.

Lemma saveWorkflow_idle (w : World) :
  isLoading (this w) = false ->
  exists w' r,
    saveWorkflow w = (Normal (Some AwaitFetch), w')
    /\ isLoading (this w') = true
    /\ effects w' = (effects w ++ [Fetch r])%list.
Proof.
  intros H. unfold saveWorkflow, bind at 1, get_this. rewrite H.
  unfold showLoading, try_until_await, getWorkflowData, getCsrfToken, bind,
    assign, modify_this, modify_document, get_this, get_document, emit, ret.
  cbn. destruct (loading_overlay (document w)); cbn;
    eexists; eexists; repeat split.
Qed.

Lemma try_catch_finally_ends (P : World -> Prop) (body : M unit)
  (handler : Exn -> M unit) (fin : M unit) :
  (forall w, P (snd (fin w))) ->
  forall w, P (snd (try_catch_finally body handler fin w)).
Proof.
  intros Hfin w. unfold try_catch_finally.
  destruct (body w) as [[[]|e] w1]; [apply Hfin|].
  destruct (handler e w1) as [[[]|e'] w2]; [apply Hfin|].
  specialize (Hfin w2). destruct (fin w2) as [[[]|e''] w3]; exact Hfin.
Qed.

Lemma saveWorkflow_finally_idle (w : World) :
  isLoading (this (snd (saveWorkflow_finally w))) = false.
Proof.
  unfold saveWorkflow_finally, hideLoading, bind, assign, modify_this,
    modify_document, get_document. cbn.
  destruct (loading_overlay (document w)); reflexivity.
Qed.

Lemma saveWorkflow_parsed_idle (ok : bool) (settled : JsonSettled) (w : World) :
  isLoading (this (snd (saveWorkflow_parsed ok settled w))) = false.
Proof.
  unfold saveWorkflow_parsed.
  apply (try_catch_finally_ends (fun w' => isLoading (this w') = false)).
  apply saveWorkflow_finally_idle.
Qed.

Lemma saveWorkflow_fetched_rejected (w : World) :
  fst (saveWorkflow_fetched Rejected w) = Normal None
  /\ isLoading (this (snd (saveWorkflow_fetched Rejected w))) = false.
Proof.
  unfold saveWorkflow_fetched, try_until_await, try_catch_finally,
    saveWorkflow_catch, saveWorkflow_finally, hideLoading, showNotification,
    after_fetch, bind, assign, modify_this, modify_document, get_document,
    emit, throw. cbn.
  destruct (loading_overlay (document w)); split; reflexivity.
Qed.

Lemma saveWorkflow_fetched_fulfilled (ok : bool) (w : World) :
  saveWorkflow_fetched (Fulfilled ok) w = (Normal (Some (AwaitJson ok)), w).
Proof. reflexivity. Qed.

(** ** Counting the suspended saves *)

Lemma saves_after_append (l : list Task) (t : Task) :
  List.length (filter is_save (l ++ [t])%list)
  = List.length (filter is_save l) + save_weight t.
Proof.
  rewrite filter_app, length_app. unfold save_weight. cbn.
  destruct (is_save t); reflexivity.
Qed.

Lemma saves_after_remove (l : list Task) (i : nat) (t : Task) :
  nth_error l i = Some t ->
  List.length (filter is_save (remove_nth i l)) + save_weight t
  = List.length (filter is_save l).
Proof.
  revert i. induction l as [|a l IH]; intros [|i]; cbn; try discriminate.
  - intros [= ->]. unfold save_weight. destruct (is_save t); cbn; lia.
  - intros H. specialize (IH i H). destruct (is_save a); cbn; lia.
Qed.

Lemma saves_after_replace (l : list Task) (i : nat) (t t' : Task) :
  nth_error l i = Some t ->
  List.length (filter is_save (replace_nth i t' l)) + save_weight t
  = List.length (filter is_save l) + save_weight t'.
Proof.
  revert i. induction l as [|a l IH]; intros [|i]; cbn; try discriminate.
  - intros [= ->]. unfold save_weight.
    destruct (is_save t), (is_save t'); cbn; lia.
  - intros H. specialize (IH i H). destruct (is_save a); cbn; lia.
Qed.

Lemma page_step_invariant (ev : Event) (p : Page) :
  loading_matches_saves p -> loading_matches_saves (page_step ev p).
Proof.
  unfold loading_matches_saves, saves_in_flight. intros Hinv.
  destruct ev as [op|m confirmed|i settled|i settled]; cbn [page_step].
  - (* a handler *)
    cbn. rewrite (run_op_same_isLoading op (world p)). exact Hinv.
  - (* a call *)
    destruct m.
    + cbn [called]. destruct (isLoading (this (world p))) eqn:Hbusy.
      * rewrite (saveWorkflow_busy _ Hbusy). cbn. rewrite Hbusy. exact Hinv.
      * destruct (saveWorkflow_idle _ Hbusy) as (w' & r & Hrun & Hload & _).
        rewrite Hrun. cbn [world tasks]. rewrite Hload, saves_after_append.
        rewrite Hinv. reflexivity.
    + pose proof (called_same_isLoading Test confirmed ltac:(discriminate)
                    (world p)) as Hsame.
      destruct (called Test confirmed (world p)) as [[[a|]|e] w'];
        cbn in *; rewrite ?saves_after_append; cbn; rewrite Hsame, Hinv;
        destruct (isLoading (this (world p))); reflexivity.
    + pose proof (called_same_isLoading Deploy confirmed ltac:(discriminate)
                    (world p)) as Hsame.
      destruct (called Deploy confirmed (world p)) as [[[a|]|e] w'];
        cbn in *; rewrite ?saves_after_append; cbn; rewrite Hsame, Hinv;
        destruct (isLoading (this (world p))); reflexivity.
  - (* the promise of fetch settles *)
    destruct (nth_error (tasks p) i) as [[m [|ok]]|] eqn:Hnth; try exact Hinv.
    destruct m.
    + cbn [fetched]. destruct settled as [|ok].
      * pose proof (saveWorkflow_fetched_rejected (world p)) as [Hfst Hload].
        pose proof (saves_after_remove _ _ _ Hnth) as Hcount.
        destruct (saveWorkflow_fetched Rejected (world p)) as [c w'].
        cbn in Hfst, Hload. subst c. cbn [world tasks]. rewrite Hload.
        cbn in Hcount. destruct (isLoading (this (world p))); lia.
      * rewrite saveWorkflow_fetched_fulfilled. cbn [world tasks].
        pose proof (saves_after_replace _ _ _ (mkTask Save (AwaitJson ok))
                      Hnth) as Hcount.
        cbn in Hcount. lia.
    + pose proof (fetched_same_isLoading Test settled ltac:(discriminate)
                    (world p)) as Hsame.
      pose proof (saves_after_remove _ _ _ Hnth) as Hrem.
      destruct (fetched Test settled (world p)) as [[[a|]|e] w'];
        cbn [world tasks snd] in *; rewrite Hsame;
        try pose proof (saves_after_replace _ _ _ (mkTask Test a) Hnth);
        cbn in *; lia.
    + pose proof (fetched_same_isLoading Deploy settled ltac:(discriminate)
                    (world p)) as Hsame.
      pose proof (saves_after_remove _ _ _ Hnth) as Hrem.
      destruct (fetched Deploy settled (world p)) as [[[a|]|e] w'];
        cbn [world tasks snd] in *; rewrite Hsame;
        try pose proof (saves_after_replace _ _ _ (mkTask Deploy a) Hnth);
        cbn in *; lia.
  - (* the promise of response.json() settles *)
    destruct (nth_error (tasks p) i) as [[m [|ok]]|] eqn:Hnth; try exact Hinv.
    pose proof (saves_after_remove _ _ _ Hnth) as Hrem.
    cbn [world tasks]. destruct m.
    + cbn [parsed]. rewrite saveWorkflow_parsed_idle.
      cbn in Hrem. destruct (isLoading (this (world p))); lia.
    + rewrite (parsed_same_isLoading Test ok settled ltac:(discriminate)
                 (world p)).
      cbn in Hrem. lia.
    + rewrite (parsed_same_isLoading Deploy ok settled ltac:(discriminate)
                 (world p)).
      cbn in Hrem. lia.
Qed.

Lemma page_run_invariant (evs : list Event) (p : Page) :
  loading_matches_saves p -> loading_matches_saves (page_run evs p).
Proof.
  unfold page_run. revert p. induction evs as [|ev evs IH]; intros p Hinv.
  - exact Hinv.
  - cbn [fold_left]. apply IH. apply page_step_invariant. exact Hinv.
Qed.

(** C3. A call of [saveWorkflow] while [isLoading] is true returns at once,
    issues no request and changes nothing; a call while it is false sets
    [isLoading] and issues one request; [isLoading] is false again when the
    request fails or its body has been read.  So on a page that starts idle,
    whatever handlers run and however promises settle, at most one save
    request is in flight, and one is in flight exactly while [isLoading] is
    true. *)
Theorem saveWorkflow_one_in_flight (evs : list Event) (p0 : Page) :
  tasks p0 = [] ->
  isLoading (this (world p0)) = false ->
  let p := page_run evs p0 in
  saves_in_flight p <= 1
  /\ (saves_in_flight p = 1 <-> isLoading (this (world p)) = true)
  /\ (isLoading (this (world p)) = true ->
      saveWorkflow (world p) = (Normal None, world p))
  /\ (isLoading (this (world p)) = false ->
      exists w' r,
        saveWorkflow (world p) = (Normal (Some AwaitFetch), w')
        /\ isLoading (this w') = true
        /\ effects w' = (effects (world p) ++ [Fetch r])%list)
  /\ (forall w, isLoading (this (snd (saveWorkflow_fetched Rejected w))) = false)
  /\ (forall ok settled w,
        isLoading (this (snd (saveWorkflow_parsed ok settled w))) = false).
Proof.
  intros Htasks Hidle p.
  assert (Hinv : loading_matches_saves p).
  { apply page_run_invariant. unfold loading_matches_saves, saves_in_flight.
    rewrite Htasks, Hidle. reflexivity. }
  unfold loading_matches_saves in Hinv.
  repeat split.
  - rewrite Hinv. destruct (isLoading (this (world p))); lia.
  - rewrite Hinv. destruct (isLoading (this (world p)));
      [reflexivity|discriminate].
  - intros H. rewrite Hinv, H. reflexivity.
  - apply saveWorkflow_busy.
  - apply saveWorkflow_idle.
  - intros w. apply saveWorkflow_fetched_rejected.
  - intros ok settled w. apply saveWorkflow_parsed_idle.
Qed.

(** ** A save that fails *)

Ltac failed_save :=
  unfold failed_save_outcome, same_saved_state; cbn;
  rewrite <- ?app_assoc; cbn;
  repeat split; rewrite requests_app; cbn; apply app_nil_r.

Ltac run_save :=
  unfold saveWorkflow_fetched, saveWorkflow_parsed, try_until_await,
    try_catch_finally, saveWorkflow_catch, saveWorkflow_finally, hideLoading,
    showNotification, after_fetch, after_json, get_prop, when, bind, assign,
    modify_this, modify_document, get_this, get_document, emit, throw, ret;
  cbn.

(** C2. A save whose request fails -- the promise of [fetch] rejects, the
    body is not JSON, or the response is not OK -- completes normally: the
    error is caught inside [saveWorkflow].  It leaves the node collection,
    the connection collection, [workflow], [options.workflowId] and
    [isDirty] as they were (indeed every field but [isLoading]), sets
    [isLoading] to false, and adds two effects, a console line and the
    error notification: no further request is made. *)
Theorem saveWorkflow_failure_contained (w : World) :
  (exists w',
      saveWorkflow_fetched Rejected w = (Normal None, w')
      /\ failed_save_outcome NetworkError w w')
  /\ (forall ok, exists w',
         saveWorkflow_parsed ok None w = (Normal tt, w')
         /\ failed_save_outcome SyntaxError w w')
  /\ (forall result, exists w' error,
         saveWorkflow_parsed false (Some result) w = (Normal tt, w')
         /\ failed_save_outcome error w w').
Proof.
  split; [|split].
  - run_save. destruct (loading_overlay (document w)); cbn;
      eexists; (split; [reflexivity | failed_save]).
  - intros ok. run_save. destruct (loading_overlay (document w)); cbn;
      eexists; (split; [reflexivity | failed_save]).
  - intros result. run_save.
    destruct result; cbn; destruct (loading_overlay (document w)); cbn;
      eexists; eexists;
      (split; [reflexivity | failed_save]).
Qed.

(** ** The dirty flag *)

Ltac stays_dirty_leaf :=
  unfold stays_dirty; cbn; intros; solve [assumption | reflexivity].

Ltac stays_dirty_auto :=
  preserves_by stays_dirty_refl stays_dirty_trans ltac:(stays_dirty_leaf).

Lemma run_op_stays_dirty (op : Op) : preserves stays_dirty (run_op op).
Proof. destruct op; stays_dirty_auto. Qed.

Lemma called_stays_dirty (m : Method) (confirmed : bool) :
  preserves stays_dirty (called m confirmed).
Proof. destruct m; stays_dirty_auto. Qed.

Lemma fetched_stays_dirty (m : Method) (settled : FetchSettled) :
  preserves stays_dirty (fetched m settled).
Proof. destruct m; stays_dirty_auto. Qed.

(** Of the last stretches, only the one of a save whose response is OK and
    whose body is JSON may reset the flag. *)
Lemma parsed_stays_dirty (m : Method) (ok : bool) (settled : JsonSettled) :
  (m = Save -> ok = true -> settled = None) ->
  preserves stays_dirty (parsed m ok settled).
Proof.
  intros Hfail. destruct m.
  - destruct ok.
    + rewrite (Hfail eq_refl eq_refl). stays_dirty_auto.
    + stays_dirty_auto.
  - stays_dirty_auto.
  - stays_dirty_auto.
Qed.

(** The world after an event is the world before, or the one a handler or
    a stretch of an [async] method leaves. *)
Lemma page_step_world (ev : Event) (p : Page) :
  world (page_step ev p) =
  match ev with
  | Invoke op => snd (run_op op (world p))
  | Call m confirmed => snd (called m confirmed (world p))
  | FetchSettles i settled =>
      match nth_error (tasks p) i with
      | Some (mkTask m AwaitFetch) => snd (fetched m settled (world p))
      | _ => world p
      end
  | JsonSettles i settled =>
      match nth_error (tasks p) i with
      | Some (mkTask m (AwaitJson ok)) => snd (parsed m ok settled (world p))
      | _ => world p
      end
  end.
Proof.
  destruct ev as [op|m confirmed|i settled|i settled]; cbn [page_step].
  - reflexivity.
  - destruct (called m confirmed (world p)) as [[[a|]|e] w']; reflexivity.
  - destruct (nth_error (tasks p) i) as [[m [|ok]]|]; try reflexivity.
    destruct (fetched m settled (world p)) as [[[a|]|e] w']; reflexivity.
  - destruct (nth_error (tasks p) i) as [[m [|ok]]|]; reflexivity.
Qed.

Lemma isDirty_reset_only_by_save (ev : Event) (p : Page) :
  isDirty (this (world p)) = true ->
  isDirty (this (world (page_step ev p))) = false ->
  exists i result,
    ev = JsonSettles i (Some result)
    /\ nth_error (tasks p) i = Some (mkTask Save (AwaitJson true)).
Proof.
  intros Hdirty Hclean. rewrite page_step_world in Hclean.
  destruct ev as [op|m confirmed|i settled|i settled].
  - rewrite (run_op_stays_dirty op _ Hdirty) in Hclean. discriminate.
  - rewrite (called_stays_dirty m confirmed _ Hdirty) in Hclean. discriminate.
  - destruct (nth_error (tasks p) i) as [[m [|ok]]|]; try congruence.
    rewrite (fetched_stays_dirty m settled _ Hdirty) in Hclean. discriminate.
  - destruct (nth_error (tasks p) i) as [[m [|ok]]|] eqn:Hnth; try congruence.
    destruct m, ok, settled as [result|];
      try (match type of Hclean with
           | context [parsed ?m ?ok ?s _] =>
               rewrite (parsed_stays_dirty m ok s ltac:(congruence) _ Hdirty)
                 in Hclean
           end; discriminate).
    exists i, result. split; [reflexivity | exact Hnth].
Qed.

Ltac run_method :=
  autounfold with methods;
  unfold try_until_await, try_catch_finally, when, bind, assign,
    assign_canvas, modify_this, modify_document, get_this, get_document,
    emit, throw, ret;
  cbn.

(** Case analysis on what a method reads from the maps and the page. *)
Ltac split_on_reads :=
  repeat (cbn;
          match goal with
          | |- context [has_element ?a ?b] => destruct (has_element a b) eqn:?
          | |- context [map_get ?a ?b] => destruct (map_get a b) eqn:?
          | |- context [handle_rect ?d ?a ?b] =>
              destruct (handle_rect d a b) eqn:?
          | |- context [loading_overlay ?d] =>
              destruct (loading_overlay d) eqn:?
          end);
  cbn.

Lemma deleteNode_returns (n : string) (w : World) :
  page_ready w -> fst (deleteNode n w) = Normal tt.
Proof.
  intros (_ & _ & _ & H1 & H2 & H3).
  destruct (forEach_deleteConnection
              (map fst (filter (fun entry => incident n (snd entry))
                          (connections (this w)))) w)
    as [w1 (Hrun & _ & _ & _ & E1 & E2 & E3)].
  unfold deleteNode, hideProperties, bind, assign, modify_this,
    modify_document, get_document, get_this, markDirty.
  rewrite Hrun. cbn. rewrite E1, E2, E3, H1, H2, H3. reflexivity.
Qed.

Lemma deleteNode_returns_dirty (n : string) (w : World) :
  fst (deleteNode n w) = Normal tt ->
  isDirty (this (snd (deleteNode n w))) = true.
Proof.
  destruct (forEach_deleteConnection
              (map fst (filter (fun entry => incident n (snd entry))
                          (connections (this w)))) w)
    as [w1 (Hrun & _)].
  unfold deleteNode, hideProperties, bind, assign, modify_this,
    modify_document, get_document, get_this, markDirty.
  rewrite Hrun. cbn.
  destruct (no_selection (document w1)), (node_properties (document w1)),
    (connection_properties (document w1)); cbn;
    solve [discriminate | reflexivity].
Qed.

(** Case analysis on every test a method makes, as they come up. *)
Ltac split_on_tests :=
  repeat (cbn;
          match goal with
          | |- context [has_element ?a ?b] => destruct (has_element a b) eqn:?
          | |- context [map_get ?a ?b] => destruct (map_get a b) eqn:?
          | |- context [handle_rect ?d ?a ?b] =>
              destruct (handle_rect d a b) eqn:?
          | |- context [nodesLayer ?e] => destruct (nodesLayer e) eqn:?
          | |- context [connectionsLayer ?e] =>
              destruct (connectionsLayer e) eqn:?
          | |- context [element ?c] => destruct (element c) eqn:?
          | |- context [truthy ?v] => destruct (truthy v) eqn:?
          | |- context [workflow ?e] => destruct (workflow e) eqn:?
          end);
  cbn.

(** A mutating operation that returns leaves the editor dirty: its last
    step is [markDirty]. *)
Lemma mutation_returns_dirty (op : Op) (w : World) :
  mutation op w ->
  fst (run_op op w) = Normal tt ->
  isDirty (this (snd (run_op op w))) = true.
Proof.
  intros Hmut.
  destruct op; cbn [mutation] in Hmut; try contradiction;
    try (cbn [run_op]; apply deleteNode_returns_dirty).
  - run_method. split_on_tests; solve [discriminate | reflexivity].
  - run_method. destruct (map_get nodeId (nodes (this w))); [|congruence].
    split_on_tests; solve [discriminate | reflexivity].
  - run_method. split_on_tests; solve [discriminate | reflexivity].
  - reflexivity.
  - run_method. split_on_tests; solve [discriminate | reflexivity].
  - reflexivity.
Qed.

(** On a ready page a mutating operation returns. *)
Lemma mutation_returns (op : Op) (w : World) :
  mutation op w -> page_ready w -> workflow_unset_or_object w ->
  fst (run_op op w) = Normal tt.
Proof.
  intros Hmut Hready Hworkflow.
  destruct op; cbn [mutation] in Hmut; try contradiction;
    try (cbn [run_op]; apply deleteNode_returns; exact Hready);
    destruct Hready as (Hn & Hc & He & _).
  - (* addNode *)
    run_method. split_on_reads; rewrite ?Hn; reflexivity.
  - (* updateNodeProperty *)
    run_method. destruct (map_get nodeId (nodes (this w))); [|congruence].
    split_on_reads; rewrite ?Hn; reflexivity.
  - (* updateWorkflowProperty *)
    run_method. destruct Hworkflow as [Hunset | [props Hobj]].
    + rewrite Hunset. reflexivity.
    + rewrite !Hobj. cbn. rewrite !Hobj. reflexivity.
  - (* onNodeDragEnd *)
    reflexivity.
  - (* addConnection *)
    run_method. split_on_reads; rewrite ?Hc, ?He; cbn;
      split_on_reads; rewrite ?Hc, ?He; reflexivity.
  - (* deleteConnection *)
    reflexivity.
Qed.

(** ** A save that succeeds *)

Lemma saveWorkflow_idle_request (w : World) :
  isLoading (this w) = false ->
  exists w' data,
    saveWorkflow w = (Normal (Some AwaitFetch), w')
    /\ fst (getWorkflowData w) = Normal data
    /\ this w' = with_isLoading true (this w)
    /\ effects w'
       = (effects w
          ++ [Fetch (save_request (options_workflowId (this w))
                       (csrf_token (document w)) data)])%list.
Proof.
  intros H. unfold saveWorkflow, bind at 1, get_this. rewrite H.
  unfold showLoading, try_until_await, getWorkflowData, getCsrfToken, bind,
    assign, modify_this, modify_document, get_this, get_document, emit, ret.
  cbn. destruct (loading_overlay (document w)); cbn;
    eexists; eexists; repeat split.
Qed.

Lemma saveWorkflow_parsed_ok (result : jsval) (w : World) :
  nullish result = false ->
  exists d,
    saveWorkflow_parsed true (Some result) w
    = (Normal tt,
       mkWorld (saved_editor result (this w)) d
         (effects w ++ saved_effects result)%list).
Proof.
  intros H. unfold saved_effects, saved_editor. run_save. rewrite H. cbn.
  destruct (truthy (own_prop result "id")); cbn; rewrite ?H; cbn;
    destruct (loading_overlay (document w)); cbn;
    rewrite <- ?app_assoc; eexists; reflexivity.
Qed.

(** C4. Called while idle, [saveWorkflow] sends one request: POST to
    ['/api/workflows/'] when [options.workflowId] is unset (falsy), PUT to
    ['/api/workflows/<id>/'] when it is set, with the content of the page's
    [meta[name="csrf-token"]] tag in the [X-CSRFToken] header.  When the
    response is OK and its body is a workflow object (any JSON value but
    [null]), the last stretch stores the object in [workflow], its [id] in
    [options.workflowId], and clears [isDirty]. *)
Theorem saveWorkflow_sends_and_stores (w w2 : World) (result : jsval) :
  isLoading (this w) = false ->
  nullish result = false ->
  (exists w' data,
      saveWorkflow w = (Normal (Some AwaitFetch), w')
      /\ effects w'
         = (effects w
            ++ [Fetch (save_request (options_workflowId (this w))
                         (csrf_token (document w)) data)])%list)
  /\ (truthy (options_workflowId (this w)) = false ->
      forall data,
        req_url (save_request (options_workflowId (this w))
                   (csrf_token (document w)) data) = "/api/workflows/"
        /\ req_method (save_request (options_workflowId (this w))
                         (csrf_token (document w)) data) = "POST")
  /\ (truthy (options_workflowId (this w)) = true ->
      forall data,
        req_url (save_request (options_workflowId (this w))
                   (csrf_token (document w)) data)
        = "/api/workflows/" ++ js_toString (options_workflowId (this w)) ++ "/"
        /\ req_method (save_request (options_workflowId (this w))
                         (csrf_token (document w)) data) = "PUT")
  /\ (forall content, csrf_meta (document w) = Some (Some content) ->
      forall data,
        In ("X-CSRFToken", content)
          (req_headers (save_request (options_workflowId (this w))
                          (csrf_token (document w)) data)))
  /\ (exists w2',
        saveWorkflow_parsed true (Some result) w2 = (Normal tt, w2')
        /\ workflow (this w2') = result
        /\ options_workflowId (this w2') = own_prop result "id"
        /\ isDirty (this w2') = false).
Proof.
  intros Hidle Hobject. repeat split.
  - destruct (saveWorkflow_idle_request w Hidle) as (w' & data & Hrun & _ & _ & He).
    exists w', data. split; assumption.
  - cbn. rewrite H. reflexivity.
  - cbn. rewrite H. reflexivity.
  - cbn. rewrite H. reflexivity.
  - cbn. rewrite H. reflexivity.
  - intros content Hmeta data. unfold csrf_token. rewrite Hmeta. cbn. auto.
  - destruct (saveWorkflow_parsed_ok result w2 Hobject) as [d Hrun].
    eexists. split; [exact Hrun|]. repeat split.
Qed.

(** C10, as the code has it.  After a save whose response is OK and carries
    [result] (any JSON value but [null]), [options.workflowId] is the [id]
    of [result], whatever it was before, because the id is assigned before
    it is tested.  When that id is truthy it is not [null], and the
    location is not rewritten, also for a workflow that was new.  When
    [result] has no id, or a falsy one, [options.workflowId] is that falsy
    value and [history.replaceState] is called with
    ['/workflows/<id>/edit/']. *)
Theorem saveWorkflow_replaceState_iff_falsy_id (w : World) (result : jsval) :
  nullish result = false ->
  exists w',
    saveWorkflow_parsed true (Some result) w = (Normal tt, w')
    /\ options_workflowId (this w') = own_prop result "id"
    /\ (truthy (own_prop result "id") = true ->
        options_workflowId (this w') <> JNull
        /\ options_workflowId (this w') <> JUndefined
        /\ effects w'
           = (effects w
              ++ [ShowNotification "Workflow saved successfully" "success"])%list)
    /\ (truthy (own_prop result "id") = false ->
        effects w'
        = (effects w
           ++ [ShowNotification "Workflow saved successfully" "success";
               ReplaceState
                 ("/workflows/" ++ js_toString (own_prop result "id")
                  ++ "/edit/")])%list).
Proof.
  intros Hobject.
  destruct (saveWorkflow_parsed_ok result w Hobject) as [d Hrun].
  eexists. split; [exact Hrun|]. cbn. unfold saved_effects.
  split; [reflexivity|]. split.
  - intros Ht. rewrite Ht. repeat split;
      intros Heq; rewrite Heq in Ht; discriminate.
  - intros Hf. rewrite Hf. reflexivity.
Qed.

(** C9. Every mutating operation -- [addNode], [addConnection],
    [deleteNode], [deleteConnection], [updateNodeProperty] on an existing
    node, [updateWorkflowProperty], the end of a node drag -- ends in
    [markDirty]: when it returns, [isDirty] is true; and it does return on
    a page that has the elements the methods dereference, with
    [this.workflow] unset or an object.  No handler and no stretch of an
    [async] method turns a true [isDirty] into false, except the last
    stretch of [saveWorkflow] when the response is OK and its body is JSON,
    which does.  A save that fails leaves a true [isDirty] true. *)
Theorem isDirty_set_by_mutations_cleared_by_save :
  (forall op w, mutation op w ->
     fst (run_op op w) = Normal tt ->
     isDirty (this (snd (run_op op w))) = true)
  /\ (forall op w, mutation op w -> page_ready w ->
        workflow_unset_or_object w ->
        fst (run_op op w) = Normal tt)
  /\ (forall ev p,
        isDirty (this (world p)) = true ->
        isDirty (this (world (page_step ev p))) = false ->
        exists i result,
          ev = JsonSettles i (Some result)
          /\ nth_error (tasks p) i = Some (mkTask Save (AwaitJson true)))
  /\ (forall result w, nullish result = false ->
        isDirty (this (snd (saveWorkflow_parsed true (Some result) w))) = false)
  /\ (forall w, isDirty (this w) = true ->
        isDirty (this (snd (saveWorkflow_fetched Rejected w))) = true
        /\ (forall ok,
              isDirty (this (snd (saveWorkflow_parsed ok None w))) = true)
        /\ (forall result,
              isDirty (this (snd (saveWorkflow_parsed false (Some result) w)))
              = true)).
Proof.
  split; [exact mutation_returns_dirty|].
  split; [exact mutation_returns|].
  split; [exact isDirty_reset_only_by_save|].
  split.
  - intros result w Hobject.
    destruct (saveWorkflow_parsed_ok result w Hobject) as [d Hrun].
    rewrite Hrun. reflexivity.
  - intros w Hdirty. repeat split.
    + apply (fetched_stays_dirty Save Rejected w Hdirty).
    + intros ok.
      apply (parsed_stays_dirty Save ok None ltac:(congruence) w Hdirty).
    + intros result.
      apply (parsed_stays_dirty Save false (Some result) ltac:(congruence)
               w Hdirty).
Qed.

(** ** The workflow object *)

Lemma props_get_put_same (k : string) (v : jsval)
  (ps : list (string * jsval)) :
  props_get k (props_put k v ps) = v.
Proof.
  induction ps as [|[k0 v0] ps IH]; cbn.
  - rewrite String.eqb_refl. reflexivity.
  - destruct (k0 =? k) eqn:E; cbn.
    + rewrite String.eqb_refl. reflexivity.
    + rewrite E. exact IH.
Qed.

Lemma props_get_put_other (k q : string) (v : jsval)
  (ps : list (string * jsval)) :
  q <> k -> props_get q (props_put k v ps) = props_get q ps.
Proof.
  intros Hq. induction ps as [|[k0 v0] ps IH]; cbn.
  - destruct (String.eqb_spec k q); [congruence | reflexivity].
  - destruct (String.eqb_spec k0 k) as [->|Hk]; cbn.
    + destruct (String.eqb_spec k q); [congruence | reflexivity].
    + rewrite IH. reflexivity.
Qed.

(** An assignment defines or updates the own property, the key
    ['__proto__'] apart when it is not an own property. *)
Lemma props_set_assigns (k : string) (v : jsval)
  (ps : list (string * jsval)) :
  k <> "__proto__" \/ props_has k ps = true ->
  props_set k v ps = props_put k v ps.
Proof.
  unfold props_set. intros [Hk|Hown].
  - apply String.eqb_neq in Hk. rewrite Hk. reflexivity.
  - rewrite Hown, andb_false_r. reflexivity.
Qed.

Lemma props_set_proto (v : jsval) (ps : list (string * jsval)) :
  props_has "__proto__" ps = false -> props_set "__proto__" v ps = ps.
Proof. unfold props_set. intros Hown. rewrite Hown. reflexivity. Qed.


(** ** Test and deployment *)

Ltac no_new_request_auto :=
  preserves_by no_new_request_refl no_new_request_trans
    ltac:(unfold no_new_request; cbn; rewrite ?requests_app; cbn;
          rewrite ?app_nil_r; reflexivity).

Lemma later_stretches_send_nothing (m : Method) :
  (forall settled, preserves no_new_request (fetched m settled))
  /\ (forall ok settled, preserves no_new_request (parsed m ok settled)).
Proof.
  split; intros; destruct m; no_new_request_auto.
Qed.

(** C6. With [options.workflowId] unset (falsy), [testWorkflow] and
    [deployWorkflow] return at once: they send no request and change
    nothing, and the one effect is the warning 'Please save the workflow
    first'.  With an id set, [testWorkflow] sends its one request to
    ['/api/workflows/<id>/test/'], and [deployWorkflow], once confirmed, to
    ['/api/workflows/<id>/activate/']; the later stretches of the two
    methods send nothing.  So both endpoints are called with a set id
    only. *)
Theorem test_and_deploy_need_an_id (w : World) :
  (truthy (options_workflowId (this w)) = false ->
   testWorkflow w
   = (Normal None,
      mkWorld (this w) (document w) (effects w ++ [save_first_warning])%list)
   /\ forall confirmed,
       deployWorkflow confirmed w
       = (Normal None,
          mkWorld (this w) (document w)
            (effects w ++ [save_first_warning])%list))
  /\ (truthy (options_workflowId (this w)) = true ->
      (exists d,
          testWorkflow w
          = (Normal (Some AwaitFetch),
             mkWorld (this w) d
               (effects w
                ++ [Fetch (test_request (options_workflowId (this w))
                             (csrf_token (document w)))])%list))
      /\ deployWorkflow true w
         = (Normal (Some AwaitFetch),
            mkWorld (this w) (document w)
              (effects w
               ++ [Fetch (activate_request (options_workflowId (this w))
                            (csrf_token (document w)))])%list)
      /\ deployWorkflow false w = (Normal None, w))
  /\ (forall m settled, no_new_request w (snd (fetched m settled w)))
  /\ (forall m ok settled, no_new_request w (snd (parsed m ok settled w))).
Proof.
  split; [|split; [|split]].
  - intros Hunset. split; [|intros confirmed]; run_method; rewrite Hunset;
      reflexivity.
  - intros Hset. split; [|split].
    + run_method. rewrite Hset. cbn.
      destruct (loading_overlay (document w)); cbn; eexists; reflexivity.
    + run_method. rewrite Hset. reflexivity.
    + run_method. rewrite Hset. destruct w. reflexivity.
  - intros m settled. apply later_stretches_send_nothing.
  - intros m ok settled. apply later_stretches_send_nothing.
Qed.

(** ** Drawing connections *)

Lemma addConnection_connections (r s : string) (sh : option string)
  (t : string) (th : option string) (w : World) :
  connections (this (snd (addConnection r s sh t th w)))
  = map_set (generateId r) (mkConnection (generateId r) s sh t th)
      (connections (this w)).
Proof.
  assert (Hrest : preserves same_connections
                    (renderConnection (mkConnection (generateId r) s sh t th)
                     ;; markDirty)).
  { assert (R_refl : forall w0, same_connections w0 w0) by reflexivity.
    assert (R_trans : forall w1 w2 w3, same_connections w1 w2 ->
                        same_connections w2 w3 -> same_connections w1 w3)
      by (unfold same_connections; congruence).
    preserves_structure; preserves_leaves ltac:(reflexivity). }
  unfold addConnection, bind at 1, assign, modify_this.
  rewrite Hrest. reflexivity.
Qed.

(** * More properties *)

(** ** Comparing numbers *)

Lemma SFcompare_antisym (a b : spec_float) :
  SFcompare b a = option_map CompOpp (SFcompare a b).
Proof.
  destruct a as [sa|sa| |sa ma ea], b as [sb|sb| |sb mb eb]; cbn;
    try reflexivity;
    try (destruct sa; reflexivity);
    try (destruct sb; reflexivity);
    try (destruct sa, sb; reflexivity).
  destruct sa, sb; try reflexivity;
    rewrite (Z.compare_antisym ea eb);
    destruct (ea ?= eb)%Z; cbn; try reflexivity;
    rewrite (Pos.compare_cont_antisym ma mb Eq); cbn;
    destruct (Pos.compare_cont Eq mb ma); reflexivity.
Qed.




Lemma float_ltb_asym (a b : num) :
  (a <? b)%float = true -> (b <? a)%float = false.
Proof.
  rewrite !ltb_spec. unfold SFltb.
  rewrite (SFcompare_antisym (Prim2SF a) (Prim2SF b)).
  destruct (SFcompare (Prim2SF a) (Prim2SF b)) as [[]|]; cbn; congruence.
Qed.







(** ** Zoom *)

Lemma silent_refl w : silent w w.
Proof. split; reflexivity. Qed.

Lemma silent_trans w1 w2 w3 : silent w1 w2 -> silent w2 w3 -> silent w1 w3.
Proof. unfold silent. intros [] []. split; congruence. Qed.

Lemma same_graph_refl w : same_graph w w.
Proof. repeat split. Qed.

Lemma same_graph_trans w1 w2 w3 :
  same_graph w1 w2 -> same_graph w2 w3 -> same_graph w1 w3.
Proof.
  unfold same_graph. intros (?&?&?&?) (?&?&?&?). repeat split; congruence.
Qed.


(** ** The keys of an object and the description of a node *)

Lemma insert_index_In (e : N * string) (l : list (N * string)) x :
  In x (insert_index e l) <-> x = e \/ In x l.
Proof.
  induction l as [|h t IH]; cbn.
  - intuition.
  - destruct (fst e <? fst h)%N; cbn; [intuition|].
    rewrite IH. intuition.
Qed.

Lemma index_keys_In (ks : list string) n k :
  In (n, k) (index_keys ks) <-> In k ks /\ array_index k = Some n.
Proof.
  induction ks as [|k0 ks IH]; cbn.
  - intuition.
  - destruct (array_index k0) as [n0|] eqn:E.
    + rewrite insert_index_In, IH. split.
      * intros [[= -> ->]|[H1 H2]]; auto.
      * intros [[->|H1] H2]; [left; congruence | right; auto].
    + rewrite IH. split.
      * intros [H1 H2]. auto.
      * intros [[->|H1] H2]; [congruence | auto].
Qed.

(** The array-index keys come out in ascending order. *)
Lemma insert_index_sorted (e : N * string) (l : list (N * string)) :
  StronglySorted (fun a b => (fst a <= fst b)%N) l ->
  StronglySorted (fun a b => (fst a <= fst b)%N) (insert_index e l).
Proof.
  induction 1 as [|h t Hs IH Hh]; cbn.
  - constructor; constructor.
  - destruct (N.ltb_spec (fst e) (fst h)).
    + constructor; [constructor; assumption|].
      constructor; [lia|].
      rewrite Forall_forall in *. intros x Hx. specialize (Hh x Hx). lia.
    + constructor; [exact IH|].
      rewrite Forall_forall in *. intros x Hx.
      apply insert_index_In in Hx as [->|Hx]; [lia | apply Hh, Hx].
Qed.

Lemma index_keys_sorted (ks : list string) :
  StronglySorted (fun a b => (fst a <= fst b)%N) (index_keys ks).
Proof.
  induction ks as [|k ks IH]; cbn; [constructor|].
  destruct (array_index k); [apply insert_index_sorted|]; exact IH.
Qed.

Lemma named_keys_In (ks : list string) k :
  In k (named_keys ks) <-> In k ks /\ array_index k = None.
Proof.
  unfold named_keys. rewrite filter_In.
  destruct (array_index k); intuition congruence.
Qed.

Lemma object_keys_In (ps : list (string * jsval)) k :
  In k (object_keys ps) <-> In k (map fst ps).
Proof.
  unfold object_keys. rewrite in_app_iff, named_keys_In, in_map_iff. split.
  - intros [[[n k'] [Hk Hin]]|[Hin _]]; [|exact Hin].
    cbn in Hk. subst k'. apply index_keys_In in Hin as [Hin _]. exact Hin.
  - intros Hin. destruct (array_index k) as [n|] eqn:E.
    + left. exists (n, k). split; [reflexivity|].
      apply index_keys_In. auto.
    + right. auto.
Qed.

Lemma named_keys_all (ks : list string) :
  (forall k, In k ks -> array_index k = None) ->
  index_keys ks = [] /\ named_keys ks = ks.
Proof.
  unfold named_keys.
  induction ks as [|k ks IH]; cbn; intros H; [auto|].
  rewrite (H k (or_introl eq_refl)).
  destruct IH as [H1 H2]; [intros k' Hk'; apply H; right; exact Hk'|].
  rewrite H1, H2. auto.
Qed.

Lemma string_append_empty (s : string) : s ++ "" = s.
Proof. induction s as [|c s IH]; cbn; [reflexivity | f_equal; exact IH]. Qed.

Lemma js_length_append (a b : string) :
  js_length (a ++ b) = js_length a + js_length b.
Proof.
  induction a as [|c a IH]; cbn [append js_length]; [reflexivity|].
  rewrite IH. lia.
Qed.

Lemma continuation_is_continuation (x : N) :
  continuation_byte (continuation x) = true.
Proof.
  unfold continuation_byte, continuation.
  pose proof (N.mod_upper_bound x 64 ltac:(discriminate)) as Hbits.
  revert Hbits. generalize (x mod 64)%N. intros bits Hbits.
  rewrite N_ascii_embedding by lia.
  apply andb_true_iff. split; [apply N.leb_le | apply N.ltb_lt]; lia.
Qed.

Lemma js_length_high_surrogate (c : ascii) (rest : string) :
  js_length (high_surrogate c rest) = 1.
Proof.
  unfold high_surrogate. cbn [js_length]. unfold code_units at 2 3.
  rewrite !continuation_is_continuation. reflexivity.
Qed.

Lemma code_units_first_byte (c : ascii) :
  continuation_byte c = false ->
  code_units c = if (240 <=? N_of_ascii c)%N then 2 else 1.
Proof. unfold code_units. intros ->. reflexivity. Qed.

(** A string of at most [n] code units is its own prefix of [n]. *)
Lemma js_prefix_all (n : nat) (s : string) :
  js_length s <= n -> js_prefix n s = s.
Proof.
  revert n. induction s as [|c s IH]; intros n Hlen; [reflexivity|].
  cbn [js_length js_prefix] in *. unfold code_units in Hlen.
  destruct (continuation_byte c).
  - rewrite IH; [reflexivity | lia].
  - destruct (240 <=? N_of_ascii c)%N.
    + destruct n as [|[|n]]; [lia | lia |]. rewrite IH; [reflexivity | lia].
    + destruct n as [|n]; [lia|]. rewrite IH; [reflexivity | lia].
Qed.

(** The prefix of [n] has [n] code units, or all there are. *)
Lemma js_length_prefix (n : nat) (s : string) :
  js_length (js_prefix n s) = Nat.min n (js_length s).
Proof.
  revert n. induction s as [|c s IH]; intros n.
  - cbn. rewrite Nat.min_0_r. reflexivity.
  - cbn [js_length js_prefix].
    destruct (continuation_byte c) eqn:Hc.
    + cbn [js_length]. unfold code_units. rewrite Hc. apply IH.
    + rewrite (code_units_first_byte c Hc).
      destruct n as [|m]; [reflexivity|].
      destruct (240 <=? N_of_ascii c)%N eqn:Hfour.
      * destruct m as [|m'].
        -- rewrite js_length_high_surrogate. reflexivity.
        -- cbn [js_length]. rewrite (code_units_first_byte c Hc), Hfour, IH.
           reflexivity.
      * cbn [js_length]. rewrite (code_units_first_byte c Hc), Hfour, IH.
        reflexivity.
Qed.

(** X2. What a node shows under its title: 'Click to configure' exactly when it
    has no configuration entry; otherwise its first configuration key (the
    least array-index key if there is one, else the key set first), a colon
    and the value as a string, whole if it has at most 30 UTF-16 code
    units, and its first 30 code units followed by '...' if it has more:
    at most 35 code units after the key. *)
Theorem getNodeDescription_shows_first_entry (node : Node) :
  let config := match node_config node with Some c => c | None => [] end in
  (config = [] -> getNodeDescription node = "Click to configure")
  /\ (config <> [] ->
      exists firstKey rest,
        object_keys config = firstKey :: rest
        /\ In firstKey (map fst config)
        /\ (forall n k n',
              array_index firstKey = Some n -> In k (map fst config) ->
              array_index k = Some n' -> (n <= n')%N)
        /\ (array_index firstKey = None ->
            forall k, In k (map fst config) -> array_index k = None)
        /\ ((forall k, In k (map fst config) -> array_index k = None) ->
            exists v others, config = (firstKey, v) :: others)
        /\ getNodeDescription node
           = firstKey ++ ": "
             ++ js_prefix 30 (js_toString (props_get firstKey config))
             ++ (if (30 <? js_length
                            (js_toString (props_get firstKey config)))%nat
                 then "..." else "")
        /\ js_length (js_prefix 30 (js_toString (props_get firstKey config)))
           = Nat.min 30 (js_length (js_toString (props_get firstKey config)))
        /\ (js_length (js_toString (props_get firstKey config)) <= 30 ->
            getNodeDescription node
            = firstKey ++ ": " ++ js_toString (props_get firstKey config))
        /\ js_length (getNodeDescription node)
           <= js_length firstKey + 35).
Proof.
  intros config. split.
  - intros Hempty. unfold getNodeDescription. fold config. rewrite Hempty.
    reflexivity.
  - intros Hnonempty.
    destruct (object_keys config) as [|firstKey rest] eqn:Hkeys.
    { exfalso. destruct config as [|[k v] others]; [congruence|].
      assert (In k (object_keys ((k, v) :: others)))
        by (apply object_keys_In; left; reflexivity).
      rewrite Hkeys in H. exact H. }
    exists firstKey, rest.
    assert (Hin : In firstKey (map fst config)).
    { apply object_keys_In. rewrite Hkeys. left. reflexivity. }
    assert (Hdesc : getNodeDescription node
                    = firstKey ++ ": "
                      ++ js_prefix 30
                           (js_toString (props_get firstKey config))
                      ++ (if (30 <? js_length
                                     (js_toString
                                        (props_get firstKey config)))%nat
                          then "..." else "")).
    { unfold getNodeDescription. fold config. rewrite Hkeys. reflexivity. }
    split; [reflexivity|]. split; [exact Hin|].
    unfold object_keys in Hkeys.
    split; [|split; [|split; [|split; [exact Hdesc|split; [|split]]]]].
    + (* the least array index *)
      intros n k n' Hfirst Hk Hk'.
      pose proof (index_keys_sorted (map fst config)) as Hsorted.
      destruct (index_keys (map fst config)) as [|[n0 k0] indices] eqn:Hidx.
      * exfalso.
        assert (In (n', k) (index_keys (map fst config)))
          by (apply index_keys_In; auto).
        rewrite Hidx in H. exact H.
      * cbn in Hkeys. injection Hkeys as -> _.
        assert (Hhead : In (n0, firstKey) (index_keys (map fst config)))
          by (rewrite Hidx; left; reflexivity).
        apply index_keys_In in Hhead as [_ Hn0].
        assert (n0 = n) as -> by congruence.
        assert (Hother : In (n', k) (index_keys (map fst config)))
          by (apply index_keys_In; auto).
        rewrite Hidx in Hother. destruct Hother as [[= -> _]|Hother]; [lia|].
        inversion Hsorted as [|? ? _ Hall]; subst.
        rewrite Forall_forall in Hall. apply (Hall _ Hother).
    + (* no array index at all *)
      intros Hnamed k Hk.
      destruct (array_index k) as [n'|] eqn:Hidxk; [|reflexivity].
      exfalso.
      assert (Hother : In (n', k) (index_keys (map fst config)))
        by (apply index_keys_In; auto).
      destruct (index_keys (map fst config)) as [|[n0 k0] indices] eqn:Hidx;
        [exact Hother|].
      cbn in Hkeys. injection Hkeys as -> _.
      assert (Hhead : In (n0, firstKey) (index_keys (map fst config)))
        by (rewrite Hidx; left; reflexivity).
      apply index_keys_In in Hhead as [_ Hn0]. congruence.
    + (* only named keys: the first in order of creation *)
      intros Hall. destruct (named_keys_all _ Hall) as [Hidx Hnamed].
      rewrite Hidx, Hnamed in Hkeys. cbn in Hkeys.
      destruct config as [|[k v] others]; [congruence|].
      cbn in Hkeys. injection Hkeys as -> _. eauto.
    + apply js_length_prefix.
    + intros Hshort. rewrite Hdesc.
      rewrite (js_prefix_all 30 _ Hshort).
      destruct (Nat.ltb_spec 30
                  (js_length (js_toString (props_get firstKey config))));
        [lia|].
      f_equal. f_equal. apply string_append_empty.
    + rewrite Hdesc. rewrite !js_length_append, js_length_prefix.
      pose proof (Nat.le_min_l 30
                    (js_length (js_toString (props_get firstKey config))))
        as Hmin.
      change (js_length ": ") with 2.
      set (shown := Nat.min 30 _) in *. clearbody shown.
      destruct (30 <? _)%nat;
        [change (js_length "...") with 3 | change (js_length "") with 0];
        lia.
Qed.

(** ** Grouping the palette *)

Section Grouping.
Context {T : Type} (category : T -> jsval).

Lemma group_of_push (key k : string) (x : T) (g : list (string * list T)) :
  group_of key (push_into k x g)
  = if k =? key then (group_of key g ++ [x])%list else group_of key g.
Proof.
  induction g as [|[k0 l0] g IH]; cbn.
  - destruct (k =? key); reflexivity.
  - destruct (String.eqb_spec k0 k) as [->|Hk]; cbn.
    + destruct (k =? key); reflexivity.
    + rewrite IH. destruct (String.eqb_spec k0 key) as [->|Hk0];
        [|reflexivity].
      destruct (String.eqb_spec k key); [congruence | reflexivity].
Qed.

Lemma push_into_keys (k : string) (x : T) (g : list (string * list T)) key :
  In key (map fst (push_into k x g)) <-> In key (map fst g) \/ key = k.
Proof.
  induction g as [|[k0 l0] g IH]; cbn.
  - intuition.
  - destruct (String.eqb_spec k0 k) as [->|Hk]; cbn.
    + intuition.
    + rewrite IH. intuition.
Qed.

Lemma push_into_NoDup (k : string) (x : T) (g : list (string * list T)) :
  NoDup (map fst g) -> NoDup (map fst (push_into k x g)).
Proof.
  induction g as [|[k0 l0] g IH]; cbn; intros Hnd.
  - constructor; [intros [] | constructor].
  - inversion Hnd as [|? ? Hnotin Hnd']; subst.
    destruct (String.eqb_spec k0 k) as [->|Hk]; cbn.
    + constructor; assumption.
    + constructor; [|apply IH; assumption].
      intros Hin. apply push_into_keys in Hin as [Hin|Heq];
        [exact (Hnotin Hin) | congruence].
Qed.

Lemma group_from_normal (l : list T) (g0 groups : list (string * list T)) :
  group_from category l g0 = Normal groups ->
  (forall key,
      group_of key groups
      = (group_of key g0
         ++ filter (fun nt => category_key category nt =? key) l)%list)
  /\ (forall key,
        In key (map fst groups)
        <-> In key (map fst g0)
            \/ exists nt, In nt l /\ category_key category nt = key)
  /\ (NoDup (map fst g0) -> NoDup (map fst groups)).
Proof.
  revert g0. induction l as [|nt l IH]; intros g0;
    cbn [group_from filter In].
  - intros [= <-]. repeat split.
    + intros key. rewrite app_nil_r. reflexivity.
    + auto.
    + intros [H|(nt & [] & _)]. exact H.
    + auto.
  - destruct (has_element (category_key category nt) object_prototype_names);
      [discriminate|].
    intros Hrun. destruct (IH _ Hrun) as (Hgroup & Hkeys & Hnd).
    repeat split.
    + intros key. rewrite Hgroup, group_of_push.
      destruct (category_key category nt =? key);
        [rewrite <- app_assoc|]; reflexivity.
    + intros Hin. apply Hkeys in Hin as [Hin|(nt' & Hin & Hkey)].
      * apply push_into_keys in Hin as [Hin|Hin]; [left; exact Hin|].
        right. exists nt. auto.
      * right. exists nt'. auto.
    + intros [Hin|(nt' & [<-|Hin] & Hkey)]; apply Hkeys.
      * left. apply push_into_keys. left. exact Hin.
      * left. apply push_into_keys. right. auto.
      * right. exists nt'. auto.
    + intros H0. apply Hnd, push_into_NoDup, H0.
Qed.

Lemma group_from_throws (l : list T) (g0 : list (string * list T)) e :
  group_from category l g0 = Throw e <->
  e = TypeError
  /\ exists nt, In nt l
       /\ has_element (category_key category nt) object_prototype_names = true.
Proof.
  revert g0. induction l as [|nt l IH]; intros g0; cbn [group_from In].
  - split; [discriminate | intros (_ & nt & [] & _)].
  - destruct (has_element (category_key category nt) object_prototype_names)
      eqn:Hproto.
    + split.
      * intros [= <-]. split; [reflexivity|]. exists nt. auto.
      * intros [-> _]. reflexivity.
    + rewrite IH. split.
      * intros [-> (nt' & Hin & H)]. split; [reflexivity|]. exists nt'. auto.
      * intros [-> (nt' & [<-|Hin] & H)]; [congruence|].
        split; [reflexivity|]. exists nt'. auto.
Qed.

Lemma group_of_In (key : string) (group : list T)
  (g : list (string * list T)) :
  NoDup (map fst g) -> In (key, group) g -> group_of key g = group.
Proof.
  induction g as [|[k0 l0] g IH]; cbn; intros Hnd; [intros []|].
  inversion Hnd as [|? ? Hnotin Hnd']; subst.
  intros [[= -> ->]|Hin].
  - rewrite String.eqb_refl. reflexivity.
  - destruct (String.eqb_spec k0 key) as [->|Hk]; [|apply IH; assumption].
    exfalso. apply Hnotin. apply in_map_iff. exists (key, group). auto.
Qed.

End Grouping.

(** X3. [groupNodesByCategory] partitions the node types: when it returns, each
    category key (the [category] of a node type, 'other' where it is
    missing or falsy) has exactly one group, which holds the node types of
    that category in the order of the Map, so no group is empty and every
    node type is in the group of its category and in no other.  It throws,
    a [TypeError], exactly when some category names a property of
    [Object.prototype] ('constructor', 'toString', ...). *)
Theorem groupNodesByCategory_partitions {T : Type} (category : T -> jsval)
  (nodeTypes : JsMap T) :
  (forall groups,
      groupNodesByCategory category nodeTypes = Normal groups ->
      NoDup (map fst groups)
      /\ (forall key group, In (key, group) groups ->
            group <> []
            /\ group = filter (fun nt => category_key category nt =? key)
                         (map_values nodeTypes))
      /\ (forall nt, In nt (map_values nodeTypes) ->
            exists group,
              In (category_key category nt, group) groups /\ In nt group)
      /\ (forall nt key group, In (key, group) groups -> In nt group ->
            category_key category nt = key))
  /\ (forall e,
        groupNodesByCategory category nodeTypes = Throw e <->
        e = TypeError
        /\ exists nt, In nt (map_values nodeTypes)
             /\ has_element (category_key category nt) object_prototype_names
                = true).
Proof.
  unfold groupNodesByCategory. split; [|intros e; apply group_from_throws].
  intros groups Hrun.
  destruct (group_from_normal category _ _ _ Hrun) as (Hgroup & Hkeys & Hnd).
  specialize (Hnd (NoDup_nil _)).
  assert (Hmember : forall key group, In (key, group) groups ->
            group = filter (fun nt => category_key category nt =? key)
                      (map_values nodeTypes)).
  { intros key group Hin.
    rewrite <- (group_of_In key group groups Hnd Hin). apply Hgroup. }
  split; [exact Hnd|]. split; [|split].
  - intros key group Hin. split; [|apply Hmember, Hin].
    assert (Hkey : In key (map fst groups))
      by (apply in_map_iff; exists (key, group); auto).
    apply Hkeys in Hkey as [[]|(nt & Hnt & Heq)].
    rewrite (Hmember key group Hin). intros Hempty.
    assert (Hin' : In nt (filter (fun nt0 => category_key category nt0 =? key)
                            (map_values nodeTypes))).
    { apply filter_In. split; [exact Hnt | apply String.eqb_eq, Heq]. }
    rewrite Hempty in Hin'. exact Hin'.
  - intros nt Hnt.
    assert (Hkey : In (category_key category nt) (map fst groups)).
    { apply Hkeys. right. exists nt. auto. }
    apply in_map_iff in Hkey as [[key group] [Hfst Hin]]. cbn in Hfst.
    subst key. exists group. split; [exact Hin|].
    rewrite (Hmember _ group Hin). apply filter_In.
    split; [exact Hnt | apply String.eqb_refl].
  - intros nt key group Hin Hnt. rewrite (Hmember key group Hin) in Hnt.
    apply filter_In in Hnt as [_ Hnt]. apply String.eqb_eq, Hnt.
Qed.

(** ** Editing nodes *)

Lemma map_set_fresh {V : Type} (k : string) (v : V) (m : JsMap V) :
  map_get k m = None -> map_set k v m = (m ++ [(k, v)])%list.
Proof.
  induction m as [|[k0 v0] m IH]; cbn; [reflexivity|].
  destruct (k0 =? k); [discriminate|]. intros H. rewrite (IH H). reflexivity.
Qed.

Lemma map_set_present {V : Type} (k : string) (v v0 : V) (m : JsMap V) :
  map_get k m = Some v0 ->
  map_keys (map_set k v m) = map_keys m
  /\ List.length (map_set k v m) = List.length m.
Proof.
  unfold map_keys. induction m as [|[k1 v1] m IH]; cbn; [discriminate|].
  destruct (String.eqb_spec k1 k) as [->|Hk]; cbn; [auto|].
  intros H. destruct (IH H) as [H1 H2]. rewrite H1, H2. auto.
Qed.

Lemma map_get_None_keys {V : Type} (k : string) (m : JsMap V) :
  map_get k m = None <-> ~ In k (map_keys m).
Proof.
  unfold map_keys. induction m as [|[k0 v0] m IH]; cbn; [intuition|].
  destruct (String.eqb_spec k0 k) as [->|Hk].
  - split; [discriminate | intros H; exfalso; apply H; auto].
  - rewrite IH. intuition.
Qed.

Lemma map_delete_absent {V : Type} (k : string) (m : JsMap V) :
  map_get k m = None -> map_delete k m = m.
Proof.
  unfold map_delete. induction m as [|[k0 v0] m IH]; cbn; [reflexivity|].
  destruct (k0 =? k); [discriminate|]. cbn. intros H. rewrite (IH H).
  reflexivity.
Qed.

Lemma map_get_delete_other {V : Type} (k k' : string) (m : JsMap V) :
  k' <> k -> map_get k' (map_delete k m) = map_get k' m.
Proof.
  intros Hne. unfold map_delete.
  induction m as [|[k0 v0] m IH]; cbn; [reflexivity|].
  destruct (String.eqb_spec k0 k) as [->|Hk]; cbn.
  - destruct (String.eqb_spec k k'); [congruence | exact IH].
  - rewrite IH. reflexivity.
Qed.

Lemma has_element_In (i : string) (l : list string) :
  has_element i l = true <-> In i l.
Proof.
  unfold has_element. rewrite existsb_exists. split.
  - intros (j & Hin & Heq). apply String.eqb_eq in Heq. subst. exact Hin.
  - intros Hin. exists i. split; [exact Hin | apply String.eqb_refl].
Qed.

Lemma assign_then {A} (f : Editor -> Editor) (m : M A) (w : World) :
  (assign f ;; m) w = m (mkWorld (f (this w)) (document w) (effects w)).
Proof. reflexivity. Qed.

(** Rendering a node changes nothing of the editor; rendering and marking
    leave the graph and the workflow as they are. *)
Ltac same_graph_auto :=
  preserves_by same_graph_refl same_graph_trans
    ltac:(unfold same_graph; cbn; repeat split; reflexivity).

Lemma renderNode_then_mark_same_graph (node : Node) :
  preserves same_graph (renderNode node ;; markDirty).
Proof. same_graph_auto. Qed.

Lemma renderConnection_then_mark_same_graph (connection : Connection) :
  preserves same_graph (renderConnection connection ;; markDirty).
Proof. same_graph_auto. Qed.

Lemma updateNodeProperty_run (nodeId property value : string) (node : Node)
  (w : World) :
  map_get nodeId (nodes (this w)) = Some node ->
  updateNodeProperty nodeId property value w
  = (assign (fun e => with_nodes
                        (map_set nodeId (edited_node property value node)
                           (nodes e)) e) ;;
     renderNode (edited_node property value node) ;;
     markDirty) w.
Proof.
  intros H. unfold updateNodeProperty, bind at 1, get_this. rewrite H.
  reflexivity.
Qed.

(** X4. [updateNodeProperty] edits one node.  For an id that is not in the
    collection it does nothing, not even mark the editor dirty.  For a node
    of the collection it replaces that node where it stands: the keys and
    every other node are as before, and so are the connections and the
    workflow; of the node, 'name' sets the name and leaves the
    configuration, any other property is assigned in the configuration
    (an empty one if the node had none) and leaves the name.  The
    assignment sets that configuration entry to the string and leaves the
    other entries, but for ['__proto__'] on a configuration without an
    entry of that name of its own: there it sets nothing. *)
Theorem updateNodeProperty_edits_one_node (nodeId property value : string)
  (w : World) :
  (map_get nodeId (nodes (this w)) = None ->
   updateNodeProperty nodeId property value w = (Normal tt, w))
  /\ (forall node, map_get nodeId (nodes (this w)) = Some node ->
      exists node',
        nodes (this (snd (updateNodeProperty nodeId property value w)))
        = map_set nodeId node' (nodes (this w))
        /\ map_get nodeId
             (nodes (this (snd (updateNodeProperty nodeId property value w))))
           = Some node'
        /\ map_keys
             (nodes (this (snd (updateNodeProperty nodeId property value w))))
           = map_keys (nodes (this w))
        /\ (forall k, k <> nodeId ->
              map_get k
                (nodes (this (snd (updateNodeProperty nodeId property value
                                     w))))
              = map_get k (nodes (this w)))
        /\ connections
             (this (snd (updateNodeProperty nodeId property value w)))
           = connections (this w)
        /\ workflow (this (snd (updateNodeProperty nodeId property value w)))
           = workflow (this w)
        /\ node_id node' = node_id node
        /\ node_type node' = node_type node
        /\ node_position node' = node_position node
        /\ node_status node' = node_status node
        /\ (property = "name" ->
            node_name node' = value /\ node_config node' = node_config node)
        /\ (property <> "name" ->
            let config := match node_config node with
                          | Some c => c
                          | None => []
                          end in
            node_name node' = node_name node
            /\ exists config',
                 node_config node' = Some config'
                 /\ (property <> "__proto__"
                     \/ props_has property config = true ->
                     props_get property config' = JStr value
                     /\ forall q, q <> property ->
                          props_get q config' = props_get q config)
                 /\ (property = "__proto__" ->
                     props_has property config = false ->
                     config' = config))).
Proof.
  split.
  - intros Hnone. unfold updateNodeProperty, bind, get_this. rewrite Hnone.
    reflexivity.
  - intros node Hsome. exists (edited_node property value node).
    rewrite (updateNodeProperty_run nodeId property value node w Hsome).
    rewrite assign_then.
    destruct (renderNode_then_mark_same_graph
                (edited_node property value node)
                (mkWorld (with_nodes
                            (map_set nodeId (edited_node property value node)
                               (nodes (this w)))
                            (this w)) (document w) (effects w)))
      as (Hn & Hc & Hw & _).
    cbn [this nodes connections workflow with_nodes] in Hn, Hc, Hw.
    rewrite Hn.
    split; [reflexivity|]. split; [apply map_get_set_same|].
    split; [apply (map_set_present nodeId _ node _ Hsome)|].
    split; [intros k Hk; apply map_get_set_other; exact Hk|].
    split; [exact Hc|]. split; [exact Hw|].
    unfold edited_node.
    split; [destruct (property =? "name"); reflexivity|].
    split; [destruct (property =? "name"); reflexivity|].
    split; [destruct (property =? "name"); reflexivity|].
    split; [destruct (property =? "name"); reflexivity|].
    split.
    + intros ->. cbn. split; reflexivity.
    + intros Hname. apply String.eqb_neq in Hname. rewrite Hname. cbn.
      split; [reflexivity|]. eexists. split; [reflexivity|]. split.
      * intros Hassigns. rewrite (props_set_assigns _ _ _ Hassigns).
        split; [apply props_get_put_same|].
        intros q Hq. apply props_get_put_other, Hq.
      * intros -> Hown. apply props_set_proto, Hown.
Qed.

Lemma addNode_graph (r : string) (nodeType : NodeType) (position : Point.t)
  (w : World) :
  nodes (this (snd (addNode r nodeType position w)))
  = map_set (generateId r)
      (mkNode (generateId r) (nt_name nodeType) (nt_display_name nodeType)
         position (Some []) (Some "pending"))
      (nodes (this w))
  /\ connections (this (snd (addNode r nodeType position w)))
     = connections (this w)
  /\ workflow (this (snd (addNode r nodeType position w)))
     = workflow (this w).
Proof.
  unfold addNode. unfold bind at 1, assign, modify_this.
  match goal with
  | |- context [bind (renderNode ?n) _ ?w0] =>
      pose proof (renderNode_then_mark_same_graph n w0) as (Hn & Hc & Hw & _)
  end.
  cbn [snd fst] in *. unfold bind in *.
  match goal with
  | |- context [renderNode ?n ?w0] =>
      destruct (renderNode n w0) as [[[]|e] w1]
  end; cbn in *; rewrite Hn, Hc, Hw; repeat split.
Qed.

(** X5. [addNode] stores a pending node of the given type, with an empty
    configuration, under the generated id: a lookup of that id finds it, the
    other nodes, the connections and the workflow are as before, and when
    it returns it returns the id.  A fresh id is appended after the nodes
    there are; an id that collides with a node of the collection replaces
    that node where it stands, so the collection does not grow. *)
Theorem addNode_stores_pending_node (r : string) (nodeType : NodeType)
  (position : Point.t) (w : World) :
  let nodeId := generateId r in
  let node := mkNode nodeId (nt_name nodeType) (nt_display_name nodeType)
                position (Some []) (Some "pending") in
  let w' := snd (addNode r nodeType position w) in
  map_get nodeId (nodes (this w')) = Some node
  /\ (forall k, k <> nodeId ->
        map_get k (nodes (this w')) = map_get k (nodes (this w)))
  /\ connections (this w') = connections (this w)
  /\ workflow (this w') = workflow (this w)
  /\ (forall i, fst (addNode r nodeType position w) = Normal i -> i = nodeId)
  /\ (map_get nodeId (nodes (this w)) = None ->
      nodes (this w') = (nodes (this w) ++ [(nodeId, node)])%list)
  /\ (forall old, map_get nodeId (nodes (this w)) = Some old ->
      map_keys (nodes (this w')) = map_keys (nodes (this w))
      /\ List.length (nodes (this w')) = List.length (nodes (this w))).
Proof.
  intros nodeId node w'.
  destruct (addNode_graph r nodeType position w) as (Hn & Hc & Hw).
  fold nodeId in Hn. fold node in Hn. fold w' in Hn, Hc, Hw.
  rewrite Hn.
  split; [apply map_get_set_same|].
  split; [intros k Hk; apply map_get_set_other; exact Hk|].
  split; [exact Hc|]. split; [exact Hw|]. split; [|split].
  - intros i. unfold addNode. fold nodeId. fold node.
    unfold bind, assign, modify_this, markDirty, ret.
    destruct (renderNode node _) as [[[]|e] w1]; cbn; congruence.
  - apply map_set_fresh.
  - intros old Hold. apply (map_set_present nodeId node old _ Hold).
Qed.

(** X6. A drop of an unknown node type changes nothing.  A drop of a known one,
    on a page with its canvas, is [addNode] of that type at the drop point
    measured from the corner of the canvas: the new node is stored with
    that position. *)
Theorem onDrop_adds_node_at_drop_point (r : string) (ev : DropEvent)
  (w : World) :
  (map_get (drop_text ev) (nodeTypes (this w)) = None ->
   onDrop r ev w = (Normal tt, w))
  /\ (forall nodeType,
        map_get (drop_text ev) (nodeTypes (this w)) = Some nodeType ->
        element (canvas (this w)) = true ->
        map_get (generateId r) (nodes (this (snd (onDrop r ev w))))
        = Some (mkNode (generateId r) (nt_name nodeType)
                  (nt_display_name nodeType)
                  (Point.mk
                     (drop_clientX ev - Rect.left (canvas_rect (document w)))
                     (drop_clientY ev - Rect.top (canvas_rect (document w))))
                  (Some []) (Some "pending"))
        /\ connections (this (snd (onDrop r ev w))) = connections (this w)).
Proof.
  split.
  - intros Hnone. unfold onDrop, bind, get_this. rewrite Hnone. reflexivity.
  - intros nodeType Hsome Hcanvas.
    assert (Hrun : snd (onDrop r ev w)
                   = snd (addNode r nodeType
                            (Point.mk
                               (drop_clientX ev
                                - Rect.left (canvas_rect (document w)))
                               (drop_clientY ev
                                - Rect.top (canvas_rect (document w))))
                            w)).
    { unfold onDrop, bind at 1, get_this. rewrite Hsome, Hcanvas. cbn [negb].
      unfold bind, get_document.
      destruct (addNode r nodeType _ w) as [[i|e] w1]; reflexivity. }
    rewrite Hrun.
    destruct (addNode_graph r nodeType
                (Point.mk
                   (drop_clientX ev - Rect.left (canvas_rect (document w)))
                   (drop_clientY ev - Rect.top (canvas_rect (document w))))
                w) as (Hn & Hc & _).
    rewrite Hn, Hc. split; [apply map_get_set_same | reflexivity].
Qed.

(** ** Dragging a node *)

Ltac silent_auto :=
  preserves_by silent_refl silent_trans
    ltac:(unfold silent; cbn; split; reflexivity).

Lemma renderNode_same_graph (node : Node) :
  preserves same_graph (renderNode node).
Proof. same_graph_auto. Qed.

Lemma bind_run {A B} (m : M A) (k : A -> M B) (w : World) :
  (x <- m ;; k x) w
  = match m w with
    | (Normal a, w1) => k a w1
    | (Throw e, w1) => (Throw e, w1)
    end.
Proof. reflexivity. Qed.

Lemma onNodeDrag_silent (ev : MouseEvent) : preserves silent (onNodeDrag ev).
Proof. silent_auto. Qed.

Lemma onNodeDrag_run (ev : MouseEvent) (start : DragStart) (w : World) :
  isDragging (canvas (this w)) = true ->
  dragStart (canvas (this w)) = Some start ->
  onNodeDrag ev w
  = (match map_get (ds_nodeId start) (nodes (this w)) with
     | Some node =>
         assign (fun e => with_nodes
                            (map_set (ds_nodeId start)
                               (moved_node (clientX ev - ds_x start)
                                  (clientY ev - ds_y start) node)
                               (nodes e)) e) ;;
         renderNode (moved_node (clientX ev - ds_x start)
                       (clientY ev - ds_y start) node)
     | None => ret tt
     end ;;
     assign_canvas
       (fun c => with_drag (isDragging c)
                   (Some (mkDragStart (clientX ev) (clientY ev)
                            (ds_nodeId start))) c)) w.
Proof.
  intros Hdrag Hstart. unfold onNodeDrag, bind at 1, get_this.
  rewrite Hdrag, Hstart. reflexivity.
Qed.

(** X7. While a node is dragged, a mouse move moves that node by the distance
    the mouse went since the last move, and remembers the new mouse
    position; the other nodes and the connections stay.  It marks nothing
    dirty and has no effect outside the page: only the end of the drag
    marks.  Without a drag under way, and so after [onNodeDragEnd], a mouse
    move changes nothing. *)
Theorem onNodeDrag_moves_the_dragged_node (ev : MouseEvent) (w : World) :
  (isDragging (canvas (this w)) = false \/ dragStart (canvas (this w)) = None ->
   onNodeDrag ev w = (Normal tt, w))
  /\ (forall ev',
        onNodeDrag ev (snd (onNodeDragEnd ev' w))
        = (Normal tt, snd (onNodeDragEnd ev' w)))
  /\ isDirty (this (snd (onNodeDrag ev w))) = isDirty (this w)
  /\ effects (snd (onNodeDrag ev w)) = effects w
  /\ (forall start,
        isDragging (canvas (this w)) = true ->
        dragStart (canvas (this w)) = Some start ->
        connections (this (snd (onNodeDrag ev w))) = connections (this w)
        /\ (forall node,
              map_get (ds_nodeId start) (nodes (this w)) = Some node ->
              nodes (this (snd (onNodeDrag ev w)))
              = map_set (ds_nodeId start)
                  (moved_node (clientX ev - ds_x start)
                     (clientY ev - ds_y start) node)
                  (nodes (this w)))
        /\ (map_get (ds_nodeId start) (nodes (this w)) = None ->
            nodes (this (snd (onNodeDrag ev w))) = nodes (this w))
        /\ (fst (onNodeDrag ev w) = Normal tt ->
            dragStart (canvas (this (snd (onNodeDrag ev w))))
            = Some (mkDragStart (clientX ev) (clientY ev) (ds_nodeId start))
            /\ isDragging (canvas (this (snd (onNodeDrag ev w)))) = true)).
Proof.
  split; [|split; [|split; [|split]]].
  - intros [H|H]; unfold onNodeDrag, bind, get_this; rewrite H;
      [|destruct (isDragging (canvas (this w)))]; reflexivity.
  - intros ev'. reflexivity.
  - apply (onNodeDrag_silent ev w).
  - apply (onNodeDrag_silent ev w).
  - intros start Hdrag Hstart.
    rewrite (onNodeDrag_run ev start w Hdrag Hstart).
    destruct (map_get (ds_nodeId start) (nodes (this w))) as [node|] eqn:Hget.
    + rewrite (bind_run _ _ w), assign_then.
      pose proof (renderNode_same_graph
                    (moved_node (clientX ev - ds_x start)
                       (clientY ev - ds_y start) node)
                    (mkWorld
                       (with_nodes
                          (map_set (ds_nodeId start)
                             (moved_node (clientX ev - ds_x start)
                                (clientY ev - ds_y start) node)
                             (nodes (this w)))
                          (this w)) (document w) (effects w)))
        as (Hn & Hc & _).
      assert (Hcanvas : canvas (this (snd (renderNode
                    (moved_node (clientX ev - ds_x start)
                       (clientY ev - ds_y start) node)
                    (mkWorld
                       (with_nodes
                          (map_set (ds_nodeId start)
                             (moved_node (clientX ev - ds_x start)
                                (clientY ev - ds_y start) node)
                             (nodes (this w)))
                          (this w)) (document w) (effects w)))))
                        = canvas (this w)).
      { unfold renderNode, bind, get_document, get_this, when,
          modify_document. cbn.
        destruct (has_element _ _); cbn; [reflexivity|].
        destruct (nodesLayer (this w)); reflexivity. }
      destruct (renderNode _ _) as [[[]|e] w1]; cbn in Hn, Hc, Hcanvas |- *;
        rewrite ?Hn, ?Hc, ?Hcanvas, ?Hdrag;
        (split; [reflexivity|]); (split; [intros ? [= <-]; reflexivity|]);
        (split; [discriminate|]); intros; try discriminate; auto.
    + cbn. rewrite Hdrag. repeat split; try discriminate; reflexivity.
Qed.

(** ** Adding and deleting connections *)

(** X8. [addConnection] checks nothing: it stores the connection under the
    generated id whatever the two node ids are, also when they name no node
    and also when they are the same node, and leaves the nodes alone.  When
    an end is not a node of the collection nothing is drawn: the document
    stays as it is, and the editor is marked dirty all the same. *)
Theorem addConnection_stores_unchecked (r s : string) (sh : option string)
  (t : string) (th : option string) (w : World) :
  connections (this (snd (addConnection r s sh t th w)))
  = map_set (generateId r) (mkConnection (generateId r) s sh t th)
      (connections (this w))
  /\ map_get (generateId r)
       (connections (this (snd (addConnection r s sh t th w))))
     = Some (mkConnection (generateId r) s sh t th)
  /\ nodes (this (snd (addConnection r s sh t th w))) = nodes (this w)
  /\ (map_get s (nodes (this w)) = None \/ map_get t (nodes (this w)) = None ->
      addConnection r s sh t th w
      = (Normal tt,
         mkWorld
           (with_isDirty true
              (with_connections
                 (map_set (generateId r)
                    (mkConnection (generateId r) s sh t th)
                    (connections (this w)))
                 (this w)))
           (document w) (effects w))).
Proof.
  pose proof (addConnection_connections r s sh t th w) as Hc.
  split; [exact Hc|]. split; [rewrite Hc; apply map_get_set_same|]. split.
  - unfold addConnection. rewrite assign_then.
    apply (renderConnection_then_mark_same_graph
             (mkConnection (generateId r) s sh t th)
             (mkWorld
                (with_connections
                   (map_set (generateId r)
                      (mkConnection (generateId r) s sh t th)
                      (connections (this w)))
                   (this w))
                (document w) (effects w))).
  - intros Hmissing. unfold addConnection. rewrite assign_then.
    unfold renderConnection, bind, get_this, markDirty, assign, modify_this.
    cbn. destruct Hmissing as [H|H]; rewrite H;
      [|destruct (map_get s (nodes (this w)))]; reflexivity.
Qed.

Lemma deleteNode_same_selectedConnection (n : string) :
  preserves same_selectedConnection (deleteNode n).
Proof.
  assert (R_refl : forall w, same_selectedConnection w w) by reflexivity.
  assert (R_trans : forall w1 w2 w3, same_selectedConnection w1 w2 ->
                      same_selectedConnection w2 w3 ->
                      same_selectedConnection w1 w3)
    by (unfold same_selectedConnection; congruence).
  preserves_structure; preserves_leaves ltac:(reflexivity).
Qed.

Lemma deleteNode_clears_selectedNode (n : string) (w : World) :
  selectedNode (this (snd (deleteNode n w))) = None.
Proof.
  destruct (forEach_deleteConnection
              (map fst (filter (fun entry => incident n (snd entry))
                          (connections (this w)))) w)
    as [w1 (Hrun & _)].
  unfold deleteNode, hideProperties, bind, assign, modify_this,
    modify_document, get_document, get_this, markDirty.
  rewrite Hrun. cbn.
  destruct (no_selection (document w1)), (node_properties (document w1)),
    (connection_properties (document w1)); reflexivity.
Qed.

(** X9. Deleting does not look at the selection of connections.
    [deleteConnection] removes its connection, and only it, and marks the
    editor dirty, also when there was no such connection; it leaves both
    selections as they are, so a selected connection that is deleted stays
    selected.  [deleteNode] clears the node selection whichever node it
    deletes, and leaves the selected connection alone. *)
Theorem deleting_leaves_connection_selected (w : World) :
  (forall i,
      let w' := snd (deleteConnection i w) in
      fst (deleteConnection i w) = Normal tt
      /\ map_get i (connections (this w')) = None
      /\ (forall k, k <> i ->
            map_get k (connections (this w'))
            = map_get k (connections (this w)))
      /\ (map_get i (connections (this w)) = None ->
          connections (this w') = connections (this w))
      /\ nodes (this w') = nodes (this w)
      /\ isDirty (this w') = true
      /\ selectedNode (this w') = selectedNode (this w)
      /\ selectedConnection (this w') = selectedConnection (this w))
  /\ (forall i, selectedConnection (this w) = Some i ->
        selectedConnection (this (snd (deleteConnection i w))) = Some i
        /\ map_get i (connections (this (snd (deleteConnection i w)))) = None)
  /\ (forall n,
        selectedNode (this (snd (deleteNode n w))) = None
        /\ selectedConnection (this (snd (deleteNode n w)))
           = selectedConnection (this w)).
Proof.
  split; [|split].
  - intros i w'. subst w'. rewrite deleteConnection_run. cbn.
    split; [reflexivity|]. split; [apply map_get_delete_same|].
    split; [intros k Hk; apply map_get_delete_other; exact Hk|].
    split; [apply map_delete_absent|]. repeat split.
  - intros i Hsel. rewrite deleteConnection_run. cbn.
    split; [exact Hsel | apply map_get_delete_same].
  - intros n. split; [apply deleteNode_clears_selectedNode|].
    apply (deleteNode_same_selectedConnection n w).
Qed.

(** ** Testing and deploying *)














Lemma deployWorkflow_parsed_keeps (ok : bool) (settled : JsonSettled) :
  preserves
    (fun w w' =>
       nodes (this w') = nodes (this w)
       /\ connections (this w') = connections (this w)
       /\ options_workflowId (this w') = options_workflowId (this w)
       /\ isDirty (this w') = isDirty (this w)
       /\ isLoading (this w') = isLoading (this w)
       /\ document w' = document w)
    (deployWorkflow_parsed ok settled).
Proof.
  assert (R_refl : forall w : World,
             nodes (this w) = nodes (this w)
             /\ connections (this w) = connections (this w)
             /\ options_workflowId (this w) = options_workflowId (this w)
             /\ isDirty (this w) = isDirty (this w)
             /\ isLoading (this w) = isLoading (this w)
             /\ document w = document w) by (intros; repeat split).
  assert (R_trans : forall w1 w2 w3 : World,
             (nodes (this w2) = nodes (this w1)
              /\ connections (this w2) = connections (this w1)
              /\ options_workflowId (this w2) = options_workflowId (this w1)
              /\ isDirty (this w2) = isDirty (this w1)
              /\ isLoading (this w2) = isLoading (this w1)
              /\ document w2 = document w1) ->
             (nodes (this w3) = nodes (this w2)
              /\ connections (this w3) = connections (this w2)
              /\ options_workflowId (this w3) = options_workflowId (this w2)
              /\ isDirty (this w3) = isDirty (this w2)
              /\ isLoading (this w3) = isLoading (this w2)
              /\ document w3 = document w2) ->
             nodes (this w3) = nodes (this w1)
             /\ connections (this w3) = connections (this w1)
             /\ options_workflowId (this w3) = options_workflowId (this w1)
             /\ isDirty (this w3) = isDirty (this w1)
             /\ isLoading (this w3) = isLoading (this w1)
             /\ document w3 = document w1)
    by (intros w1 w2 w3 (?&?&?&?&?&?) (?&?&?&?&?&?);
        repeat split; congruence).
  preserves_structure; preserves_leaves ltac:(repeat split).
Qed.

(** X11. What an OK answer to a deploy does depends on [this.workflow], which
    only a save of this page or [updateWorkflowProperty] sets.  When it is
    an object, its [status] becomes 'active', its other properties stay and
    the success notification is shown.  When it is [null] or [undefined],
    as on a page that has not saved yet, or a primitive, the assignment
    throws: the [TypeError] is logged and 'Failed to deploy workflow' is
    shown although the server answered OK.  In every case the last stretch
    returns and leaves the nodes, the connections, the workflow id, the
    dirty and the busy flag and the document as they are. *)
Theorem deployWorkflow_needs_workflow_object (result : jsval) (w : World) :
  (forall ps,
      workflow (this w) = JObj ps ->
      deployWorkflow_parsed true (Some result) w
      = (Normal tt,
         mkWorld
           (with_workflow (JObj (props_set "status" (JStr "active") ps))
              (this w))
           (document w)
           (effects w
            ++ [ShowNotification "Workflow deployed successfully"
                  "success"])%list))
  /\ (match workflow (this w) with
      | JObj _ | JArr _ => False
      | JUndefined | JNull | JBool _ | JNum _ | JStr _ => True
      end ->
      deployWorkflow_parsed true (Some result) w
      = (Normal tt,
         mkWorld (this w) (document w)
           (effects w
            ++ [ConsoleError "Deploy error:" TypeError;
                ShowNotification "Failed to deploy workflow" "error"])%list))
  /\ (forall ok settled,
        let w' := snd (deployWorkflow_parsed ok settled w) in
        fst (deployWorkflow_parsed ok settled w) = Normal tt
        /\ nodes (this w') = nodes (this w)
        /\ connections (this w') = connections (this w)
        /\ options_workflowId (this w') = options_workflowId (this w)
        /\ isDirty (this w') = isDirty (this w)
        /\ isLoading (this w') = isLoading (this w)
        /\ document w' = document w).
Proof.
  split; [|split].
  - intros ps Hwf.
    unfold deployWorkflow_parsed, try_catch_finally, after_json, bind,
      get_this, set_prop, showNotification, assign, modify_this, emit, ret.
    cbn. rewrite Hwf. cbn. reflexivity.
  - intros Hwf.
    unfold deployWorkflow_parsed, try_catch_finally, deployWorkflow_catch,
      after_json, bind, get_this, set_prop, showNotification, assign,
      modify_this, emit, ret, throw.
    cbn. destruct (workflow (this w)); try contradiction; cbn;
      rewrite <- ?app_assoc; destruct w; reflexivity.
  - intros ok settled w'. subst w'.
    split; [|apply (deployWorkflow_parsed_keeps ok settled w)].
    unfold deployWorkflow_parsed, try_catch_finally, deployWorkflow_catch,
      after_json, get_prop, bind, get_this, set_prop, showNotification,
      assign, modify_this, emit, ret, throw.
    destruct settled as [r|]; [destruct ok|]; cbn; try reflexivity.
    + destruct (workflow (this w)); reflexivity.
    + destruct (nullish r); reflexivity.
Qed.

(** ** The loading overlay *)

Lemma same_overlay_refl w : same_overlay w w.
Proof. reflexivity. Qed.

Lemma same_overlay_trans w1 w2 w3 :
  same_overlay w1 w2 -> same_overlay w2 w3 -> same_overlay w1 w3.
Proof. unfold same_overlay. congruence. Qed.

Ltac same_overlay_auto :=
  preserves_by same_overlay_refl same_overlay_trans ltac:(reflexivity).

Lemma run_op_same_overlay (op : Op) : preserves same_overlay (run_op op).
Proof. destruct op; same_overlay_auto. Qed.

Lemma deploy_called_same_overlay (confirmed : bool) :
  preserves same_overlay (deployWorkflow confirmed).
Proof. same_overlay_auto. Qed.

Lemma deploy_fetched_same_overlay (settled : FetchSettled) :
  preserves same_overlay (deployWorkflow_fetched settled).
Proof. same_overlay_auto. Qed.

Lemma deploy_parsed_same_overlay (ok : bool) (settled : JsonSettled) :
  preserves same_overlay (deployWorkflow_parsed ok settled).
Proof. same_overlay_auto. Qed.

Lemma hideLoading_down (w : World) : overlay_down (snd (hideLoading w)).
Proof.
  unfold overlay_down, hideLoading, bind, get_document, modify_document.
  cbn. destruct (loading_overlay (document w)) eqn:H; cbn;
    [|rewrite H]; discriminate.
Qed.

Lemma saveWorkflow_finally_down (w : World) :
  overlay_down (snd (saveWorkflow_finally w)).
Proof.
  unfold saveWorkflow_finally. rewrite assign_then.
  apply hideLoading_down.
Qed.

Lemma try_until_await_ends {A} (P : World -> Prop) (segment : M A)
  (handler : Exn -> M unit) (fin : M unit) :
  (forall w, P (snd (fin w))) ->
  forall w,
    match try_until_await segment handler fin w with
    | (Normal (Some _), _) => True
    | (_, w') => P w'
    end.
Proof.
  intros Hfin w. unfold try_until_await.
  destruct (segment w) as [[a|e] w1]; [exact I|].
  pose proof (try_catch_finally_ends P (throw e) handler fin Hfin w1) as H.
  destruct (try_catch_finally (throw e) handler fin w1) as [[[]|e'] w2];
    exact H.
Qed.

Lemma parsed_overlay (m : Method) (ok : bool) (settled : JsonSettled)
  (w : World) :
  overlay_after m w (snd (parsed m ok settled w)).
Proof.
  destruct m; cbn [overlay_after parsed].
  - apply (try_catch_finally_ends overlay_down), saveWorkflow_finally_down.
  - apply (try_catch_finally_ends overlay_down), hideLoading_down.
  - apply deploy_parsed_same_overlay.
Qed.

Lemma fetched_overlay (m : Method) (settled : FetchSettled) (w : World) :
  match fetched m settled w with
  | (Normal (Some _), w') => w' = w
  | (_, w') => overlay_after m w w'
  end.
Proof.
  destruct settled as [|ok]; [|destruct m; reflexivity].
  destruct m; cbn [overlay_after fetched].
  - pose proof (try_until_await_ends overlay_down (after_fetch Rejected)
                  saveWorkflow_catch saveWorkflow_finally
                  saveWorkflow_finally_down w) as H.
    unfold saveWorkflow_fetched.
    destruct (try_until_await _ _ _ w) as [[[a|]|e] w'] eqn:Hrun;
      [|exact H|exact H].
    unfold try_until_await in Hrun. cbn in Hrun.
    try destruct (loading_overlay (document w)); discriminate.
  - pose proof (try_until_await_ends overlay_down (after_fetch Rejected)
                  testWorkflow_catch hideLoading hideLoading_down w) as H.
    unfold testWorkflow_fetched.
    destruct (try_until_await _ _ _ w) as [[[a|]|e] w'] eqn:Hrun;
      [|exact H|exact H].
    unfold try_until_await in Hrun. cbn in Hrun.
    try destruct (loading_overlay (document w)); discriminate.
  - pose proof (deploy_fetched_same_overlay Rejected w) as H.
    destruct (deployWorkflow_fetched Rejected w) as [[[a|]|e] w'] eqn:Hrun;
      [|exact H|exact H].
    unfold deployWorkflow_fetched, try_until_await in Hrun. cbn in Hrun.
    try destruct (loading_overlay (document w)); discriminate.
Qed.

Lemma called_overlay (m : Method) (confirmed : bool) (w : World) :
  match called m confirmed w with
  | (Normal (Some _), w') => shows_overlay (mkTask m AwaitFetch) = true
                             \/ same_overlay w w'
  | (_, w') => same_overlay w w'
  end.
Proof.
  destruct m; cbn [called].
  - destruct (isLoading (this w)) eqn:Hbusy.
    + rewrite (saveWorkflow_busy w Hbusy). reflexivity.
    + destruct (saveWorkflow_idle w Hbusy) as (w' & r & Hrun & _).
      rewrite Hrun. left. reflexivity.
  - unfold testWorkflow, bind at 1, get_this.
    destruct (truthy (options_workflowId (this w))); cbn [negb].
    + unfold showLoading, try_until_await, getCsrfToken, bind,
        modify_document, get_this, get_document, emit, ret. cbn.
      destruct (loading_overlay (document w)); cbn; left; reflexivity.
    + reflexivity.
  - pose proof (deploy_called_same_overlay confirmed w) as H.
    destruct (deployWorkflow confirmed w) as [[[a|]|e] w'];
      [right; exact H|exact H|exact H].
Qed.

Lemma filter_app_nil {A} (f : A -> bool) (l : list A) (a : A) :
  filter f (l ++ [a]) = [] -> filter f l = [] /\ f a = false.
Proof.
  rewrite filter_app. intros H. apply app_eq_nil in H as [Hl Ha].
  split; [exact Hl|]. cbn in Ha. destruct (f a); [discriminate|reflexivity].
Qed.

Lemma filter_replace_nth_nil {A} (f : A -> bool) (l : list A) (i : nat)
  (a b : A) :
  nth_error l i = Some a -> f b = f a ->
  filter f (replace_nth i b l) = [] -> filter f l = [].
Proof.
  revert i. induction l as [|x l IH]; intros [|i] Hnth Hf; cbn in *;
    try discriminate.
  - injection Hnth as ->. rewrite Hf.
    destruct (f a); [discriminate|trivial].
  - destruct (f x); [discriminate|]. apply (IH i Hnth Hf).
Qed.

Lemma filter_remove_nth_nil {A} (f : A -> bool) (l : list A) (i : nat)
  (a : A) :
  nth_error l i = Some a -> f a = false ->
  filter f (remove_nth i l) = [] -> filter f l = [].
Proof.
  revert i. induction l as [|x l IH]; intros [|i] Hnth Hf; cbn in *;
    try discriminate.
  - injection Hnth as ->. rewrite Hf. trivial.
  - destruct (f x); [discriminate|]. apply (IH i Hnth Hf).
Qed.

Lemma page_step_overlay (ev : Event) (p : Page) :
  overlay_follows_tasks p -> overlay_follows_tasks (page_step ev p).
Proof.
  unfold overlay_follows_tasks, overlay_down. intros Hp.
  destruct ev as [op|m confirmed|i settled|i settled]; cbn [page_step].
  - cbn [world tasks]. intros Hnone.
    rewrite (run_op_same_overlay op (world p)). apply Hp, Hnone.
  - pose proof (called_overlay m confirmed (world p)) as H.
    destruct (called m confirmed (world p)) as [[[a|]|e] w'];
      cbn [world tasks]; intros Hnone.
    + apply filter_app_nil in Hnone as [Hnone Hm].
      destruct H as [H|H]; [destruct m; discriminate|].
      rewrite H. apply Hp, Hnone.
    + rewrite H. apply Hp, Hnone.
    + rewrite H. apply Hp, Hnone.
  - destruct (nth_error (tasks p) i) as [[m [|ok]]|] eqn:Hnth; try exact Hp.
    pose proof (fetched_overlay m settled (world p)) as H.
    destruct (fetched m settled (world p)) as [[[a|]|e] w'];
      cbn [world tasks]; intros Hnone.
    + subst w'. apply Hp.
      apply (filter_replace_nth_nil shows_overlay (tasks p) i
               (mkTask m AwaitFetch) (mkTask m a) Hnth);
        [reflexivity|exact Hnone].
    + destruct m; try exact H; cbn in H; rewrite H; apply Hp;
        apply (filter_remove_nth_nil shows_overlay (tasks p) i _ Hnth);
        [reflexivity|exact Hnone].
    + destruct m; try exact H; cbn in H; rewrite H; apply Hp;
        apply (filter_remove_nth_nil shows_overlay (tasks p) i _ Hnth);
        [reflexivity|exact Hnone].
  - destruct (nth_error (tasks p) i) as [[m [|ok]]|] eqn:Hnth; try exact Hp.
    pose proof (parsed_overlay m ok settled (world p)) as H.
    cbn [world tasks]. intros Hnone.
    destruct m; try exact H; unfold overlay_after in H; rewrite H; apply Hp;
      apply (filter_remove_nth_nil shows_overlay (tasks p) i _ Hnth);
      [reflexivity|exact Hnone].
Qed.

(** X12. The loading overlay does not stay up.  On a page where the overlay is
    down while no save and no test is under way, it is down again whenever
    none is under way, whatever handlers ran, whichever calls were made and
    however their requests ended: every way out of [saveWorkflow] and
    [testWorkflow] passes [hideLoading], and nothing else shows the
    overlay. *)
Theorem loading_overlay_does_not_stay_up (evs : list Event) (p : Page) :
  overlay_follows_tasks p ->
  overlay_follows_tasks (page_run evs p).
Proof.
  unfold page_run. revert p.
  induction evs as [|ev evs IH]; intros p Hp; [exact Hp|].
  cbn [fold_left]. apply IH, page_step_overlay, Hp.
Qed.

(** ** Loading a saved definition *)

Lemma renderNode_run (node : Node) (w : World) :
  renderNode node w
  = if has_element (node_id node) (node_elements (document w))
    then (Normal tt, w)
    else if nodesLayer (this w)
         then (Normal tt,
               mkWorld (this w)
                 (with_node_elements
                    (node_elements (document w) ++ [node_id node])%list
                    (document w))
                 (effects w))
         else (Throw TypeError, w).
Proof.
  unfold renderNode, bind, get_document, get_this, when, modify_document,
    throw, ret. cbn.
  destruct (has_element _ _); cbn; [reflexivity|].
  destruct (nodesLayer (this w)); reflexivity.
Qed.

Lemma renderConnection_ready (c : Connection) (w : World) :
  connectionsLayer (this w) = true ->
  element (canvas (this w)) = true ->
  exists lines,
    renderConnection c w
    = (Normal tt,
       mkWorld (this w) (with_connection_elements lines (document w))
         (effects w)).
Proof.
  intros Hlayer Hcanvas.
  assert (Hsame : (Normal tt, w)
                  = (@Normal unit tt,
                     mkWorld (this w)
                       (with_connection_elements
                          (connection_elements (document w)) (document w))
                       (effects w)))
    by (destruct w as [e d fx]; destruct d; reflexivity).
  unfold renderConnection, getNodeHandlePosition, bind, get_this,
    get_document, modify_document, ret, throw.
  cbn.
  destruct (map_get (source c) (nodes (this w))) as [sourceNode|];
    [|eexists; exact Hsame].
  destruct (map_get (target c) (nodes (this w))) as [targetNode|];
    [|eexists; exact Hsame].
  rewrite ?Hlayer, ?Hcanvas. cbn.
  destruct (has_element (node_id sourceNode) _); cbn;
    rewrite ?Hlayer, ?Hcanvas; cbn;
    [destruct (handle_rect _ (node_id sourceNode) _); cbn|];
    (destruct (has_element (node_id targetNode) _); cbn;
     rewrite ?Hlayer, ?Hcanvas; cbn;
     [destruct (handle_rect _ (node_id targetNode) _); cbn|]);
    rewrite ?Hlayer, ?Hcanvas; cbn;
    eexists; reflexivity.
Qed.

Lemma fold_map_set_fresh {V : Type} (key : V -> string) (l : list V)
  (m : JsMap V) :
  NoDup (map key l) ->
  (forall v, In v l -> map_get (key v) m = None) ->
  fold_left (fun acc v => map_set (key v) v acc) l m
  = (m ++ map (fun v => (key v, v)) l)%list.
Proof.
  revert m. induction l as [|a l IH]; intros m Hnd Hfresh.
  - cbn. rewrite app_nil_r. reflexivity.
  - cbn [fold_left map]. inversion Hnd as [|? ? Hnotin Hnd']; subst.
    rewrite IH; [| exact Hnd' |].
    + rewrite (map_set_fresh (key a) a m (Hfresh a (or_introl eq_refl))).
      rewrite <- app_assoc. reflexivity.
    + intros v Hv. rewrite map_get_set_other.
      * apply Hfresh. right. exact Hv.
      * intros Heq. apply Hnotin. rewrite <- Heq. apply in_map, Hv.
Qed.

Lemma load_nodes_run (l : list Node) (w : World) :
  nodesLayer (this w) = true ->
  exists els,
    forEach l
      (fun nodeData =>
         assign (fun e => with_nodes
                            (map_set (node_id nodeData) nodeData (nodes e))
                            e) ;;
         renderNode nodeData) w
    = (Normal tt,
       mkWorld
         (with_nodes
            (fold_left (fun acc v => map_set (node_id v) v acc) l
               (nodes (this w)))
            (this w))
         (with_node_elements els (document w))
         (effects w)).
Proof.
  revert w. induction l as [|a l IH]; intros w Hlayer.
  - exists (node_elements (document w)).
    destruct w as [e d fx]; destruct e, d; reflexivity.
  - cbn [forEach fold_left]. rewrite bind_run, assign_then, renderNode_run.
    cbn [this document effects]. unfold with_nodes at 2. cbn [nodesLayer].
    rewrite Hlayer.
    destruct (has_element (node_id a) (node_elements (document w))).
    + destruct (IH (mkWorld
                      (with_nodes (map_set (node_id a) a (nodes (this w)))
                         (this w))
                      (document w) (effects w)) Hlayer) as [els Hrun].
      exists els. rewrite Hrun. reflexivity.
    + destruct (IH (mkWorld
                      (with_nodes (map_set (node_id a) a (nodes (this w)))
                         (this w))
                      (with_node_elements
                         (node_elements (document w) ++ [node_id a])%list
                         (document w))
                      (effects w)) Hlayer) as [els Hrun].
      exists els. rewrite Hrun. reflexivity.
Qed.

Lemma load_connections_run (l : list Connection) (w : World) :
  connectionsLayer (this w) = true ->
  element (canvas (this w)) = true ->
  exists lines,
    forEach l
      (fun connectionData =>
         assign (fun e => with_connections
                            (map_set (conn_id connectionData) connectionData
                               (connections e)) e) ;;
         renderConnection connectionData) w
    = (Normal tt,
       mkWorld
         (with_connections
            (fold_left (fun acc v => map_set (conn_id v) v acc) l
               (connections (this w)))
            (this w))
         (with_connection_elements lines (document w))
         (effects w)).
Proof.
  revert w. induction l as [|a l IH]; intros w Hlayer Hcanvas.
  - exists (connection_elements (document w)).
    destruct w as [e d fx]; destruct e, d; reflexivity.
  - cbn [forEach fold_left]. rewrite bind_run, assign_then.
    destruct (renderConnection_ready a
                (mkWorld
                   (with_connections
                      (map_set (conn_id a) a (connections (this w)))
                      (this w))
                   (document w) (effects w)) Hlayer Hcanvas)
      as [lines0 Hrender].
    rewrite Hrender. cbn [this document effects].
    destruct (IH (mkWorld
                    (with_connections
                       (map_set (conn_id a) a (connections (this w)))
                       (this w))
                    (with_connection_elements lines0 (document w))
                    (effects w)) Hlayer Hcanvas) as [lines Hrun].
    exists lines. rewrite Hrun. reflexivity.
Qed.

(** X13. Loading and saving agree.  [loadWorkflow] does nothing without a
    [nodes] array, also when connections are given.  On a page that has its
    layers and its canvas, with nothing in the editor yet, loading a
    definition whose node ids are distinct and whose connection ids are
    distinct returns, marks nothing dirty and sends nothing; what
    [getWorkflowData] collects afterwards is that definition: the same
    nodes in the same order, with an empty configuration for a node that
    had none, and the same connections. *)
Theorem loadWorkflow_then_getWorkflowData (l : list Node)
  (cs : list Connection) (w : World) :
  loadWorkflow None w = (Normal tt, w)
  /\ (forall cs', loadWorkflow (Some (mkWorkflowSource None cs')) w
                  = (Normal tt, w))
  /\ (nodes (this w) = [] ->
      connections (this w) = [] ->
      NoDup (map node_id l) ->
      NoDup (map conn_id cs) ->
      nodesLayer (this w) = true ->
      connectionsLayer (this w) = true ->
      element (canvas (this w)) = true ->
      let w' := snd (loadWorkflow
                       (Some (mkWorkflowSource (Some l) (Some cs))) w) in
      fst (loadWorkflow (Some (mkWorkflowSource (Some l) (Some cs))) w)
      = Normal tt
      /\ isDirty (this w') = isDirty (this w)
      /\ effects w' = effects w
      /\ exists data,
           getWorkflowData w' = (Normal data, w')
           /\ wd_nodes data = map node_data l
           /\ wd_connections data = cs).
Proof.
  split; [reflexivity|]. split; [reflexivity|].
  intros Hnodes Hconns Hnd Hcd Hlayer Hclayer Hcanvas.
  unfold loadWorkflow. cbn [src_nodes src_connections].
  rewrite bind_run.
  destruct (load_nodes_run l w Hlayer) as [els Hrun]. rewrite Hrun.
  destruct (load_connections_run cs
              (mkWorld
                 (with_nodes
                    (fold_left (fun acc v => map_set (node_id v) v acc) l
                       (nodes (this w)))
                    (this w))
                 (with_node_elements els (document w)) (effects w))
              Hclayer Hcanvas) as [lines Hrun2].
  rewrite Hrun2. cbn [fst snd this document effects].
  split; [reflexivity|]. split; [reflexivity|]. split; [reflexivity|].
  eexists. split; [reflexivity|]. cbn.
  rewrite Hnodes, Hconns.
  rewrite (fold_map_set_fresh node_id l [] Hnd (fun _ _ => eq_refl)).
  rewrite (fold_map_set_fresh conn_id cs [] Hcd (fun _ _ => eq_refl)).
  cbn [app]. unfold map_values. rewrite !map_map. cbn [snd].
  split; [reflexivity|].
  rewrite <- (map_id cs) at 2. apply map_ext. intros []. reflexivity.
Qed.

(** ** The canvas and the graph *)

Lemma map_set_In {V : Type} (k k' : string) (v v' : V) (m : JsMap V) :
  In (k', v') (map_set k v m) -> (k', v') = (k, v) \/ In (k', v') m.
Proof.
  induction m as [|[k0 v0] m IH]; cbn.
  - intros [H|[]]. left. symmetry. exact H.
  - destruct (k0 =? k); cbn.
    + intros [H|H]; [left; symmetry; exact H | right; right; exact H].
    + intros [H|H]; [right; left; exact H|].
      destruct (IH H) as [Heq|Hin]; [left; exact Heq | right; right; exact Hin].
Qed.

Lemma In_remove_first (i k : string) (l : list string) :
  NoDup l -> (In k (remove_first i l) <-> In k l /\ k <> i).
Proof.
  induction l as [|j l IH]; cbn; intros Hnd; [tauto|].
  inversion Hnd as [|? ? Hnotin Hnd']; subst.
  destruct (String.eqb_spec j i) as [->|Hne].
  - split.
    + intros Hin. split; [right; exact Hin|].
      intros ->. exact (Hnotin Hin).
    + intros [[Heq|Hin] Hk]; [congruence | exact Hin].
  - cbn. rewrite (IH Hnd'). split.
    + intros [Heq|[Hin Hk]]; [subst; auto | auto].
    + intros [[Heq|Hin] Hk]; auto.
Qed.

Lemma NoDup_remove_first (i : string) (l : list string) :
  NoDup l -> NoDup (remove_first i l).
Proof.
  induction l as [|j l IH]; cbn; intros Hnd; [constructor|].
  inversion Hnd as [|? ? Hnotin Hnd']; subst.
  destruct (j =? i); [exact Hnd'|].
  constructor; [|apply IH, Hnd'].
  intros Hin. apply (In_remove_first i j l Hnd') in Hin as [Hin _].
  exact (Hnotin Hin).
Qed.

Lemma NoDup_snoc (k : string) (l : list string) :
  NoDup l -> ~ In k l -> NoDup (l ++ [k]).
Proof.
  induction l as [|j l IH]; cbn; intros Hnd Hk.
  - constructor; [intros []|constructor].
  - inversion Hnd as [|? ? Hnotin Hnd']; subst.
    constructor.
    + intros Hin. apply in_app_or in Hin as [Hin|[Heq|[]]];
        [exact (Hnotin Hin) | apply Hk; left; symmetry; exact Heq].
    + apply IH; [exact Hnd' | intros Hin; apply Hk; right; exact Hin].
Qed.

Lemma keeps_in_step_refl w : keeps_in_step w w.
Proof. intros H. exact H. Qed.

Lemma keeps_in_step_trans w1 w2 w3 :
  keeps_in_step w1 w2 -> keeps_in_step w2 w3 -> keeps_in_step w1 w3.
Proof. unfold keeps_in_step. auto. Qed.

Lemma same_canvas_refl w : same_canvas w w.
Proof. repeat split. Qed.

Lemma same_canvas_trans w1 w2 w3 :
  same_canvas w1 w2 -> same_canvas w2 w3 -> same_canvas w1 w3.
Proof.
  unfold same_canvas. intros (?&?&?&?&?) (?&?&?&?&?).
  repeat split; congruence.
Qed.

Ltac same_canvas_auto :=
  preserves_by same_canvas_refl same_canvas_trans
    ltac:(unfold same_canvas; cbn; repeat split; reflexivity).

Lemma same_canvas_keeps (w w' : World) :
  same_canvas w w' -> keeps_in_step w w'.
Proof.
  intros (Hn & Hc & He & Hl & Hy). unfold keeps_in_step, canvas_in_step.
  rewrite Hn, Hc, He, Hl, Hy. trivial.
Qed.

Lemma same_canvas_preserves_keeps {A} (m : M A) :
  preserves same_canvas m -> preserves keeps_in_step m.
Proof. intros H w. apply same_canvas_keeps, H. Qed.

(** A node written under its own id, and rendered. *)
Lemma node_written_keeps (k : string) (v : Node) (w w' : World) :
  node_id v = k ->
  nodes (this w') = map_set k v (nodes (this w)) ->
  connections (this w') = connections (this w) ->
  connection_elements (document w') = connection_elements (document w) ->
  nodesLayer (this w') = nodesLayer (this w) ->
  (node_elements (document w') = node_elements (document w)
   /\ (In k (node_elements (document w)) \/ nodesLayer (this w) = false)
   \/ node_elements (document w') = (node_elements (document w) ++ [k])%list
      /\ ~ In k (node_elements (document w))) ->
  keeps_in_step w w'.
Proof.
  intros Hid Hn Hc Hl Hy Hels (Hown & Hnd & Hsub & Hlines & Hall).
  unfold canvas_in_step. rewrite Hn, Hc, Hl, Hy.
  split; [|split; [|split; [|split]]].
  - intros k' n' Hin. apply map_set_In in Hin as [Heq|Hin].
    + injection Heq as -> ->. exact Hid.
    + apply (Hown k' n' Hin).
  - destruct Hels as [[-> _]|[-> Hnew]]; [exact Hnd|].
    apply NoDup_snoc; assumption.
  - intros k' Hin. apply map_keys_set.
    destruct Hels as [[He _]|[He _]]; rewrite He in Hin.
    + left. apply Hsub, Hin.
    + apply in_app_or in Hin as [Hin|[Heq|[]]];
        [left; apply Hsub, Hin | right; symmetry; exact Heq].
  - exact Hlines.
  - intros Hlayer k' Hin. apply map_keys_set in Hin.
    destruct Hels as [[-> [Hk|Hk]]|[-> _]].
    + destruct Hin as [Hin| ->]; [apply (Hall Hlayer), Hin | exact Hk].
    + congruence.
    + apply in_or_app. destruct Hin as [Hin| ->];
        [left; apply (Hall Hlayer), Hin | right; left; reflexivity].
Qed.

Lemma bind_assoc {A B C} (m : M A) (k : A -> M B) (h : B -> M C)
  (w : World) :
  (y <- (x <- m ;; k x) ;; h y) w = (x <- m ;; y <- k x ;; h y) w.
Proof. unfold bind. destruct (m w) as [[a|e] w1]; reflexivity. Qed.

Lemma write_and_render_keeps {A} (k : string) (v : Node) (rest : M A) :
  node_id v = k ->
  preserves same_canvas rest ->
  preserves keeps_in_step
    (assign (fun e => with_nodes (map_set k v (nodes e)) e) ;;
     renderNode v ;;
     rest).
Proof.
  intros Hid Hrest w.
  rewrite assign_then, bind_run, renderNode_run.
  cbn [this document effects]. rewrite Hid.
  change (nodesLayer (with_nodes (map_set k v (nodes (this w))) (this w)))
    with (nodesLayer (this w)).
  destruct (has_element k (node_elements (document w))) eqn:Hel.
  - pose proof (Hrest (mkWorld
                         (with_nodes (map_set k v (nodes (this w))) (this w))
                         (document w) (effects w)))
      as (Hn & Hc & He & Hl & Hy).
    apply (node_written_keeps k v w _ Hid Hn Hc Hl Hy).
    left. split; [exact He|]. left. apply has_element_In, Hel.
  - assert (Hnew : ~ In k (node_elements (document w))).
    { intros Hin. apply has_element_In in Hin. congruence. }
    destruct (nodesLayer (this w)) eqn:Hlayer.
    + pose proof (Hrest (mkWorld
                           (with_nodes (map_set k v (nodes (this w)))
                              (this w))
                           (with_node_elements
                              (node_elements (document w) ++ [k])%list
                              (document w))
                           (effects w)))
        as (Hn & Hc & He & Hl & Hy).
      apply (node_written_keeps k v w _ Hid Hn Hc Hl);
        [exact Hy|]. right. split; [exact He | exact Hnew].
    + apply (node_written_keeps k v w _ Hid); try reflexivity.
      left. split; [reflexivity|]. right. exact Hlayer.
Qed.

Lemma markDirty_ret_same_canvas {A} (a : A) :
  preserves same_canvas (markDirty ;; ret a).
Proof. same_canvas_auto. Qed.

Lemma markDirty_same_canvas : preserves same_canvas markDirty.
Proof. same_canvas_auto. Qed.

Lemma addNode_keeps (r : string) (nodeType : NodeType) (position : Point.t) :
  preserves keeps_in_step (addNode r nodeType position).
Proof.
  unfold addNode. cbv zeta.
  apply write_and_render_keeps;
    [reflexivity | apply markDirty_ret_same_canvas].
Qed.

Lemma updateNodeProperty_keeps (nodeId property value : string) :
  preserves keeps_in_step (updateNodeProperty nodeId property value).
Proof.
  intros w Hstep.
  destruct (map_get nodeId (nodes (this w))) as [node|] eqn:Hget.
  - rewrite (updateNodeProperty_run nodeId property value node w Hget).
    apply write_and_render_keeps;
      [| apply markDirty_same_canvas | exact Hstep].
    destruct Hstep as (Hown & _).
    rewrite <- (Hown nodeId node (map_get_In _ _ _ Hget)).
    unfold edited_node. destruct (property =? "name"); reflexivity.
  - unfold updateNodeProperty, bind, get_this. rewrite Hget. exact Hstep.
Qed.

Lemma assign_canvas_same_canvas (f : Canvas -> Canvas) :
  preserves same_canvas (assign_canvas f).
Proof. same_canvas_auto. Qed.

Lemma onNodeDrag_keeps (ev : MouseEvent) :
  preserves keeps_in_step (onNodeDrag ev).
Proof.
  intros w Hstep.
  destruct (isDragging (canvas (this w))) eqn:Hdrag;
    [destruct (dragStart (canvas (this w))) as [start|] eqn:Hstart|].
  - rewrite (onNodeDrag_run ev start w Hdrag Hstart).
    destruct (map_get (ds_nodeId start) (nodes (this w))) as [node|] eqn:Hget.
    + rewrite bind_assoc.
      apply write_and_render_keeps;
        [| apply assign_canvas_same_canvas | exact Hstep].
      destruct Hstep as (Hown & _).
      apply (Hown (ds_nodeId start) node (map_get_In _ _ _ Hget)).
    + exact Hstep.
  - unfold onNodeDrag, bind, get_this. rewrite Hdrag, Hstart. exact Hstep.
  - unfold onNodeDrag, bind, get_this. rewrite Hdrag. exact Hstep.
Qed.

(** [addConnection] adds no line but the one of its connection. *)
Lemma addConnection_lines (r s : string) (sh : option string) (t : string)
  (th : option string) (w : World) :
  nodes (this (snd (addConnection r s sh t th w))) = nodes (this w)
  /\ node_elements (document (snd (addConnection r s sh t th w)))
     = node_elements (document w)
  /\ nodesLayer (this (snd (addConnection r s sh t th w)))
     = nodesLayer (this w)
  /\ forall j,
       In j (map_keys (connection_elements
                         (document (snd (addConnection r s sh t th w))))) ->
       In j (map_keys (connection_elements (document w)))
       \/ j = generateId r.
Proof.
  set (R := fun w w' : World =>
              nodes (this w') = nodes (this w)
              /\ node_elements (document w') = node_elements (document w)
              /\ nodesLayer (this w') = nodesLayer (this w)
              /\ forall j,
                   In j (map_keys (connection_elements (document w'))) ->
                   In j (map_keys (connection_elements (document w)))
                   \/ j = generateId r).
  assert (R_refl : forall w, R w w) by (intros w0; repeat split; auto).
  assert (R_trans : forall w1 w2 w3, R w1 w2 -> R w2 w3 -> R w1 w3).
  { intros w1 w2 w3 (H1 & H2 & H3 & H4) (H5 & H6 & H7 & H8).
    repeat split; try congruence.
    intros j Hj. destruct (H8 j Hj) as [Hj'|Hj']; [apply H4, Hj' | auto]. }
  assert (H : preserves R (addConnection r s sh t th)).
  { preserves_structure;
      preserves_leaves
        ltac:(unfold R; cbn; repeat split; try reflexivity;
              intros j Hj; try (apply map_keys_set in Hj; exact Hj);
              left; exact Hj). }
  apply (H w).
Qed.

Lemma addConnection_keeps (r s : string) (sh : option string) (t : string)
  (th : option string) :
  preserves keeps_in_step (addConnection r s sh t th).
Proof.
  intros w (Hown & Hnd & Hsub & Hlines & Hall).
  destruct (addConnection_lines r s sh t th w) as (Hn & He & Hy & Hl).
  pose proof (addConnection_connections r s sh t th w) as Hc.
  unfold canvas_in_step. rewrite Hn, He, Hy, Hc.
  repeat split; try assumption.
  intros j Hj. apply map_keys_set.
  destruct (Hl j Hj) as [Hj'|Hj']; [left; apply Hlines, Hj' | right; exact Hj'].
Qed.

Lemma deleteConnection_keeps (connectionId : string) :
  preserves keeps_in_step (deleteConnection connectionId).
Proof.
  intros w (Hown & Hnd & Hsub & Hlines & Hall).
  rewrite deleteConnection_run. unfold canvas_in_step. cbn.
  repeat split; try assumption.
  intros j Hj. apply map_keys_delete in Hj as [Hj Hne].
  apply map_keys_delete. split; [apply Hlines, Hj | exact Hne].
Qed.

Lemma node_deleted_keeps (n : string) (w : World) :
  keeps_in_step w
    (mkWorld (with_nodes (map_delete n (nodes (this w))) (this w))
       (with_node_elements (remove_first n (node_elements (document w)))
          (document w))
       (effects w)).
Proof.
  intros (Hown & Hnd & Hsub & Hlines & Hall). unfold canvas_in_step. cbn.
  split; [|split; [|split; [|split]]].
  - intros k node Hin. apply filter_In in Hin as [Hin _].
    apply (Hown k node Hin).
  - apply NoDup_remove_first, Hnd.
  - intros k Hin. apply (In_remove_first n k _ Hnd) in Hin as [Hin Hne].
    apply map_keys_delete. split; [apply Hsub, Hin | exact Hne].
  - exact Hlines.
  - intros Hlayer k Hin. apply map_keys_delete in Hin as [Hin Hne].
    apply (In_remove_first n k _ Hnd). split; [apply (Hall Hlayer), Hin|].
    exact Hne.
Qed.

Lemma deleteNode_rest_same_canvas :
  preserves same_canvas
    (assign (with_selectedNode None) ;; hideProperties ;; markDirty).
Proof. same_canvas_auto. Qed.

Lemma deleteNode_keeps (nodeId : string) :
  preserves keeps_in_step (deleteNode nodeId).
Proof.
  intros w. unfold deleteNode. rewrite bind_run. cbn [get_this].
  rewrite bind_run.
  pose proof (preserves_forEach keeps_in_step keeps_in_step_refl
                keeps_in_step_trans
                (map fst (filter (fun entry => incident nodeId (snd entry))
                            (connections (this w))))
                deleteConnection deleteConnection_keeps w) as Hloop.
  destruct (forEach _ deleteConnection w) as [[[]|e] w1]; cbn [snd] in *;
    [|exact Hloop].
  apply (keeps_in_step_trans _ _ _ Hloop).
  apply (keeps_in_step_trans _ _ _ (node_deleted_keeps nodeId w1)).
  apply same_canvas_keeps.
  apply (deleteNode_rest_same_canvas
           (mkWorld
              (with_nodes (map_delete nodeId (nodes (this w1))) (this w1))
              (with_node_elements
                 (remove_first nodeId (node_elements (document w1)))
                 (document w1))
              (effects w1))).
Qed.

(** The structure of a method, down to the methods that are known to keep
    the canvas in step. *)
Ltac keeps_in_step_structure :=
  pose proof keeps_in_step_refl as R_refl;
  pose proof keeps_in_step_trans as R_trans;
  repeat (first
    [ apply addNode_keeps
    | apply addConnection_keeps
    | apply preserves_ret
    | apply preserves_throw
    | apply preserves_get_this
    | apply preserves_get_document
    | apply preserves_bind
    | apply preserves_when
    | apply same_canvas_preserves_keeps, assign_canvas_same_canvas
    | progress (cbv beta iota)
    | match goal with
      | |- forall _, _ => intro
      | |- preserves _ (if ?c then _ else _) => destruct c
      | |- preserves _ (match ?x with _ => _ end) => destruct x
      | |- preserves _ (let _ := _ in _) => cbv zeta
      end ];
    try assumption).

Lemma onDrop_keeps (r : string) (ev : DropEvent) :
  preserves keeps_in_step (onDrop r ev).
Proof. unfold onDrop. keeps_in_step_structure. Qed.

Lemma onConnectionEnd_keeps (r : string) (ev : MouseEvent) :
  preserves keeps_in_step (onConnectionEnd r ev).
Proof. unfold onConnectionEnd. keeps_in_step_structure. Qed.

Lemma run_op_keeps (op : Op) : preserves keeps_in_step (run_op op).
Proof.
  destruct op; cbn [run_op];
    first
      [ apply updateNodeProperty_keeps
      | apply onNodeDrag_keeps
      | apply addConnection_keeps
      | apply deleteConnection_keeps
      | apply deleteNode_keeps
      | apply onDrop_keeps
      | apply onConnectionEnd_keeps
      | solve [keeps_in_step_structure]
      | apply same_canvas_preserves_keeps; same_canvas_auto ].
Qed.

Lemma called_same_canvas (m : Method) (confirmed : bool) :
  preserves same_canvas (called m confirmed).
Proof. destruct m; same_canvas_auto. Qed.

Lemma fetched_same_canvas (m : Method) (settled : FetchSettled) :
  preserves same_canvas (fetched m settled).
Proof. destruct m; same_canvas_auto. Qed.

Lemma parsed_same_canvas (m : Method) (ok : bool) (settled : JsonSettled) :
  preserves same_canvas (parsed m ok settled).
Proof. destruct m; same_canvas_auto. Qed.

Lemma page_step_keeps (ev : Event) (p : Page) :
  canvas_in_step (world p) -> canvas_in_step (world (page_step ev p)).
Proof.
  intros Hstep. rewrite page_step_world.
  destruct ev as [op|m confirmed|i settled|i settled].
  - apply (run_op_keeps op (world p) Hstep).
  - apply (same_canvas_keeps _ _ (called_same_canvas m confirmed (world p))
             Hstep).
  - destruct (nth_error (tasks p) i) as [[m [|ok]]|]; try exact Hstep.
    apply (same_canvas_keeps _ _ (fetched_same_canvas m settled (world p))
             Hstep).
  - destruct (nth_error (tasks p) i) as [[m [|ok]]|]; try exact Hstep.
    apply (same_canvas_keeps _ _ (parsed_same_canvas m ok settled (world p))
             Hstep).
Qed.

(** X14. The canvas stays in step with the graph.  On a page where every node
    is stored under its own id, the node elements have distinct ids and
    belong to nodes of the collection, the connection lines belong to
    connections of the collection and, if the nodes layer exists, every
    node has its element, all of this still holds after any sequence of
    handlers, calls of the [async] methods and settled requests, also when
    handlers throw on the way: nothing deleted stays on the canvas, and no
    node is without its element. *)
Theorem canvas_stays_in_step (evs : list Event) (p : Page) :
  canvas_in_step (world p) ->
  canvas_in_step (world (page_run evs p)).
Proof.
  unfold page_run. revert p.
  induction evs as [|ev evs IH]; intros p Hp; [exact Hp|].
  cbn [fold_left]. apply IH, page_step_keeps, Hp.
Qed.

(** ** What a save collects *)

Lemma map_values_filter {V : Type} (p : V -> bool) (m : JsMap V) :
  map_values (filter (fun e => p (snd e)) m) = filter p (map_values m).
Proof.
  unfold map_values. induction m as [|[k v] m IH]; cbn; [reflexivity|].
  destruct (p v); cbn; rewrite IH; reflexivity.
Qed.

Lemma getWorkflowData_run (w : World) :
  getWorkflowData w
  = (Normal
       (mkWorkflowData
          match workflow_name_input (document w) with
          | Some v => if v =? "" then "Untitled Workflow" else v
          | None => "Untitled Workflow"
          end
          match workflow_description_input (document w) with
          | Some v => v
          | None => ""
          end
          (map node_data (map_values (nodes (this w))))
          (map_values (connections (this w)))),
     w).
Proof.
  unfold getWorkflowData, bind, get_this, get_document, ret.
  f_equal. f_equal. f_equal.
  rewrite <- (map_id (map_values (connections (this w)))) at 2.
  apply map_ext. intros []. reflexivity.
Qed.

(** X15. After [deleteNode n] nothing of [n] is left to save.  With one entry
    per connection id and every node stored under its own id, what
    [getWorkflowData] collects after the deletion is what it collected
    before without the node [n] and without the connections that start or
    end at [n], the others in their order: no node entry has the id [n] and
    no connection names [n], also when [hideProperties] threw at the end of
    the deletion. *)
Theorem deleteNode_then_getWorkflowData (n : string) (w : World) :
  map_wf (connections (this w)) ->
  (forall k node, In (k, node) (nodes (this w)) -> node_id node = k) ->
  exists data,
    getWorkflowData (snd (deleteNode n w))
    = (Normal data, snd (deleteNode n w))
    /\ wd_nodes data
       = map node_data
           (filter (fun node => negb (node_id node =? n))
              (map_values (nodes (this w))))
    /\ wd_connections data
       = filter (fun c => negb (incident n c))
           (map_values (connections (this w)))
    /\ (forall nd, In nd (wd_nodes data) -> nd_id nd <> n)
    /\ (forall c, In c (wd_connections data) ->
                  source c <> n /\ target c <> n).
Proof.
  intros Hwf Hown. destruct (deleteNode_graph n w) as [Hn Hc].
  rewrite getWorkflowData_run. eexists. split; [reflexivity|].
  cbn [wd_nodes wd_connections]. rewrite Hn, Hc.
  rewrite (map_delete_filtered
             (fun entry => incident n (snd entry)) _ Hwf).
  rewrite (map_values_filter (fun c => negb (incident n c))).
  assert (Hnodes : map_delete n (nodes (this w))
                   = filter (fun e => negb (node_id (snd e) =? n))
                       (nodes (this w))).
  { unfold map_delete. apply filter_ext_in. intros [k node] Hin.
    cbn. rewrite (Hown k node Hin). reflexivity. }
  rewrite Hnodes, (map_values_filter (fun node => negb (node_id node =? n))).
  split; [reflexivity|]. split; [reflexivity|]. split.
  - intros nd Hin. apply in_map_iff in Hin as (node & <- & Hin).
    apply filter_In in Hin as [_ Hne]. cbn.
    apply negb_true_iff, String.eqb_neq in Hne. exact Hne.
  - intros c Hin. apply filter_In in Hin as [_ Hne].
    unfold incident in Hne. apply negb_true_iff, orb_false_iff in Hne.
    destruct Hne as [Hs Ht].
    split; apply String.eqb_neq; assumption.
Qed.

Lemma same_data_to_save_refl w : same_data_to_save w w.
Proof. repeat split. Qed.

Lemma same_data_to_save_trans w1 w2 w3 :
  same_data_to_save w1 w2 -> same_data_to_save w2 w3 ->
  same_data_to_save w1 w3.
Proof.
  unfold same_data_to_save. intros (?&?&?&?) (?&?&?&?).
  repeat split; congruence.
Qed.

Ltac same_data_to_save_auto :=
  preserves_by same_data_to_save_refl same_data_to_save_trans
    ltac:(unfold same_data_to_save; cbn; repeat split; reflexivity).

Lemma same_data_collected (w w' : World) :
  same_data_to_save w w' ->
  fst (getWorkflowData w') = fst (getWorkflowData w).
Proof.
  intros (Hn & Hc & Hname & Hdesc). rewrite !getWorkflowData_run. cbn [fst].
  rewrite Hn, Hc, Hname, Hdesc. reflexivity.
Qed.

Lemma updateWorkflowProperty_same_data (property : string) (value : jsval) :
  preserves same_data_to_save (updateWorkflowProperty property value).
Proof. same_data_to_save_auto. Qed.

Lemma called_same_data (m : Method) (confirmed : bool) :
  preserves same_data_to_save (called m confirmed).
Proof. destruct m; same_data_to_save_auto. Qed.

Lemma fetched_same_data (m : Method) (settled : FetchSettled) :
  preserves same_data_to_save (fetched m settled).
Proof. destruct m; same_data_to_save_auto. Qed.

Lemma parsed_same_data (m : Method) (ok : bool) (settled : JsonSettled) :
  preserves same_data_to_save (parsed m ok settled).
Proof. destruct m; same_data_to_save_auto. Qed.

(** X16. What a save sends does not come from [this.workflow].
    [getWorkflowData] collects the nodes, the connections and the values of
    the two input fields, so neither [updateWorkflowProperty], which edits
    [this.workflow], nor any stretch of [saveWorkflow], [testWorkflow] and
    [deployWorkflow], which store the server's answer or a status in it,
    changes the data the next save will send. *)
Theorem data_to_save_ignores_workflow_object (w : World) :
  (forall property value,
      fst (getWorkflowData (snd (updateWorkflowProperty property value w)))
      = fst (getWorkflowData w))
  /\ (forall m confirmed,
        fst (getWorkflowData (snd (called m confirmed w)))
        = fst (getWorkflowData w))
  /\ (forall m settled,
        fst (getWorkflowData (snd (fetched m settled w)))
        = fst (getWorkflowData w))
  /\ (forall m ok settled,
        fst (getWorkflowData (snd (parsed m ok settled w)))
        = fst (getWorkflowData w)).
Proof.
  split; [|split; [|split]]; intros; apply same_data_collected.
  - apply updateWorkflowProperty_same_data.
  - apply called_same_data.
  - apply fetched_same_data.
  - apply parsed_same_data.
Qed.

(** ** Releasing the mouse after a connection drag *)

Lemma onConnectionEnd_shape (r : string) (ev : MouseEvent) (w : World) :
  isConnecting (canvas (this w)) = true ->
  exists inner : M unit,
    onConnectionEnd r ev w
    = (inner ;; assign_canvas (with_connecting false None)) w
    /\ preserves (fun w0 w1 => canvas (this w1) = canvas (this w0)) inner.
Proof.
  intros Hconnecting. eexists. split.
  - unfold onConnectionEnd. rewrite bind_run. cbn [get_this].
    rewrite Hconnecting. reflexivity.
  - assert (R_refl : forall w0 : World, canvas (this w0) = canvas (this w0))
      by reflexivity.
    assert (R_trans : forall w1 w2 w3 : World,
               canvas (this w2) = canvas (this w1) ->
               canvas (this w3) = canvas (this w2) ->
               canvas (this w3) = canvas (this w1)) by congruence.
    preserves_structure; preserves_leaves ltac:(reflexivity).
Qed.

(** X17. A release ends the connection drag only if it returns.  Outside a
    connection drag [onConnectionEnd] changes nothing.  During one, when it
    returns the drag is over ([isConnecting] false, no start), so a second
    release changes nothing; a release on anything but an input handle
    adds no connection and marks nothing dirty.  When it throws (an input
    handle outside a node element, or a layer missing while the line is
    drawn) the canvas keeps the drag: [isConnecting] stays true with the
    same start. *)
Theorem onConnectionEnd_ends_drag_if_it_returns (r : string)
  (ev : MouseEvent) (w : World) :
  (isConnecting (canvas (this w)) = false ->
   onConnectionEnd r ev w = (Normal tt, w))
  /\ (isConnecting (canvas (this w)) = true ->
      (fst (onConnectionEnd r ev w) = Normal tt ->
       isConnecting (canvas (this (snd (onConnectionEnd r ev w)))) = false
       /\ connectionStart (canvas (this (snd (onConnectionEnd r ev w))))
          = None
       /\ forall r' ev',
            onConnectionEnd r' ev' (snd (onConnectionEnd r ev w))
            = (Normal tt, snd (onConnectionEnd r ev w)))
      /\ (forall e, fst (onConnectionEnd r ev w) = Throw e ->
            canvas (this (snd (onConnectionEnd r ev w))) = canvas (this w))
      /\ (match ev_target ev with
          | None => True
          | Some target_ =>
              (contains "node-handle" target_ && contains "input" target_)
              = false
          end ->
          onConnectionEnd r ev w
          = (Normal tt,
             mkWorld
               (with_canvas (with_connecting false None (canvas (this w)))
                  (this w))
               (document w) (effects w)))).
Proof.
  split.
  - intros Hidle. unfold onConnectionEnd, bind, get_this.
    rewrite Hidle. reflexivity.
  - intros Hconnecting.
    destruct (onConnectionEnd_shape r ev w Hconnecting)
      as (inner & Hrun & Hinner).
    split; [|split].
    + rewrite Hrun, bind_run. specialize (Hinner w).
      destruct (inner w) as [[[]|e] w1]; cbn [fst snd]; [|discriminate].
      intros _. cbn. split; [reflexivity|]. split; [reflexivity|].
      intros r' ev'. reflexivity.
    + intros e. rewrite Hrun, bind_run. specialize (Hinner w).
      destruct (inner w) as [[[]|e'] w1]; cbn [fst snd]; [discriminate|].
      intros _. exact Hinner.
    + intros Htarget. unfold onConnectionEnd. rewrite bind_run.
      cbn [get_this]. rewrite Hconnecting. cbn [negb].
      destruct (ev_target ev) as [target_|]; [rewrite Htarget|];
        reflexivity.
Qed.

End Methods.

(** * The properties at work on the sample page *)

(** The control-point offset: half the horizontal distance, never under
    50, NaN for a NaN coordinate. *)
Example control_offset_wide :
  control_offset (Point.mk 0 0) (Point.mk 300 10) = 150%float.
Proof. reflexivity. Qed.

Example control_offset_leftwards :
  control_offset (Point.mk 500 0) (Point.mk 40 10) = 230%float.
Proof. reflexivity. Qed.

Example control_offset_narrow :
  control_offset (Point.mk 0 0) (Point.mk 40 10) = 50%float.
Proof. reflexivity. Qed.

Example control_offset_nan :
  is_nan (control_offset (Point.mk nan 0) (Point.mk 40 10)) = true.
Proof. reflexivity. Qed.

(** Two clicks on Save, then the response: one request, a POST; afterwards
    the editor is clean and knows its id. *)
Example save_twice_then_response :
  let p := page_run Number_toString_unused
             [Call Save false; Call Save false;
              FetchSettles 0 (Fulfilled true);
              JsonSettles 0 (Some saved_workflow)]
             (mkPage sample_world []) in
  map req_method (requests (effects (world p))) = ["POST"]
  /\ map req_url (requests (effects (world p))) = ["/api/workflows/"]
  /\ options_workflowId (this (world p)) = JStr "42"
  /\ isDirty (this (world p)) = false
  /\ isLoading (this (world p)) = false
  /\ tasks p = [].
Proof. repeat split. Qed.

(** A saved workflow is updated with PUT at its own URL. *)
Example save_again :
  map (fun r => (req_method r, req_url r))
    (requests (effects (snd (saveWorkflow Number_toString_unused
                               saved_world))))
  = [("PUT", "/api/workflows/42/")].
Proof. reflexivity. Qed.

(** On a page without the properties panel [deleteNode] throws in
    [hideProperties], after the node and its connections are gone. *)
Example deleteNode_without_panel :
  let w := mkWorld sample_editor bare_dom [] in
  fst (deleteNode "b" w) = Throw TypeError
  /\ map_keys (nodes (this (snd (deleteNode "b" w)))) = ["a"; "c"]
  /\ connections (this (snd (deleteNode "b" w))) = [].
Proof. repeat split. Qed.

Lemma deleteNode_cascades_witness :
  map_get "b" (nodes (this (snd (deleteNode "b" sample_world)))) = None
  /\ connections (this (snd (deleteNode "b" sample_world))) = [].
Proof.
  assert (Hwf : map_wf (connections (this sample_world))).
  { unfold map_wf. cbn. repeat constructor; cbn; intuition discriminate. }
  assert (Hin : In "b" (map_keys (nodes (this sample_world)))).
  { cbn. auto. }
  destruct (deleteNode_cascades "b" sample_world Hwf Hin)
    as (_ & Hgone & _ & Hrest & _).
  split; [exact Hgone|]. rewrite Hrest. reflexivity.
Defined.

Lemma saveWorkflow_one_in_flight_witness :
  saves_in_flight
    (page_run Number_toString_unused
       [Call Save false; Invoke (OpDeleteNode "b"); Call Save false]
       (mkPage sample_world [])) <= 1.
Proof.
  apply (saveWorkflow_one_in_flight Number_toString_unused
           [Call Save false; Invoke (OpDeleteNode "b"); Call Save false]
           (mkPage sample_world []));
    reflexivity.
Defined.

Lemma saveWorkflow_sends_and_stores_witness :
  exists w2',
    saveWorkflow_parsed Number_toString_unused true (Some saved_workflow)
      saving_world = (Normal tt, w2')
    /\ workflow (this w2') = saved_workflow
    /\ options_workflowId (this w2') = JStr "42"
    /\ isDirty (this w2') = false.
Proof.
  apply (saveWorkflow_sends_and_stores Number_toString_unused sample_world
           saving_world saved_workflow);
    reflexivity.
Defined.


Lemma test_and_deploy_need_an_id_witness :
  requests (effects (snd (testWorkflow Number_toString_unused sample_world)))
  = []
  /\ requests (effects (snd (deployWorkflow Number_toString_unused true
                               saved_world)))
     = [activate_request Number_toString_unused (JStr "42") "token"].
Proof.
  split.
  - destruct (test_and_deploy_need_an_id Number_toString_unused sample_world)
      as (Hunset & _).
    destruct (Hunset eq_refl) as [Htest _]. rewrite Htest. reflexivity.
  - destruct (test_and_deploy_need_an_id Number_toString_unused saved_world)
      as (_ & Hset & _).
    destruct (Hset eq_refl) as (_ & Hdeploy & _). rewrite Hdeploy.
    reflexivity.
Defined.

Lemma isDirty_set_by_mutations_cleared_by_save_witness :
  isDirty (this (snd (run_op Number_toString_unused (OpDeleteNode "b")
                        sample_world))) = true
  /\ isDirty (this (snd (saveWorkflow_parsed Number_toString_unused true
                           (Some saved_workflow) saving_world))) = false
  /\ isDirty (this (snd (saveWorkflow_parsed Number_toString_unused false
                           (Some (JObj [("error", JStr "invalid")]))
                           saving_world))) = true.
Proof.
  destruct (isDirty_set_by_mutations_cleared_by_save Number_toString_unused)
    as (Hdirty & Hreturns & _ & Hclear & Hfail).
  assert (Hready : page_ready sample_world)
    by (unfold page_ready; cbn; repeat split).
  assert (Hworkflow : workflow_unset_or_object sample_world)
    by (left; reflexivity).
  split; [|split].
  - apply (Hdirty (OpDeleteNode "b") sample_world I).
    apply (Hreturns (OpDeleteNode "b") sample_world I Hready Hworkflow).
  - apply Hclear. reflexivity.
  - apply (Hfail saving_world eq_refl).
Defined.

Lemma saveWorkflow_replaceState_iff_falsy_id_witness :
  exists w',
    saveWorkflow_parsed Number_toString_unused true (Some saved_workflow)
      saving_world = (Normal tt, w')
    /\ options_workflowId (this w') = JStr "42"
    /\ effects w'
       = [ShowNotification "Workflow saved successfully" "success"].
Proof.
  destruct (saveWorkflow_replaceState_iff_falsy_id Number_toString_unused
              saving_world saved_workflow eq_refl)
    as (w' & Hrun & Hid & Htruthy & _).
  exists w'. split; [exact Hrun|]. split; [exact Hid|].
  destruct (Htruthy eq_refl) as (_ & _ & Heffects). exact Heffects.
Defined.


(** A save of a new workflow whose OK response carries an object without an
    id: [options.workflowId] is [undefined] afterwards, and
    [history.replaceState] is called. *)
Lemma saveWorkflow_replaceState_reached :
  options_workflowId
    (this (snd (saveWorkflow_parsed Number_toString_unused true
                  (Some (JObj [("name", JStr "Orders")])) saving_world)))
  = JUndefined
  /\ effects (snd (saveWorkflow_parsed Number_toString_unused true
                     (Some (JObj [("name", JStr "Orders")])) saving_world))
     = [ShowNotification "Workflow saved successfully" "success";
        ReplaceState "/workflows/undefined/edit/"].
Proof. split; reflexivity. Qed.


(** ** The further properties at sample inputs *)

Lemma getNodeDescription_shows_first_entry_witness :
  getNodeDescription Number_toString_unused
    (mkNode "a" "log" "Log Message" (Point.mk 0 0)
       (Some [("message", JStr "éééééééééééééééééééé");
              ("level", JStr "info")]) None)
  = "message: éééééééééééééééééééé".
Proof.
  pose proof (getNodeDescription_shows_first_entry Number_toString_unused
                (mkNode "a" "log" "Log Message" (Point.mk 0 0)
                   (Some [("message", JStr "éééééééééééééééééééé");
                          ("level", JStr "info")])
                   None)) as H.
  cbv zeta in H. destruct H as [_ H].
  destruct (H ltac:(discriminate))
    as (firstKey & rest & Hkeys & _ & _ & _ & _ & _ & _ & Hshort & _).
  injection Hkeys as <- _.
  rewrite Hshort; [reflexivity|].
  change (20 <= 30). lia.
Defined.

Lemma groupNodesByCategory_partitions_witness :
  NoDup (map fst [("actions", [("http", "actions"); ("mail", "actions")]);
                  ("triggers", [("cron", "triggers")])])
  /\ groupNodesByCategory Number_toString_unused
       (fun nt : string * string => JStr (snd nt))
       [("x", ("x", "constructor"))]
     = Throw TypeError.
Proof.
  split.
  - destruct (groupNodesByCategory_partitions Number_toString_unused
                (fun nt : string * string => JStr (snd nt))
                [("http", ("http", "actions")); ("cron", ("cron", "triggers"));
                 ("mail", ("mail", "actions"))]) as [H _].
    destruct (H [("actions", [("http", "actions"); ("mail", "actions")]);
                 ("triggers", [("cron", "triggers")])] eq_refl) as [Hnd _].
    exact Hnd.
  - destruct (groupNodesByCategory_partitions Number_toString_unused
                (fun nt : string * string => JStr (snd nt))
                [("x", ("x", "constructor"))]) as [_ H].
    apply H. split; [reflexivity|].
    exists ("x", "constructor"). split; [left; reflexivity | reflexivity].
Defined.

Lemma updateNodeProperty_edits_one_node_witness :
  (exists node',
      map_get "b"
        (nodes (this (snd (updateNodeProperty "b" "name" "Renamed"
                             sample_world))))
      = Some node'
      /\ node_name node' = "Renamed")
  /\ (exists node' config',
        map_get "b"
          (nodes (this (snd (updateNodeProperty "b" "message" "hello"
                               sample_world))))
        = Some node'
        /\ node_config node' = Some config'
        /\ props_get "message" config' = JStr "hello")
  /\ (exists node',
        map_get "b"
          (nodes (this (snd (updateNodeProperty "b" "__proto__" "hello"
                               sample_world))))
        = Some node'
        /\ node_config node' = Some [])
  /\ updateNodeProperty "z" "name" "Renamed" sample_world
     = (Normal tt, sample_world).
Proof.
  split; [|split; [|split]].
  - destruct (updateNodeProperty_edits_one_node "b" "name" "Renamed"
                sample_world) as [_ H].
    destruct (H (sample_node "b") eq_refl)
      as (node' & _ & Hget & _ & _ & _ & _ & _ & _ & _ & _ & Hname & _).
    exists node'. split; [exact Hget | apply (Hname eq_refl)].
  - destruct (updateNodeProperty_edits_one_node "b" "message" "hello"
                sample_world) as [_ H].
    destruct (H (sample_node "b") eq_refl)
      as (node' & _ & Hget & _ & _ & _ & _ & _ & _ & _ & _ & _ & Hconfig).
    assert (Hother : "message" <> "name") by discriminate.
    destruct (Hconfig Hother) as (_ & config' & Hsome & Hset & _).
    exists node', config'. split; [exact Hget|]. split; [exact Hsome|].
    apply Hset. left. discriminate.
  - destruct (updateNodeProperty_edits_one_node "b" "__proto__" "hello"
                sample_world) as [_ H].
    destruct (H (sample_node "b") eq_refl)
      as (node' & _ & Hget & _ & _ & _ & _ & _ & _ & _ & _ & _ & Hconfig).
    assert (Hother : "__proto__" <> "name") by discriminate.
    destruct (Hconfig Hother) as (_ & config' & Hsome & _ & Hnot).
    exists node'. split; [exact Hget|].
    rewrite Hsome, (Hnot eq_refl eq_refl). reflexivity.
  - apply (updateNodeProperty_edits_one_node "z" "name" "Renamed"
             sample_world).
    reflexivity.
Defined.

Lemma addNode_stores_pending_node_witness :
  nodes (this (snd (addNode "k1" (mkNodeType "log" "Log Message")
                      (Point.mk 5 6) sample_world)))
  = (nodes (this sample_world)
     ++ [("node_k1",
          mkNode "node_k1" "log" "Log Message" (Point.mk 5 6) (Some [])
            (Some "pending"))])%list.
Proof.
  pose proof (addNode_stores_pending_node "k1"
                (mkNodeType "log" "Log Message") (Point.mk 5 6) sample_world)
    as H.
  cbv zeta in H. destruct H as (_ & _ & _ & _ & _ & Hfresh & _).
  apply Hfresh. reflexivity.
Defined.

Lemma onDrop_adds_node_at_drop_point_witness :
  map_get "node_k1"
    (nodes (this (snd (onDrop "k1" (mkDropEvent 100 50 "log") sample_world))))
  = Some (mkNode "node_k1" "log" "Log Message" (Point.mk 100 50) (Some [])
            (Some "pending")).
Proof.
  destruct (onDrop_adds_node_at_drop_point "k1" (mkDropEvent 100 50 "log")
              sample_world) as [_ H].
  destruct (H (mkNodeType "log" "Log Message") eq_refl eq_refl) as [Hget _].
  exact Hget.
Defined.

Lemma onNodeDrag_moves_the_dragged_node_witness :
  map_get "b"
    (nodes (this (snd (onNodeDrag (mkMouseEvent 5 7 None)
                         (snd (startNodeDrag (mkMouseEvent 1 1 None) "b"
                                 sample_world))))))
  = Some (mkNode "b" "log" "Log Message" (Point.mk 14 26) (Some [])
            (Some "pending")).
Proof.
  destruct (onNodeDrag_moves_the_dragged_node (mkMouseEvent 5 7 None)
              (snd (startNodeDrag (mkMouseEvent 1 1 None) "b" sample_world)))
    as (_ & _ & _ & _ & H).
  destruct (H (mkDragStart 1 1 "b") eq_refl eq_refl) as (_ & Hmove & _).
  rewrite (Hmove (sample_node "b") eq_refl). reflexivity.
Defined.

Lemma addConnection_stores_unchecked_witness :
  document (snd (addConnection Number_toString_unused "k9" "a"
                   (Some "output") "nowhere" (Some "input") sample_world))
  = document sample_world
  /\ map_get "node_k9"
       (connections
          (this (snd (addConnection Number_toString_unused "k9" "a"
                        (Some "output") "nowhere" (Some "input")
                        sample_world))))
     = Some (mkConnection "node_k9" "a" (Some "output") "nowhere"
               (Some "input")).
Proof.
  destruct (addConnection_stores_unchecked Number_toString_unused "k9" "a"
              (Some "output") "nowhere" (Some "input") sample_world)
    as (_ & Hget & _ & Hmissing).
  split; [|exact Hget].
  rewrite (Hmissing (or_intror eq_refl)). reflexivity.
Defined.

Lemma deleting_leaves_connection_selected_witness :
  selectedConnection
    (this (snd (deleteConnection "c1"
                  (snd (selectConnection "c1" sample_world)))))
  = Some "c1"
  /\ map_get "c1"
       (connections
          (this (snd (deleteConnection "c1"
                        (snd (selectConnection "c1" sample_world))))))
     = None.
Proof.
  destruct (deleting_leaves_connection_selected
              (snd (selectConnection "c1" sample_world))) as (_ & H & _).
  apply (H "c1" eq_refl).
Defined.


Lemma deployWorkflow_needs_workflow_object_witness :
  effects (snd (deployWorkflow_parsed Number_toString_unused true
                  (Some (JObj [])) sample_world))
  = [ConsoleError "Deploy error:" TypeError;
     ShowNotification "Failed to deploy workflow" "error"]
  /\ workflow (this (snd (deployWorkflow_parsed Number_toString_unused true
                            (Some (JObj [])) saved_world)))
     = JObj [("id", JStr "42"); ("name", JStr "Orders");
             ("status", JStr "active")].
Proof.
  split.
  - destruct (deployWorkflow_needs_workflow_object Number_toString_unused
                (JObj []) sample_world) as (_ & Hnull & _).
    rewrite (Hnull I). reflexivity.
  - destruct (deployWorkflow_needs_workflow_object Number_toString_unused
                (JObj []) saved_world) as (Hobject & _).
    rewrite (Hobject _ eq_refl). reflexivity.
Defined.

Lemma loading_overlay_does_not_stay_up_witness :
  overlay_down
    (world (page_run Number_toString_unused
              [Call Test false; Call Save false; FetchSettles 0 Rejected;
               FetchSettles 0 (Fulfilled true); JsonSettles 0 None]
              (mkPage saved_world []))).
Proof.
  apply (loading_overlay_does_not_stay_up Number_toString_unused
           [Call Test false; Call Save false; FetchSettles 0 Rejected;
            FetchSettles 0 (Fulfilled true); JsonSettles 0 None]
           (mkPage saved_world []));
    [intros _; cbn; discriminate | reflexivity].
Defined.

Lemma loadWorkflow_then_getWorkflowData_witness :
  exists data,
    getWorkflowData
      (snd (loadWorkflow Number_toString_unused
              (Some (mkWorkflowSource
                       (Some [sample_node "a"; sample_node "b"])
                       (Some [mkConnection "c1" "a" None "b" None])))
              (mkWorld (with_connections [] (with_nodes [] sample_editor))
                 bare_dom [])))
    = (Normal data,
       snd (loadWorkflow Number_toString_unused
              (Some (mkWorkflowSource
                       (Some [sample_node "a"; sample_node "b"])
                       (Some [mkConnection "c1" "a" None "b" None])))
              (mkWorld (with_connections [] (with_nodes [] sample_editor))
                 bare_dom [])))
    /\ wd_nodes data = map node_data [sample_node "a"; sample_node "b"]
    /\ wd_connections data = [mkConnection "c1" "a" None "b" None].
Proof.
  destruct (loadWorkflow_then_getWorkflowData Number_toString_unused
              [sample_node "a"; sample_node "b"]
              [mkConnection "c1" "a" None "b" None]
              (mkWorld (with_connections [] (with_nodes [] sample_editor))
                 bare_dom [])) as (_ & _ & H).
  assert (Hnodes : NoDup (map node_id [sample_node "a"; sample_node "b"])).
  { cbn. repeat constructor; cbn; intuition discriminate. }
  assert (Hconns : NoDup (map conn_id [mkConnection "c1" "a" None "b" None])).
  { cbn. repeat constructor; cbn; intuition. }
  pose proof (H eq_refl eq_refl Hnodes Hconns eq_refl eq_refl eq_refl) as H'.
  cbv zeta in H'. destruct H' as (_ & _ & _ & Hdata). exact Hdata.
Defined.

Lemma canvas_stays_in_step_witness :
  canvas_in_step
    (world (page_run Number_toString_unused
              [Invoke (OpDeleteNode "b");
               Invoke (OpAddNode "k1" (mkNodeType "log" "Log Message")
                         (Point.mk 0 0));
               Call Save false]
              (mkPage sample_world []))).
Proof.
  apply (canvas_stays_in_step Number_toString_unused).
  unfold canvas_in_step. cbn.
  split; [|split; [|split; [|split]]].
  - intros k node [H|[H|[H|[]]]]; injection H as <- <-; reflexivity.
  - repeat constructor; cbn; intuition discriminate.
  - intros k H. exact H.
  - intros i H. exact H.
  - intros _ k H. exact H.
Defined.

Lemma deleteNode_then_getWorkflowData_witness :
  exists data,
    getWorkflowData (snd (deleteNode "b" sample_world))
    = (Normal data, snd (deleteNode "b" sample_world))
    /\ wd_nodes data = map node_data [sample_node "a"; sample_node "c"]
    /\ wd_connections data = [].
Proof.
  assert (Hwf : map_wf (connections (this sample_world))).
  { unfold map_wf. cbn. repeat constructor; cbn; intuition discriminate. }
  assert (Hown : forall k node, In (k, node) (nodes (this sample_world)) ->
                                node_id node = k).
  { cbn. intros k node [H|[H|[H|[]]]]; injection H as <- <-; reflexivity. }
  destruct (deleteNode_then_getWorkflowData "b" sample_world Hwf Hown)
    as (data & Hrun & Hn & Hc & _).
  exists data. split; [exact Hrun|].
  split; [rewrite Hn | rewrite Hc]; reflexivity.
Defined.

Lemma onConnectionEnd_ends_drag_if_it_returns_witness :
  isConnecting
    (canvas
       (this (snd (onConnectionEnd Number_toString_unused "k1"
                     (mkMouseEvent 0 0 None)
                     (snd (startConnection (mkMouseEvent 0 0 None) "a"
                             (Some "output") true sample_world))))))
  = false.
Proof.
  destruct (onConnectionEnd_ends_drag_if_it_returns Number_toString_unused
              "k1" (mkMouseEvent 0 0 None)
              (snd (startConnection (mkMouseEvent 0 0 None) "a"
                      (Some "output") true sample_world))) as [_ H].
  destruct (H eq_refl) as (_ & _ & Hmiss).
  rewrite (Hmiss I). reflexivity.
Defined.

